(** * Coach-Clippi: the cross-process bridge, embedded in Rocq

    The controller side of the bridge ([WindowManager], [GameDataInterface]),
    the native add-on ([overlay_native.cpp], [dll_injector.cpp],
    [communication.cpp]) and the in-process overlay ([overlay_simple.cpp])
    are embedded as executable functions.  The operating system is outside
    the repository, so every Win32 entry point the code calls is given a
    small reference semantics (windows) or is an oracle whose answers are a
    parameter (processes, pipes).  Console logging ([std::wcout],
    [OutputDebugString]) has no effect on any value and is left out. *)

From Stdlib Require Import ZArith List String Ascii QArith Lia Lqa Bool.
From stdpp Require Import base option list gmap.
Import ListNotations.

Local Open Scope Z_scope.

(* ===================================================================== *)
(** ** Machine integers *)
(* ===================================================================== *)

Module MachineInt.

(** [DWORD]: unsigned 32-bit, arithmetic modulo 2^32. *)
Definition DWORD_modulus : Z := 2 ^ 32.
Definition to_DWORD (z : Z) : Z := z mod DWORD_modulus.

(** [LONG] / [int]: signed 32-bit two's complement. *)
Definition to_LONG (z : Z) : Z := (z + 2 ^ 31) mod 2 ^ 32 - 2 ^ 31.

Definition LONG_range (z : Z) : Prop := - 2 ^ 31 <= z < 2 ^ 31.
Definition DWORD_range (z : Z) : Prop := 0 <= z < 2 ^ 32.

(** [int] arithmetic: the operation on the integers, wrapped to 32
    bits (signed overflow is undefined in the language; the wrap-around
    is what the compiled code does).  [/] truncates towards zero. *)
Definition int_add (a b : Z) : Z := to_LONG (a + b).
Definition int_sub (a b : Z) : Z := to_LONG (a - b).
Definition int_mul (a b : Z) : Z := to_LONG (a * b).
Definition int_div (a b : Z) : Z := to_LONG (Z.quot a b).

Infix "+%" := int_add (at level 50, left associativity).
Infix "-%" := int_sub (at level 50, left associativity).
Infix "*%" := int_mul (at level 40, left associativity).
Infix "/%" := int_div (at level 40, left associativity).

(** [flags & f] is non-zero. *)
Definition has_flag (flags f : Z) : bool := negb (Z.land flags f =? 0).

End MachineInt.
Import MachineInt.

(* ===================================================================== *)
(** ** Single-precision floating point *)
(* ===================================================================== *)

Module Binary32.

(** A [float] as the compiled code has it: IEEE 754 binary32, every
    operation rounded to the nearest value, ties to the even one.  A
    finite value is an integer number of units of 2^-149, the smallest
    positive [float]; the sign of a zero is not kept. *)
Inductive float :=
| NaN
| Inf (negative : bool)
| Fin (units : Z).

(** [1.0f] in units. *)
Definition one_units : Z := 2 ^ 149.

(** The integer nearest to [n / d] for [0 < d], the even one of two
    equally near. *)
Definition rne (n d : Z) : Z :=
  let q := n / d in
  let r := n mod d in
  if 2 * r <? d then q
  else if d <? 2 * r then q + 1
  else if Z.even q then q else q + 1.

(** A significand has 24 bits: below 2^24 units every integer is a
    [float], from 2^(23+k) units on the multiples of 2^k are.  [scale q]
    is that [k] for [q] units. *)
Definition scale (q : Z) : Z := Z.max 0 (Z.log2 q - 23).

(** The number of units of the [float] nearest to [n / d] units, for
    [0 <= n] and [0 < d]. *)
Definition round_pos (n d : Z) : Z :=
  let k := scale (n / d) in
  rne n (d * 2 ^ k) * 2 ^ k.

(** The first number of units beyond the largest finite [float]. *)
Definition overflow_units : Z := 2 ^ 277.

(** The [float] nearest to [n / d] units, for [0 < d]. *)
Definition round (n d : Z) : float :=
  let r := round_pos (Z.abs n) d in
  if overflow_units <=? r then Inf (n <? 0)
  else if n <? 0 then Fin (- r) else Fin r.

(** Conversion of an integer: [(float)z]. *)
Definition of_Z (z : Z) : float := round (z * one_units) 1.

(** A decimal literal [n / d] with suffix [f]. *)
Definition literal (n d : Z) : float := round (n * one_units) d.

Definition zero : float := Fin 0.
Definition one : float := Fin one_units.

Definition sub (a b : float) : float :=
  match a, b with
  | NaN, _ | _, NaN => NaN
  | Inf s, Inf s' => if Bool.eqb s s' then NaN else Inf s
  | Inf s, Fin _ => Inf s
  | Fin _, Inf s => Inf (negb s)
  | Fin x, Fin y => round (x - y) 1
  end.

Definition mul (a b : float) : float :=
  match a, b with
  | NaN, _ | _, NaN => NaN
  | Inf s, Inf s' => Inf (xorb s s')
  | Inf s, Fin y | Fin y, Inf s => if y =? 0 then NaN else Inf (xorb s (y <? 0))
  | Fin x, Fin y => round (x * y) one_units
  end.

Definition div (a b : float) : float :=
  match a, b with
  | NaN, _ | _, NaN => NaN
  | Inf _, Inf _ => NaN
  | Inf s, Fin y => Inf (xorb s (y <? 0))
  | Fin _, Inf _ => zero
  | Fin x, Fin y =>
      if y =? 0 then (if x =? 0 then NaN else Inf (x <? 0))
      else if 0 <? y then round (x * one_units) y
      else round (- x * one_units) (- y)
  end.

(** [a > b]; a comparison with a NaN is false. *)
Definition gt (a b : float) : bool :=
  match a, b with
  | NaN, _ | _, NaN => false
  | Inf s, Inf s' => negb s && s'
  | Inf s, Fin _ => negb s
  | Fin _, Inf s => s
  | Fin x, Fin y => y <? x
  end.

(** [a < b] *)
Definition lt (a b : float) : bool := gt b a.

(** [(BYTE)a] for a value from 0 to 255: the fraction is dropped. *)
Definition to_BYTE (a : float) : Z :=
  match a with
  | Fin x => Z.quot x one_units mod 256
  | _ => 0
  end.

(** The rational a finite [float] stands for. *)
Definition value (a : float) : Q :=
  match a with
  | Fin x => inject_Z x / inject_Z one_units
  | _ => 0
  end.

End Binary32.

(* ===================================================================== *)
(** ** The window system seen by [WindowManager.cpp] *)
(* ===================================================================== *)

Module Win32.

Definition HWND := Z.
Definition NULL : Z := 0.

Record RECT := mkRECT { rc_left : Z; rc_top : Z; rc_right : Z; rc_bottom : Z }.
Definition RECT_zero : RECT := mkRECT 0 0 0 0.

(** What the window system keeps for one window.  The bounding rectangle
    is kept in a single coordinate space, as for the top-level windows
    [EnumWindows] yields, which [GetWindowRect] reads and [SetWindowPos]
    places in screen coordinates.  The position in the Z-order is not
    tracked; the visible and the topmost state are, as the style bit
    [WS_VISIBLE] and the extended style bit [WS_EX_TOPMOST].  The client
    rectangle is what the window's procedure last answered to
    [WM_NCCALCSIZE]; [w_ncCalcSize] is that answer as a function of the
    style, the extended style and the bounding rectangle, and belongs to
    the window's procedure, not to the code embedded here. *)
Record Window := mkWindow {
  w_parent     : HWND;
  w_style      : Z;
  w_exStyle    : Z;
  w_rect       : RECT;
  w_client     : RECT;
  w_showCmd    : Z;
  w_ncCalcSize : Z -> Z -> RECT -> RECT
}.

(* winuser.h *)
Definition GWL_STYLE : Z := -16.
Definition GWL_EXSTYLE : Z := -20.

Definition WS_CAPTION      : Z := 0x00C00000.
Definition WS_THICKFRAME   : Z := 0x00040000.
Definition WS_MINIMIZEBOX  : Z := 0x00020000.
Definition WS_MAXIMIZEBOX  : Z := 0x00010000.
Definition WS_SYSMENU      : Z := 0x00080000.
Definition WS_BORDER       : Z := 0x00800000.
Definition WS_CHILD        : Z := 0x40000000.
Definition WS_CLIPSIBLINGS : Z := 0x04000000.
Definition WS_VISIBLE      : Z := 0x10000000.

Definition WS_EX_DLGMODALFRAME    : Z := 0x00000001.
Definition WS_EX_TOPMOST          : Z := 0x00000008.
Definition WS_EX_TOOLWINDOW       : Z := 0x00000080.
Definition WS_EX_WINDOWEDGE       : Z := 0x00000100.
Definition WS_EX_CLIENTEDGE       : Z := 0x00000200.
Definition WS_EX_STATICEDGE       : Z := 0x00020000.
Definition WS_EX_OVERLAPPEDWINDOW : Z := Z.lor WS_EX_WINDOWEDGE WS_EX_CLIENTEDGE.
Definition WS_EX_PALETTEWINDOW    : Z :=
  Z.lor WS_EX_WINDOWEDGE (Z.lor WS_EX_TOOLWINDOW WS_EX_TOPMOST).

Definition SWP_NOSIZE        : Z := 0x0001.
Definition SWP_NOMOVE        : Z := 0x0002.
Definition SWP_NOZORDER      : Z := 0x0004.
Definition SWP_NOACTIVATE    : Z := 0x0010.
Definition SWP_FRAMECHANGED  : Z := 0x0020.
Definition SWP_SHOWWINDOW    : Z := 0x0040.
Definition SWP_HIDEWINDOW    : Z := 0x0080.
Definition SWP_NOOWNERZORDER : Z := 0x0200.

Definition HWND_TOP       : HWND := 0.
Definition HWND_BOTTOM    : HWND := 1.
Definition HWND_TOPMOST   : HWND := -1.
Definition HWND_NOTOPMOST : HWND := -2.
Definition SW_SHOWMAXIMIZED : Z := 3.

Definition ERROR_ACCESS_DENIED : Z := 5.
Definition ERROR_INVALID_WINDOW_HANDLE : Z := 1400.

(** The calls that act on a window.  [CGetClientRect] is a query; it is
    listed because the code has a branch for its failure. *)
Inductive Call :=
| CSetParent (hWndChild hWndNewParent : HWND)
| CSetWindowLong (hWnd : HWND) (nIndex dwNewLong : Z)
| CSetWindowPos (hWnd hWndInsertAfter : HWND) (X Y cx cy uFlags : Z)
| CShowWindow (hWnd : HWND) (nCmdShow : Z)
| CInvalidateRect (hWnd : HWND) (bErase : bool)
| CUpdateWindow (hWnd : HWND)
| CGetClientRect (hWnd : HWND).

(** The desktop: the live windows by handle, the calling thread's
    last-error value, and the window-changing calls issued so far, oldest
    first (a call is logged when it is issued, whatever its outcome). *)
Record Desktop := mkDesktop {
  windows    : gmap Z Window;
  last_error : Z;
  os_log     : list Call
}.

Definition with_windows (ws : gmap Z Window) (os : Desktop) : Desktop :=
  mkDesktop ws (last_error os) (os_log os).
Definition log_call (c : Call) (os : Desktop) : Desktop :=
  mkDesktop (windows os) (last_error os) (os_log os ++ [c]).
Definition put_window (h : HWND) (w : Window) (os : Desktop) : Desktop :=
  with_windows (<[h := w]> (windows os)) os.

Definition with_parent (p : HWND) (w : Window) : Window :=
  mkWindow p (w_style w) (w_exStyle w) (w_rect w) (w_client w) (w_showCmd w)
           (w_ncCalcSize w).
Definition with_style (s : Z) (w : Window) : Window :=
  mkWindow (w_parent w) s (w_exStyle w) (w_rect w) (w_client w) (w_showCmd w)
           (w_ncCalcSize w).
Definition with_exStyle (s : Z) (w : Window) : Window :=
  mkWindow (w_parent w) (w_style w) s (w_rect w) (w_client w) (w_showCmd w)
           (w_ncCalcSize w).
Definition with_showCmd (c : Z) (w : Window) : Window :=
  mkWindow (w_parent w) (w_style w) (w_exStyle w) (w_rect w) (w_client w) c
           (w_ncCalcSize w).

(* ------------------------------------------------------------------- *)
(** *** Queries *)

Definition IsWindow (h : HWND) (os : Desktop) : bool :=
  match windows os !! h with Some _ => true | None => false end.

Definition GetParent (h : HWND) (os : Desktop) : HWND :=
  match windows os !! h with Some w => w_parent w | None => NULL end.

Definition GetWindowLong (h : HWND) (nIndex : Z) (os : Desktop) : Z :=
  match windows os !! h with
  | Some w => if nIndex =? GWL_STYLE then w_style w
              else if nIndex =? GWL_EXSTYLE then w_exStyle w
              else 0
  | None => 0
  end.

(** [BOOL GetWindowRect(h, &r)]: [None] is the [FALSE] result, which
    leaves the out-parameter as it was. *)
Definition GetWindowRect (h : HWND) (os : Desktop) : option RECT :=
  w_rect <$> windows os !! h.

(** [GetWindowPlacement] as far as the code reads it: [showCmd]. *)
Definition GetWindowPlacement (h : HWND) (os : Desktop) : option Z :=
  w_showCmd <$> windows os !! h.

Definition GetLastError (os : Desktop) : Z := last_error os.
Definition SetLastError (e : Z) (os : Desktop) : Desktop :=
  mkDesktop (windows os) e (os_log os).

Section Platform.

(** The platform may refuse a call on a live window (insufficient
    privilege, a foreign process's window, ...).  Which calls it
    refuses is a parameter of the model. *)
Variable rejects : Call -> bool.

(** The window a call on handle [h] acts on, with the error code
    otherwise. *)
Definition served (c : Call) (h : HWND) (os : Desktop) : Window + Z :=
  match windows os !! h with
  | None => inr ERROR_INVALID_WINDOW_HANDLE
  | Some w => if rejects c then inr ERROR_ACCESS_DENIED else inl w
  end.

Definition GetClientRect (h : HWND) (os : Desktop) : option RECT :=
  match served (CGetClientRect h) h os with
  | inl w => Some (w_client w)
  | inr _ => None
  end.

(* ----------------------------------------------------------------- *)
(** *** Calls that change a window *)

(** Returns the previous parent; [NULL] with a last-error code on
    failure. *)
Definition SetParent (child newParent : HWND) (os : Desktop) : HWND * Desktop :=
  let c := CSetParent child newParent in
  let os := log_call c os in
  match served c child os with
  | inl w => (w_parent w, put_window child (with_parent newParent w) os)
  | inr e => (NULL, SetLastError e os)
  end.

(** Returns the previous value; [0] with a last-error code on failure.
    The window system caches what it derives from the styles: the
    client rectangle stays as it is until a [SetWindowPos] with
    [SWP_FRAMECHANGED]. *)
Definition SetWindowLong (h : HWND) (nIndex dwNewLong : Z) (os : Desktop) : Z * Desktop :=
  let c := CSetWindowLong h nIndex dwNewLong in
  let os := log_call c os in
  match served c h os with
  | inl w =>
      if nIndex =? GWL_STYLE then
        (w_style w, put_window h (with_style dwNewLong w) os)
      else if nIndex =? GWL_EXSTYLE then
        (w_exStyle w, put_window h (with_exStyle dwNewLong w) os)
      else (0, os)
  | inr e => (0, SetLastError e os)
  end.

(** The rectangle after [SetWindowPos]: the origin moves unless
    [SWP_NOMOVE], the extent changes unless [SWP_NOSIZE]. *)
Definition moved_rect (r : RECT) (X Y cx cy uFlags : Z) : RECT :=
  let nomove := has_flag uFlags SWP_NOMOVE in
  let nosize := has_flag uFlags SWP_NOSIZE in
  if nomove && nosize then r
  else
    let l := if nomove then rc_left r else X in
    let t := if nomove then rc_top r else Y in
    let w := if nosize then to_LONG (rc_right r - rc_left r) else cx in
    let h := if nosize then to_LONG (rc_bottom r - rc_top r) else cy in
    mkRECT l t (to_LONG (l + w)) (to_LONG (t + h)).

(** The style after [SetWindowPos]: [SWP_SHOWWINDOW] shows the window,
    [SWP_HIDEWINDOW] hides it. *)
Definition shown_style (style uFlags : Z) : Z :=
  if has_flag uFlags SWP_SHOWWINDOW then Z.lor style WS_VISIBLE
  else if has_flag uFlags SWP_HIDEWINDOW then Z.land style (Z.lnot WS_VISIBLE)
  else style.

(** The extended style after [SetWindowPos]: unless [SWP_NOZORDER] is
    given, [HWND_TOPMOST] makes the window a topmost one, and with
    [HWND_NOTOPMOST] or [HWND_BOTTOM] a topmost window loses that
    status.  ([HWND_TOP] and the handle of another window, which the
    code never passes without [SWP_NOZORDER], leave the status as it
    is here.) *)
Definition ordered_exStyle (exStyle : Z) (after : HWND) (uFlags : Z) : Z :=
  if has_flag uFlags SWP_NOZORDER then exStyle
  else if after =? HWND_TOPMOST then Z.lor exStyle WS_EX_TOPMOST
  else if (after =? HWND_NOTOPMOST) || (after =? HWND_BOTTOM)
       then Z.land exStyle (Z.lnot WS_EX_TOPMOST)
  else exStyle.

(** The extent of a rectangle changes. *)
Definition resized (r r' : RECT) : bool :=
  negb ((rc_right r' - rc_left r' =? rc_right r - rc_left r)
        && (rc_bottom r' - rc_top r' =? rc_bottom r - rc_top r)).

(** The window after [SetWindowPos]: placed, shown or hidden, and put
    in or out of the topmost class as the arguments say; when its
    extent changes or [SWP_FRAMECHANGED] is given, the window's
    procedure is asked for the client rectangle anew. *)
Definition positioned (after : HWND) (X Y cx cy uFlags : Z) (w : Window) : Window :=
  let r := moved_rect (w_rect w) X Y cx cy uFlags in
  let style := shown_style (w_style w) uFlags in
  let exStyle := ordered_exStyle (w_exStyle w) after uFlags in
  let client := if has_flag uFlags SWP_FRAMECHANGED || resized (w_rect w) r
                then w_ncCalcSize w style exStyle r
                else w_client w in
  mkWindow (w_parent w) style exStyle r client (w_showCmd w) (w_ncCalcSize w).

Definition SetWindowPos (h after : HWND) (X Y cx cy uFlags : Z) (os : Desktop)
  : bool * Desktop :=
  let c := CSetWindowPos h after X Y cx cy uFlags in
  let os := log_call c os in
  match served c h os with
  | inl w => (true, put_window h (positioned after X Y cx cy uFlags w) os)
  | inr e => (false, SetLastError e os)
  end.

(** [ShowWindow] as far as the code reads its effect back: the show
    state that [GetWindowPlacement] reports.  The rectangle a
    maximized window takes on the screen is not kept; the only
    [ShowWindow] of the code is the last call of a restore. *)
Definition ShowWindow (h : HWND) (nCmdShow : Z) (os : Desktop) : bool * Desktop :=
  let c := CShowWindow h nCmdShow in
  let os := log_call c os in
  match served c h os with
  | inl w => (true, put_window h (with_showCmd nCmdShow w) os)
  | inr e => (false, SetLastError e os)
  end.

(** Repaint requests change no attribute kept here. *)
Definition InvalidateRect (h : HWND) (bErase : bool) (os : Desktop) : bool * Desktop :=
  let c := CInvalidateRect h bErase in
  let os := log_call c os in
  match served c h os with
  | inl _ => (true, os)
  | inr e => (false, SetLastError e os)
  end.

Definition UpdateWindow (h : HWND) (os : Desktop) : bool * Desktop :=
  let c := CUpdateWindow h in
  let os := log_call c os in
  match served c h os with
  | inl _ => (true, os)
  | inr e => (false, SetLastError e os)
  end.

End Platform.

End Win32.
Import Win32.

(* ===================================================================== *)
(** ** WindowManager.cpp / WindowManager.h *)
(* ===================================================================== *)

Module WindowManager.

(** [struct EmbeddedWindowInfo] *)
Record EmbeddedWindowInfo := mkInfo {
  gameWindow      : HWND;
  originalParent  : HWND;
  originalStyle   : Z;
  originalExStyle : Z;
  originalRect    : RECT;
  wasMaximized    : bool
}.

(** [EmbeddedWindowInfo embedInfo = {}; embedInfo.gameWindow = gameWindow;] *)
Definition blank_info (gw : HWND) : EmbeddedWindowInfo :=
  mkInfo gw NULL 0 0 RECT_zero false.

(** The object's only data member is [m_embeddedWindows]. *)
Abbreviation State := (list EmbeddedWindowInfo).

#[global] Instance tracks_dec (gw : HWND) (info : EmbeddedWindowInfo)
  : Decision (gameWindow info = gw) := Z.eq_dec _ _.

(** [WindowManager::SaveWindowState] *)
Definition SaveWindowState (window : HWND) (info : EmbeddedWindowInfo) (os : Desktop)
  : EmbeddedWindowInfo :=
  let parent := GetParent window os in
  let style := GetWindowLong window GWL_STYLE os in
  let exStyle := GetWindowLong window GWL_EXSTYLE os in
  let rect := match GetWindowRect window os with
              | Some r => r
              | None => originalRect info
              end in
  let showCmd := match GetWindowPlacement window os with
                 | Some c => c
                 | None => 0
                 end in
  mkInfo (gameWindow info) parent style exStyle rect (showCmd =? SW_SHOWMAXIMIZED).

Definition embedded_style_mask : Z :=
  Z.lor WS_CAPTION (Z.lor WS_THICKFRAME (Z.lor WS_MINIMIZEBOX
    (Z.lor WS_MAXIMIZEBOX (Z.lor WS_SYSMENU WS_BORDER)))).

Definition embedded_exStyle_mask : Z :=
  Z.lor WS_EX_DLGMODALFRAME (Z.lor WS_EX_WINDOWEDGE (Z.lor WS_EX_CLIENTEDGE
    (Z.lor WS_EX_STATICEDGE (Z.lor WS_EX_OVERLAPPEDWINDOW WS_EX_PALETTEWINDOW)))).

Section Platform.
Variable rejects : Call -> bool.

(** [WindowManager::RestoreWindowState] *)
Definition RestoreWindowState (info : EmbeddedWindowInfo) (os : Desktop) : Desktop :=
  if negb (IsWindow (gameWindow info) os) then os
  else
    let '(_, os) := SetParent rejects (gameWindow info) (originalParent info) os in
    let '(_, os) := SetWindowLong rejects (gameWindow info) GWL_STYLE (originalStyle info) os in
    let '(_, os) := SetWindowLong rejects (gameWindow info) GWL_EXSTYLE (originalExStyle info) os in
    let r := originalRect info in
    let '(_, os) := SetWindowPos rejects (gameWindow info) NULL
                      (rc_left r) (rc_top r)
                      (to_LONG (rc_right r - rc_left r))
                      (to_LONG (rc_bottom r - rc_top r))
                      (Z.lor SWP_NOZORDER SWP_FRAMECHANGED) os in
    if wasMaximized info
    then snd (ShowWindow rejects (gameWindow info) SW_SHOWMAXIMIZED os)
    else os.

(** [WindowManager::ApplyEmbeddedStyle] *)
Definition ApplyEmbeddedStyle (window : HWND) (os : Desktop) : Desktop :=
  let style := GetWindowLong window GWL_STYLE os in
  let style := Z.land style (Z.lnot embedded_style_mask) in
  let style := Z.lor style (Z.lor WS_CHILD WS_CLIPSIBLINGS) in
  let '(_, os) := SetWindowLong rejects window GWL_STYLE style os in
  let exStyle := GetWindowLong window GWL_EXSTYLE os in
  let exStyle := Z.land exStyle (Z.lnot embedded_exStyle_mask) in
  let '(_, os) := SetWindowLong rejects window GWL_EXSTYLE exStyle os in
  snd (SetWindowPos rejects window HWND_BOTTOM 0 0 0 0
         (Z.lor SWP_NOMOVE (Z.lor SWP_NOSIZE (Z.lor SWP_FRAMECHANGED
            (Z.lor SWP_NOACTIVATE SWP_NOOWNERZORDER)))) os).

(** [WindowManager::EmbedGameWindow].  The result is the returned
    [bool], the object's records and the desktop afterwards. *)
Definition EmbedGameWindow (m : State) (parentWindow gameWindow_ : HWND) (os : Desktop)
  : bool * State * Desktop :=
  (* Validate input windows *)
  if negb (IsWindow gameWindow_ os) then (false, m, os)
  else if negb (IsWindow parentWindow os) then (false, m, os)
  (* Check if already embedded *)
  else if existsb (fun info => gameWindow info =? gameWindow_) m then (true, m, os)
  else
    (* Save current window state *)
    let embedInfo := SaveWindowState gameWindow_ (blank_info gameWindow_) os in
    (* Clear any previous error *)
    let os := SetLastError 0 os in
    (* Set new parent *)
    let '(oldParent, os) := SetParent rejects gameWindow_ parentWindow os in
    let lastError := GetLastError os in
    if (oldParent =? NULL) && negb (lastError =? 0) then (false, m, os)
    else
      (* Apply embedded window style *)
      let os := ApplyEmbeddedStyle gameWindow_ os in
      (* Position the game window over the parent's client area *)
      let os :=
        match GetClientRect rejects parentWindow os with
        | Some parentClientRect =>
            let clientWidth := to_LONG (rc_right parentClientRect - rc_left parentClientRect) in
            let clientHeight := to_LONG (rc_bottom parentClientRect - rc_top parentClientRect) in
            snd (SetWindowPos rejects gameWindow_ HWND_BOTTOM 0 0 clientWidth clientHeight
                   (Z.lor SWP_NOACTIVATE SWP_SHOWWINDOW) os)
        | None => os
        end in
      (* Store the embedding info *)
      let m := m ++ [embedInfo] in
      (* Force a redraw of both windows *)
      let '(_, os) := InvalidateRect rejects parentWindow true os in
      let '(_, os) := InvalidateRect rejects gameWindow_ true os in
      let '(_, os) := UpdateWindow rejects parentWindow os in
      let '(_, os) := UpdateWindow rejects gameWindow_ os in
      (true, m, os).

(** [WindowManager::RestoreGameWindow]: [std::find_if], then
    [RestoreWindowState] on the record found and [erase] of it. *)
Definition RestoreGameWindow (m : State) (gameWindow_ : HWND) (os : Desktop)
  : bool * State * Desktop :=
  match list_find (fun info => gameWindow info = gameWindow_) m with
  | Some (it, info) => (true, delete it m, RestoreWindowState info os)
  | None => (false, m, os)
  end.


(** [WindowManager::SynchronizeWindowRefresh] *)
Definition SynchronizeWindowRefresh (containerWindow gameWindow_ : HWND) (os : Desktop)
  : Desktop :=
  if negb (IsWindow containerWindow os) || negb (IsWindow gameWindow_ os) then os
  else
    let '(_, os) := InvalidateRect rejects gameWindow_ false os in
    let '(_, os) := InvalidateRect rejects containerWindow false os in
    let '(_, os) := UpdateWindow rejects gameWindow_ os in
    let '(_, os) := UpdateWindow rejects containerWindow os in
    snd (SetWindowPos rejects gameWindow_ HWND_BOTTOM 0 0 0 0
           (Z.lor SWP_NOMOVE (Z.lor SWP_NOSIZE (Z.lor SWP_NOACTIVATE SWP_NOOWNERZORDER))) os).

(** [WindowManager::UpdateGameWindowPosition] (returns [void]). *)
Definition UpdateGameWindowPosition (parentWindow gameWindow_ : HWND) (gameArea : RECT)
    (os : Desktop) : Desktop :=
  if negb (IsWindow gameWindow_ os) then os
  else
    let '(_, os) := SetWindowPos rejects gameWindow_ HWND_BOTTOM
                      (rc_left gameArea) (rc_top gameArea)
                      (to_LONG (rc_right gameArea - rc_left gameArea))
                      (to_LONG (rc_bottom gameArea - rc_top gameArea))
                      (Z.lor SWP_NOACTIVATE SWP_NOOWNERZORDER) os in
    SynchronizeWindowRefresh parentWindow gameWindow_ os.

End Platform.

End WindowManager.

(* ===================================================================== *)
(** ** [std::string] operations used by the parsers *)
(* ===================================================================== *)

Module StdString.

Local Open Scope string_scope.

Definition dquote : ascii := "034"%char.
Definition backslash : ascii := "092"%char.

(** The C++ literal ["\"s\""]: [s] between double quotes. *)
Definition quoted (s : string) : string :=
  String dquote (s ++ String dquote EmptyString).

(** [hay.find(needle)]; [None] is [npos]. *)
Fixpoint find (needle hay : string) : option nat :=
  if String.prefix needle hay then Some 0%nat
  else match hay with
       | EmptyString => None
       | String _ rest => S <$> find needle rest
       end.

Fixpoint mem (c : ascii) (chars : string) : bool :=
  match chars with
  | EmptyString => false
  | String d rest => Ascii.eqb c d || mem c rest
  end.

(** [s.find_first_of(chars, pos)] *)
Fixpoint find_first_of (chars s : string) (pos : nat) : option nat :=
  match s with
  | EmptyString => None
  | String c rest =>
      match pos with
      | O => if mem c chars then Some 0%nat else S <$> find_first_of chars rest 0
      | S p => S <$> find_first_of chars rest p
      end
  end.

(** [s.find_last_of(chars)] *)
Fixpoint find_last_of (chars s : string) : option nat :=
  match s with
  | EmptyString => None
  | String c rest =>
      match find_last_of chars rest with
      | Some i => Some (S i)
      | None => if mem c chars then Some 0%nat else None
      end
  end.

(** [s.substr(pos, len)] for [pos <= s.size()]. *)
Definition substr (s : string) (pos len : nat) : string := String.substring pos len s.

Inductive exn := invalid_argument | out_of_range.

(** [isspace] in the "C" locale. *)
Definition isspace (c : ascii) : bool :=
  let n := nat_of_ascii c in
  (n =? 32)%nat || ((9 <=? n)%nat && (n <=? 13)%nat).

Definition digit_value (c : ascii) : option Z :=
  let n := nat_of_ascii c in
  if ((48 <=? n)%nat && (n <=? 57)%nat) then Some (Z.of_nat n - 48) else None.

Fixpoint skip_space (s : string) : string :=
  match s with
  | String c rest => if isspace c then skip_space rest else s
  | EmptyString => s
  end.

(** The longest run of decimal digits at the front of [s], as a number
    ([None] when [s] starts with no digit). *)
Fixpoint digits (s : string) (acc : option Z) : option Z :=
  match s with
  | String c rest =>
      match digit_value c with
      | Some d => digits rest (Some (10 * default 0 acc + d))
      | None => acc
      end
  | EmptyString => acc
  end.

(** [std::stoi(s)]: white space, an optional sign, then decimal digits;
    what follows the digits is ignored.  Throws [std::invalid_argument]
    when there is no digit and [std::out_of_range] when the value does
    not fit an [int]. *)
Definition stoi (s : string) : Z + exn :=
  let s := skip_space s in
  let '(negative, s) :=
    match s with
    | String "-" rest => (true, rest)
    | String "+" rest => (false, rest)
    | _ => (false, s)
    end in
  match digits s None with
  | None => inr invalid_argument
  | Some n =>
      let v := (if negative then - n else n)%Z in
      if ((- 2 ^ 31 <=? v) && (v <? 2 ^ 31))%Z then inl v else inr out_of_range
  end.

End StdString.
Import StdString.

(* ===================================================================== *)
(** ** The process and pipe services of the kernel *)
(* ===================================================================== *)

Module Kernel.

Definition HANDLE := Z.
Definition INVALID_HANDLE_VALUE : HANDLE := -1.

(* winnt.h *)
Definition PROCESS_ALL_ACCESS        : Z := 0x1FFFFF.
Definition PROCESS_CREATE_THREAD     : Z := 0x0002.
Definition PROCESS_VM_OPERATION      : Z := 0x0008.
Definition PROCESS_VM_READ           : Z := 0x0010.
Definition PROCESS_VM_WRITE          : Z := 0x0020.
Definition PROCESS_QUERY_INFORMATION : Z := 0x0400.
Definition MEM_COMMIT  : Z := 0x1000.
Definition MEM_RESERVE : Z := 0x2000.

(** The answers of the kernel to the calls of the injection and pipe
    code.  They are a parameter: the code is specified for every way
    the kernel may answer.  A handle or address of [0] is the [NULL]
    failure value. *)
Record Oracle := mkOracle {
  OpenProcess        : Z -> Z -> HANDLE;            (* access, pid *)
  VirtualAllocEx     : HANDLE -> Z -> Z -> Z;       (* process, size, type *)
  WriteProcessMemory : HANDLE -> Z -> string -> Z -> bool;
  GetModuleHandle    : string -> Z;
  GetProcAddress     : Z -> string -> Z;
  CreateRemoteThread : HANDLE -> Z -> Z -> HANDLE;  (* process, start, argument *)
  GetExitCodeThread  : HANDLE -> bool * Z;          (* success, exit code read *)
  GetModuleFileName  : string;
  GetFileAttributes  : string -> bool;              (* the file exists *)
  WriteFile          : HANDLE -> string -> Z -> bool * Z  (* success, bytes written *)
}.

(** The calls with an effect outside the caller, as they are issued. *)
Inductive KCall :=
| KOpenProcess (access pid : Z)
| KVirtualAllocEx (hProcess : HANDLE) (size : Z)
| KWriteProcessMemory (hProcess : HANDLE) (address : Z) (data : string) (size : Z)
| KCreateRemoteThread (hProcess : HANDLE) (start argument : Z)
| KWaitForSingleObject (h : HANDLE)
| KVirtualFreeEx (hProcess : HANDLE) (address : Z)
| KCloseHandle (h : HANDLE)
| KWriteFile (h : HANDLE) (data : string) (nBytes : Z).


End Kernel.
Import Kernel.

(* ===================================================================== *)
(** ** GameDataInterface.cpp / GameDataInterface.h *)
(* ===================================================================== *)

Module GameDataInterface.

Local Open Scope string_scope.
Local Open Scope list_scope.

(** [struct GameState].  [players] and [gameTimer] are zeroed by the
    constructor and written nowhere in the code; they are left out. *)
Record GameState := mkGameState {
  activePlayerCount : Z;
  frameCount        : Z;
  stage             : Z;
  isInGame          : bool;
  isPaused          : bool
}.

(** [enum GameEvent::Type], in declaration order. *)
Inductive EventType :=
| GAME_START | GAME_END | STOCK_LOST | COMBO_START | COMBO_END
| KILL | TECH | EDGEGUARD | NEUTRAL_WIN.

(** The enumerator's integer value. *)
Definition EventType_value (t : EventType) : Z :=
  match t with
  | GAME_START => 0 | GAME_END => 1 | STOCK_LOST => 2 | COMBO_START => 3
  | COMBO_END => 4 | KILL => 5 | TECH => 6 | EDGEGUARD => 7 | NEUTRAL_WIN => 8
  end.

(** [struct GameEvent].  [timestamp] is [GetTickCount() / 1000.0f]; the
    tick it is computed from is kept instead of the [float]. *)
Record GameEvent := mkGameEvent {
  type      : EventType;
  playerId  : Z;
  timestamp_tick : Z;
  data      : string
}.

(** [struct InjectedProcess] *)
Record InjectedProcess := mkInjected {
  processId     : Z;
  processHandle : HANDLE;
  dllModule     : Z
}.

(** An invocation of a registered callback. *)
Inductive Notification :=
| StateNotified (s : GameState)
| EventNotified (e : GameEvent).

(** The data members the modelled methods use.  A [std::function]
    member is kept as "is one registered"; the calls made to it are
    collected in [notified], oldest first. *)
Record State := mkState {
  m_currentGameState  : GameState;
  m_recentEvents      : list GameEvent;
  m_gameStateCallback : bool;
  m_gameEventCallback : bool;
  m_injectedProcesses : list InjectedProcess;
  notified            : list Notification
}.

(** [GameDataInterface::GameDataInterface]: [memset] of the game state,
    empty containers, no callbacks. *)
Definition constructor : State :=
  mkState (mkGameState 0 0 0 false false) [] false false [] [].

Definition with_frameCount (n : Z) (st : State) : State :=
  let g := m_currentGameState st in
  mkState (mkGameState (activePlayerCount g) n (stage g) (isInGame g) (isPaused g))
          (m_recentEvents st) (m_gameStateCallback st) (m_gameEventCallback st)
          (m_injectedProcesses st) (notified st).
Definition with_recentEvents (evs : list GameEvent) (st : State) : State :=
  mkState (m_currentGameState st) evs (m_gameStateCallback st) (m_gameEventCallback st)
          (m_injectedProcesses st) (notified st).
Definition with_injectedProcesses (ps : list InjectedProcess) (st : State) : State :=
  mkState (m_currentGameState st) (m_recentEvents st) (m_gameStateCallback st)
          (m_gameEventCallback st) ps (notified st).
Definition notify (n : Notification) (st : State) : State :=
  mkState (m_currentGameState st) (m_recentEvents st) (m_gameStateCallback st)
          (m_gameEventCallback st) (m_injectedProcesses st) (notified st ++ [n]).

(** What a call ends with: a normal return or a C++ exception leaving
    the function.  Nothing on the call path catches, so an exception
    leaves the reader thread and ends the process. *)
Inductive Outcome (A : Type) :=
| Returns (a : A)
| Throws (e : exn).
Arguments Returns {A} a.
Arguments Throws {A} e.

(** [GameDataInterface::NotifyGameStateUpdate] *)
Definition NotifyGameStateUpdate (st : State) : State :=
  if m_gameStateCallback st then notify (StateNotified (m_currentGameState st)) st else st.

(** [GameDataInterface::NotifyGameEvent] *)
Definition NotifyGameEvent (event : GameEvent) (st : State) : State :=
  if m_gameEventCallback st then notify (EventNotified event) st else st.

(** [GameDataInterface::ParseGameStateUpdate] *)
Definition ParseGameStateUpdate (st : State) (data_ : string) : Outcome State :=
  match find (quoted "frame" ++ ":")%string data_ with
  | Some framePos =>
      let framePos := (framePos + 8)%nat in   (* Skip "frame": *)
      match find_first_of ",}" data_ framePos with
      | Some endPos =>
          let frameStr := substr data_ framePos (endPos - framePos) in
          match stoi frameStr with
          | inl n => Returns (NotifyGameStateUpdate (with_frameCount n st))
          | inr e => Throws e
          end
      | None => Returns (NotifyGameStateUpdate st)
      end
  | None => Returns (NotifyGameStateUpdate st)
  end.

Definition is_found (o : option nat) : bool :=
  match o with Some _ => true | None => false end.

(** The [type] chosen by [ParseGameEvent]; [GameEvent event = {}]
    leaves it at enumerator [0] when no branch assigns it. *)
Definition event_type_of (data_ : string) : EventType :=
  if is_found (find (quoted "combo") data_) then COMBO_START
  else if is_found (find (quoted "kill") data_) then KILL
  else if is_found (find (quoted "stock") data_) then STOCK_LOST
  else GAME_START.

(** [GameDataInterface::ParseGameEvent]; [tick] is what [GetTickCount]
    returns during the call. *)
Definition ParseGameEvent (st : State) (data_ : string) (tick : Z) : State :=
  let event := mkGameEvent (event_type_of data_) 0 tick data_ in
  let events := m_recentEvents st ++ [event] in
  (* Keep only recent events *)
  let events := if (100 <? length events)%nat then drop 1 events else events in
  NotifyGameEvent event (with_recentEvents events st).

(** [GameDataInterface::ProcessIncomingData] *)
Definition ProcessIncomingData (st : State) (data_ : string) (tick : Z) : Outcome State :=
  if is_found (find (quoted "type" ++ ":" ++ quoted "gameState")%string data_) then
    ParseGameStateUpdate st data_
  else if is_found (find (quoted "type" ++ ":" ++ quoted "event")%string data_) then
    Returns (ParseGameEvent st data_ tick)
  else Returns st.

(** [GameDataInterface::IsDLLInjected] *)
Definition IsDLLInjected (st : State) (pid : Z) : bool :=
  existsb (fun process => (processId process =? pid)%Z) (m_injectedProcesses st).

#[global] Instance injected_dec (pid : Z) (p : InjectedProcess)
  : Decision (processId p = pid) := Z.eq_dec _ _.

Section Kernel.
Variable K : Oracle.

(** [GameDataInterface::GetDLLPath]; the empty string is "not found". *)
Definition GetDLLPath : string :=
  let path := GetModuleFileName K in
  let path := match find_last_of (String backslash EmptyString) path with
              | Some lastSlash => substr path 0 (lastSlash + 1)
              | None => path
              end in
  let path := (path ++ "overlay.dll")%string in
  if GetFileAttributes K path then path
  else
    let path := ("build" ++ String backslash "overlay.dll")%string in
    if GetFileAttributes K path then path else "".

(** [GameDataInterface::InjectDLLIntoProcess].  The result is the
    returned [bool], the object afterwards and the kernel calls
    issued, in order. *)
Definition InjectDLLIntoProcess (st : State) (pid : Z) (dllPath : string)
  : bool * State * list KCall :=
  (* Open target process *)
  let processHandle_ := OpenProcess K PROCESS_ALL_ACCESS pid in
  let t := [KOpenProcess PROCESS_ALL_ACCESS pid] in
  if (processHandle_ =? 0)%Z then (false, st, t)
  else
    (* Allocate memory in target process for DLL path *)
    let pathSize := ((Z.of_nat (String.length dllPath) + 1) * 2)%Z in
    let remoteMemory := VirtualAllocEx K processHandle_ pathSize (Z.lor MEM_COMMIT MEM_RESERVE) in
    let t := t ++ [KVirtualAllocEx processHandle_ pathSize] in
    if (remoteMemory =? 0)%Z then (false, st, t ++ [KCloseHandle processHandle_])
    else
      (* Write DLL path to target process *)
      let t := t ++ [KWriteProcessMemory processHandle_ remoteMemory dllPath pathSize] in
      if negb (WriteProcessMemory K processHandle_ remoteMemory dllPath pathSize) then
        (false, st, t ++ [KVirtualFreeEx processHandle_ remoteMemory; KCloseHandle processHandle_])
      else
        (* Get LoadLibraryW address *)
        let kernel32 := GetModuleHandle K "kernel32.dll" in
        let loadLibraryAddr := GetProcAddress K kernel32 "LoadLibraryW" in
        if (loadLibraryAddr =? 0)%Z then
          (false, st, t ++ [KVirtualFreeEx processHandle_ remoteMemory; KCloseHandle processHandle_])
        else
          (* Create remote thread to load DLL *)
          let remoteThread := CreateRemoteThread K processHandle_ loadLibraryAddr remoteMemory in
          let t := t ++ [KCreateRemoteThread processHandle_ loadLibraryAddr remoteMemory] in
          if (remoteThread =? 0)%Z then
            (false, st, t ++ [KVirtualFreeEx processHandle_ remoteMemory; KCloseHandle processHandle_])
          else
            (* Wait for thread to complete, get DLL module handle *)
            let t := t ++ [KWaitForSingleObject remoteThread] in
            let exitCode := snd (GetExitCodeThread K remoteThread) in
            let dllModule_ := exitCode in
            (* Cleanup *)
            let t := t ++ [KCloseHandle remoteThread; KVirtualFreeEx processHandle_ remoteMemory] in
            if (dllModule_ =? 0)%Z then (false, st, t ++ [KCloseHandle processHandle_])
            else
              (* Store injection info *)
              let injectedProcess := mkInjected pid processHandle_ dllModule_ in
              (true, with_injectedProcesses (m_injectedProcesses st ++ [injectedProcess]) st, t).

(** [GameDataInterface::InjectDLL] *)
Definition InjectDLL (st : State) (pid : Z) : bool * State * list KCall :=
  (* Check if already injected *)
  if IsDLLInjected st pid then (true, st, [])
  else
    let dllPath := GetDLLPath in
    if String.eqb dllPath "" then (false, st, [])
    else InjectDLLIntoProcess st pid dllPath.

(** [GameDataInterface::EjectDLLFromProcess] *)
Definition EjectDLLFromProcess (st : State) (pid : Z) : bool * State * list KCall :=
  match list_find (fun process => processId process = pid) (m_injectedProcesses st) with
  | None => (false, st, [])
  | Some (it, process) =>
      (* Get FreeLibrary address *)
      let kernel32 := GetModuleHandle K "kernel32.dll" in
      let freeLibraryAddr := GetProcAddress K kernel32 "FreeLibrary" in
      let t :=
        if (freeLibraryAddr =? 0)%Z then []
        else
          let remoteThread :=
            CreateRemoteThread K (processHandle process) freeLibraryAddr (dllModule process) in
          KCreateRemoteThread (processHandle process) freeLibraryAddr (dllModule process)
          :: (if (remoteThread =? 0)%Z then []
              else [KWaitForSingleObject remoteThread; KCloseHandle remoteThread]) in
      (true,
       with_injectedProcesses (delete it (m_injectedProcesses st)) st,
       t ++ [KCloseHandle (processHandle process)])
  end.

(** [GameDataInterface::EjectDLL] *)
Definition EjectDLL (st : State) (pid : Z) : bool * State * list KCall :=
  EjectDLLFromProcess st pid.

End Kernel.

End GameDataInterface.

(* ===================================================================== *)
(** ** overlay/native/src/dll_injector.cpp *)
(* ===================================================================== *)

Module dll_injector.

Local Open Scope string_scope.
Local Open Scope list_scope.

Definition access_rights : Z :=
  Z.lor PROCESS_CREATE_THREAD (Z.lor PROCESS_QUERY_INFORMATION
    (Z.lor PROCESS_VM_OPERATION (Z.lor PROCESS_VM_WRITE PROCESS_VM_READ))).

Section Kernel.
Variable K : Oracle.

(** [DllInjector::InjectDll] (a static function: no object state). *)
Definition InjectDll (pid : Z) (dllPath : string) : bool * list KCall :=
  (* Open the target process *)
  let hProcess := OpenProcess K access_rights pid in
  let t := [KOpenProcess access_rights pid] in
  if (hProcess =? 0)%Z then (false, t)
  else
    (* Allocate memory in the target process for the DLL path *)
    let dllPathSize := (Z.of_nat (String.length dllPath) + 1)%Z in
    let pRemoteMemory := VirtualAllocEx K hProcess dllPathSize (Z.lor MEM_COMMIT MEM_RESERVE) in
    let t := t ++ [KVirtualAllocEx hProcess dllPathSize] in
    if (pRemoteMemory =? 0)%Z then (false, t ++ [KCloseHandle hProcess])
    else
      (* Write the DLL path to the allocated memory *)
      let t := t ++ [KWriteProcessMemory hProcess pRemoteMemory dllPath dllPathSize] in
      if negb (WriteProcessMemory K hProcess pRemoteMemory dllPath dllPathSize) then
        (false, t ++ [KVirtualFreeEx hProcess pRemoteMemory; KCloseHandle hProcess])
      else
        (* Get the address of LoadLibraryA *)
        let hKernel32 := GetModuleHandle K "kernel32.dll" in
        if (hKernel32 =? 0)%Z then
          (false, t ++ [KVirtualFreeEx hProcess pRemoteMemory; KCloseHandle hProcess])
        else
          let pLoadLibraryA := GetProcAddress K hKernel32 "LoadLibraryA" in
          if (pLoadLibraryA =? 0)%Z then
            (false, t ++ [KVirtualFreeEx hProcess pRemoteMemory; KCloseHandle hProcess])
          else
            (* Create a remote thread to load the DLL *)
            let hThread := CreateRemoteThread K hProcess pLoadLibraryA pRemoteMemory in
            let t := t ++ [KCreateRemoteThread hProcess pLoadLibraryA pRemoteMemory] in
            if (hThread =? 0)%Z then
              (false, t ++ [KVirtualFreeEx hProcess pRemoteMemory; KCloseHandle hProcess])
            else
              (* Wait for the thread to complete, clean up *)
              (true, t ++ [KWaitForSingleObject hThread; KCloseHandle hThread;
                           KVirtualFreeEx hProcess pRemoteMemory; KCloseHandle hProcess]).

End Kernel.

End dll_injector.

(* ===================================================================== *)
(** ** overlay/native/src/overlay_native.cpp *)
(* ===================================================================== *)

Module overlay_native.

Local Open Scope string_scope.
Local Open Scope list_scope.

Section Kernel.
Variable K : Oracle.

(** [DllInjector::InjectDLL]; the object's only member is
    [m_injectedPid].  The result is the returned [bool], the member
    afterwards and the kernel calls issued. *)
Definition InjectDLL (m_injectedPid : Z) (pid : Z) (dllPath : string)
  : bool * Z * list KCall :=
  let hProcess := OpenProcess K PROCESS_ALL_ACCESS pid in
  let t := [KOpenProcess PROCESS_ALL_ACCESS pid] in
  if (hProcess =? 0)%Z then (false, m_injectedPid, t)
  else
    (* Allocate memory in target process for DLL path *)
    let pathSize := (Z.of_nat (String.length dllPath) + 1)%Z in
    let pRemotePath := VirtualAllocEx K hProcess pathSize MEM_COMMIT in
    let t := t ++ [KVirtualAllocEx hProcess pathSize] in
    if (pRemotePath =? 0)%Z then (false, m_injectedPid, t ++ [KCloseHandle hProcess])
    else
      let t := t ++ [KWriteProcessMemory hProcess pRemotePath dllPath pathSize] in
      let '(success, pid', t) :=
        if WriteProcessMemory K hProcess pRemotePath dllPath pathSize then
          (* Get LoadLibraryA address *)
          let hKernel32 := GetModuleHandle K "kernel32.dll" in
          let pLoadLibrary := GetProcAddress K hKernel32 "LoadLibraryA" in
          if (pLoadLibrary =? 0)%Z then (false, m_injectedPid, t)
          else
            (* Create remote thread to load DLL *)
            let hThread := CreateRemoteThread K hProcess pLoadLibrary pRemotePath in
            let t := t ++ [KCreateRemoteThread hProcess pLoadLibrary pRemotePath] in
            if (hThread =? 0)%Z then (false, m_injectedPid, t)
            else
              (* Wait for injection to complete *)
              let t := t ++ [KWaitForSingleObject hThread] in
              let '(ok, exitCode) := GetExitCodeThread K hThread in
              if ok && negb (exitCode =? 0)%Z
              then (true, pid, t ++ [KCloseHandle hThread])
              else (false, m_injectedPid, t ++ [KCloseHandle hThread])
        else (false, m_injectedPid, t) in
      (success, pid', t ++ [KVirtualFreeEx hProcess pRemotePath; KCloseHandle hProcess]).

(** [class Communication]: the object's only member is [m_pipe]. *)
Definition Communication := HANDLE.

(** [Communication::Communication] *)
Definition Communication_new : Communication := INVALID_HANDLE_VALUE.

(** [Communication::SendMessage].  [message.length()] reaches
    [WriteFile] through its [DWORD] parameter; the comparison with
    [bytesWritten] is made on the untruncated length.  The result is
    the returned [bool] and the kernel calls issued; the object is
    not changed. *)
Definition SendMessage (m_pipe : Communication) (message : string) : bool * list KCall :=
  if (m_pipe =? INVALID_HANDLE_VALUE)%Z then (false, [])
  else
    let length_ := Z.of_nat (String.length message) in
    let '(ok, bytesWritten) := WriteFile K m_pipe message (to_DWORD length_) in
    (ok && (bytesWritten =? length_)%Z, [KWriteFile m_pipe message (to_DWORD length_)]).

End Kernel.

End overlay_native.

(* ===================================================================== *)
(** ** overlay/native/src/communication.cpp *)
(* ===================================================================== *)

Module communication.

Local Open Scope list_scope.

Section Kernel.
Variable K : Oracle.

(** [class NamedPipeClient]: [pipeHandle] is the member the send path
    reads ([pipeName] is only used by [Connect]). *)
Definition NamedPipeClient := HANDLE.

(** [NamedPipeClient::Disconnect] *)
Definition Disconnect (pipeHandle : NamedPipeClient) : NamedPipeClient * list KCall :=
  if negb (pipeHandle =? INVALID_HANDLE_VALUE)%Z
  then (INVALID_HANDLE_VALUE, [KCloseHandle pipeHandle])
  else (pipeHandle, []).

(** [NamedPipeClient::SendMessage]: the result is the returned [bool]
    and the kernel calls issued; the object is not changed. *)
Definition SendMessage (pipeHandle : NamedPipeClient) (message : string) : bool * list KCall :=
  if (pipeHandle =? INVALID_HANDLE_VALUE)%Z then (false, [])
  else
    let nBytes := to_DWORD (Z.of_nat (String.length message)) in
    let '(ok, bytesWritten) := WriteFile K pipeHandle message nBytes in
    (ok, [KWriteFile pipeHandle message nBytes]).

End Kernel.

End communication.

(* ===================================================================== *)
(** ** overlay/injection/overlay_simple.cpp / overlay_simple.h *)
(* ===================================================================== *)

Module overlay_simple.
Import Binary32.

Inductive MessagePosition :=
| AUTO | TOP_LEFT | TOP_CENTER | TOP_RIGHT | MIDDLE_LEFT | MIDDLE_CENTER
| MIDDLE_RIGHT | BOTTOM_LEFT | BOTTOM_CENTER | BOTTOM_RIGHT.

Inductive MessageCategory :=
| GENERAL | TECHNICAL | POSITIONING | COMBO | DEFENSIVE | OFFENSIVE | NEUTRAL.

Inductive MessagePriority := LOW | NORMAL | HIGH | CRITICAL.

(** [struct OverlayMessage]; [duration] is an [int]. *)
Record OverlayMessage := mkOverlayMessage {
  text     : string;
  duration : Z;
  position : MessagePosition;
  category : MessageCategory;
  priority : MessagePriority
}.

(** [struct ActiveMessage]; [startTime] and [duration] are [DWORD]s,
    [alpha] is a [float]. *)
Record ActiveMessage := mkActiveMessage {
  a_text      : string;
  a_startTime : Z;
  a_duration  : Z;
  a_position  : MessagePosition;
  a_category  : MessageCategory;
  a_priority  : MessagePriority;
  a_alpha     : float
}.

(** The body of the drain loop of [RenderThread]: one queued message
    becomes an active one; [tick] is what [GetTickCount] returns. *)
Definition activate (overlayMsg : OverlayMessage) (tick : Z) : ActiveMessage :=
  mkActiveMessage (text overlayMsg) (to_DWORD tick) (to_DWORD (duration overlayMsg))
                  (position overlayMsg) (category overlayMsg) (priority overlayMsg) one.

(** [while (!g_messageQueue.empty())] in [RenderThread]: the queue is
    emptied front first into [g_activeMessages].  [ticks n] is what the
    [n]-th call of [GetTickCount] in the loop returns. *)
Fixpoint drain (g_messageQueue : list OverlayMessage) (ticks : nat -> Z)
    (g_activeMessages : list ActiveMessage) : list ActiveMessage :=
  match g_messageQueue with
  | [] => g_activeMessages
  | overlayMsg :: rest =>
      drain rest (fun n => ticks (S n)) (g_activeMessages ++ [activate overlayMsg (ticks O)])
  end.

(** [currentTime - it->startTime], in [DWORD] arithmetic. *)
Definition elapsed (currentTime : Z) (it : ActiveMessage) : Z :=
  to_DWORD (currentTime - a_startTime it).

(** The test that erases a message in [WM_PAINT]. *)
Definition expired (currentTime : Z) (it : ActiveMessage) : bool :=
  a_duration it <? elapsed currentTime it.

(** The [max] and [min] macros of [windows.h]. *)
Definition max (a b : float) : float := if gt a b then a else b.
Definition min (a b : float) : float := if lt a b then a else b.

(** "Calculate fade effect" in [WM_PAINT]: both [DWORD]s are converted
    to [float] for the division. *)
Definition fade (currentTime : Z) (it : ActiveMessage) : float :=
  let timeProgress := div (of_Z (elapsed currentTime it)) (of_Z (a_duration it)) in
  let alpha := one in
  let alpha := if gt timeProgress (literal 8 10)
               then sub one (div (sub timeProgress (literal 8 10)) (literal 2 10))
               else alpha in
  max zero (min one alpha).

(** [(BYTE)(c * alpha)], the alpha channel of a colour drawn with
    opacity [c]. *)
Definition channel (c : Z) (alpha : float) : Z := to_BYTE (mul (of_Z c) alpha).

(** One bubble drawn by [WM_PAINT]: the message and the alpha its
    colours are scaled by. *)
Record Bubble := mkBubble { b_message : ActiveMessage; b_alpha : float }.

(** The message loop of [WM_PAINT] in [OverlayWndProc]: expired
    messages are erased, the others are drawn in order.  The result is
    [g_activeMessages] afterwards and the bubbles drawn. *)
Fixpoint paint (currentTime : Z) (g_activeMessages : list ActiveMessage)
  : list ActiveMessage * list Bubble :=
  match g_activeMessages with
  | [] => ([], [])
  | it :: rest =>
      if expired currentTime it then paint currentTime rest
      else
        let '(kept, drawn) := paint currentTime rest in
        (it :: kept, mkBubble it (fade currentTime it) :: drawn)
  end.

End overlay_simple.

(* ===================================================================== *)
(** ** C and C++ runtime operations used by the code below *)
(* ===================================================================== *)

Module CRuntime.

Local Open Scope string_scope.

Definition NUL : ascii := "000"%char.
Definition LF : ascii := "010"%char.

(** A [char] array read as a C string: the characters before the first
    NUL.  It is what constructing a [std::string] from a [char] pointer,
    or appending one to a [std::string], reads. *)
Fixpoint c_str (buffer : string) : string :=
  match buffer with
  | EmptyString => EmptyString
  | String c rest => if Ascii.eqb c NUL then EmptyString else String c (c_str rest)
  end.

(** [tolower] and [towlower] in the "C" locale. *)
Definition tolower (c : ascii) : ascii :=
  let n := nat_of_ascii c in
  if ((65 <=? n) && (n <=? 90))%nat then ascii_of_nat (n + 32) else c.

(** [std::transform(s.begin(), s.end(), s.begin(), ::tolower)] *)
Fixpoint lowercase (s : string) : string :=
  match s with
  | EmptyString => EmptyString
  | String c rest => String (tolower c) (lowercase rest)
  end.

(** [hay.find(needle) != npos] *)
Definition contains (hay needle : string) : bool :=
  match find needle hay with Some _ => true | None => false end.

(** [s.erase(0, n)] *)
Fixpoint erase_front (n : nat) (s : string) : string :=
  match n, s with
  | O, _ => s
  | S n, String _ rest => erase_front n rest
  | S _, EmptyString => EmptyString
  end.

(** [std::max] and [std::min] on [int]. *)
Definition std_max (a b : Z) : Z := if (a <? b)%Z then b else a.
Definition std_min (a b : Z) : Z := if (b <? a)%Z then b else a.

End CRuntime.

(* ===================================================================== *)
(** ** WindowManager.cpp: finding the game window *)
(* ===================================================================== *)

Module WindowFinder.
Import CRuntime.

Local Open Scope string_scope.
Local Open Scope list_scope.
Local Open Scope Z_scope.

(** [struct WindowInfo] *)
Record WindowInfo := mkWindowInfo {
  hwnd      : HWND;
  title     : string;
  className : string;
  processId : Z
}.

(** What the shell answers about the top-level windows, beyond the
    attributes a [Desktop] keeps: the windows [EnumWindows] visits, in
    its order, and per handle the answers of [IsWindowVisible],
    [IsIconic], [GetWindowText], [GetClassName] and
    [GetWindowThreadProcessId]. *)
Record Shell := mkShell {
  EnumWindows              : list HWND;
  IsWindowVisible          : HWND -> bool;
  IsIconic                 : HWND -> bool;
  GetWindowText            : HWND -> string;
  GetClassName             : HWND -> string;
  GetWindowThreadProcessId : HWND -> Z
}.

Section Platform.
Variable rejects : Call -> bool.
Variable shell : Shell.

(** [WindowManager::EnumWindowsProc]: what one callback does to the
    vector behind [lParam].  The title and the class name are read into
    arrays of 256 characters, so at most 255 characters of each arrive. *)
Definition EnumWindowsProc (hwnd_ : HWND) (windows_ : list WindowInfo) : list WindowInfo :=
  if IsWindowVisible shell hwnd_ then
    let info := mkWindowInfo hwnd_
                  (substr (GetWindowText shell hwnd_) 0 255)
                  (substr (GetClassName shell hwnd_) 0 255)
                  (GetWindowThreadProcessId shell hwnd_) in
    if negb (String.eqb (title info) "") then windows_ ++ [info] else windows_
  else windows_.

(** [WindowManager::EnumerateWindows]: the callback always returns
    [TRUE], so every top-level window is visited. *)
Definition EnumerateWindows : list WindowInfo :=
  fold_left (fun windows_ hwnd_ => EnumWindowsProc hwnd_ windows_) (EnumWindows shell) [].

(** [WindowManager::IsSlippiWindow] *)
Definition IsSlippiWindow (windowInfo : WindowInfo) : bool :=
  let title_ := lowercase (title windowInfo) in
  let className_ := lowercase (className windowInfo) in
  (* Exclude Slippi launcher specifically *)
  if contains title_ "slippi launcher" || contains title_ "project slippi"
     || contains className_ "electron" || contains className_ "chrome"
  then false
  else
    (* Only accept actual Dolphin game windows with Slippi *)
    (contains title_ "dolphin"
     && (contains title_ "fps" || contains title_ "melee" || contains title_ "ssbm"))
    || String.eqb className_ "dolphinclass".

(** [WindowManager::IsDolphinWindow].  Inside the class the name
    [IsWindowVisible] is the member that forwards to the shell's
    function of that name. *)
Definition IsDolphinWindow (os : Desktop) (windowInfo : WindowInfo) : bool :=
  let title_ := lowercase (title windowInfo) in
  let className_ := lowercase (className windowInfo) in
  (* STRICT exclusion of launcher windows and other non-game windows *)
  if contains title_ "slippi launcher" || contains title_ "project slippi"
     || contains title_ "launcher"
     || contains className_ "electron" || contains className_ "chrome"
     || contains className_ "cefclient" || contains className_ "applicationframehost"
     || contains className_ "dwm"
     || contains title_ "desktop" || contains title_ "taskbar"
  then false
  else
    (* Slippi-specific patterns *)
    let isSlippiDolphin :=
      (contains title_ "faster melee" && contains title_ "slippi")
      || (contains title_ "slippi" && contains title_ "melee")
      || (contains title_ "slippi" && contains title_ "ssbm")
      || String.eqb className_ "wxwindownr"
      || String.eqb className_ "wxwindowclassnr" in
    (* Traditional Dolphin patterns *)
    let isDolphinExecutable :=
      String.eqb className_ "dolphinclass"
      || String.eqb className_ "dolphin-emu"
      || String.eqb className_ "dolphinwx"
      || (contains title_ "dolphin"
          && (contains title_ "fps" || contains title_ "melee"
              || contains title_ "ssbm" || contains title_ "gamecube")) in
    let isValidDolphin := isSlippiDolphin || isDolphinExecutable in
    match GetWindowRect (hwnd windowInfo) os with
    | None => false   (* Can't get window rect *)
    | Some windowRect =>
        let width := to_LONG (rc_right windowRect - rc_left windowRect) in
        let height := to_LONG (rc_bottom windowRect - rc_top windowRect) in
        let isGameSize :=
          (320 <=? width) && (240 <=? height) && (width <=? 1920) && (height <=? 1080) in
        let isActuallyVisible :=
          IsWindowVisible shell (hwnd windowInfo)
          && negb (IsIconic shell (hwnd windowInfo))
          && has_flag (GetWindowLong (hwnd windowInfo) GWL_STYLE os) WS_VISIBLE in
        let hasClientArea :=
          match GetClientRect rejects (hwnd windowInfo) os with
          | Some clientRect => (0 <? rc_right clientRect) && (0 <? rc_bottom clientRect)
          | None => false
          end in
        isValidDolphin && isGameSize && isActuallyVisible && hasClientArea
    end.

(** [WindowManager::IsValidGameWindow].  The results of [GetWindowRect]
    and [GetClientRect] are not checked; when a call fails the local
    [RECT] keeps whatever the stack held, which is the parameter
    [indeterminate]. *)
Definition IsValidGameWindow (os : Desktop) (indeterminate : RECT) (hwnd_ : HWND) : bool :=
  if negb (IsWindow hwnd_ os) || negb (IsWindowVisible shell hwnd_) then false
  else
    let rect := match GetWindowRect hwnd_ os with
                | Some r => r
                | None => indeterminate
                end in
    let width := to_LONG (rc_right rect - rc_left rect) in
    let height := to_LONG (rc_bottom rect - rc_top rect) in
    (* Minimum size check (should be at least 400x300) *)
    if (width <? 400) || (height <? 300) then false
    else
      let clientRect := match GetClientRect rejects hwnd_ os with
                        | Some r => r
                        | None => indeterminate
                        end in
      (0 <? rc_right clientRect) && (0 <? rc_bottom clientRect).

(** [WindowManager::FindGameWindow]: the first enumerated window that is
    a Slippi or Dolphin window and a valid game window; [nullptr] when
    there is none. *)
Definition FindGameWindow (os : Desktop) (indeterminate : RECT) : HWND :=
  match List.find (fun window =>
                     (IsSlippiWindow window || IsDolphinWindow os window)
                     && IsValidGameWindow os indeterminate (hwnd window))
                  EnumerateWindows with
  | Some window => hwnd window
  | None => NULL
  end.

End Platform.

End WindowFinder.

(* ===================================================================== *)
(** ** Process and module snapshots (tlhelp32.h) *)
(* ===================================================================== *)

Module Toolhelp.

(** The fields the code reads.  [szExeFile] and [szModule] are the names
    as the NUL-terminated arrays hold them. *)
Record PROCESSENTRY32 := mkProcessEntry { th32ProcessID : Z; szExeFile : string }.
Record MODULEENTRY32 := mkModuleEntry { szModule : string; hModule : Z }.

(** A snapshot is the list of entries the [First]/[Next] walk yields, in
    order; [None] is [CreateToolhelp32Snapshot] returning
    [INVALID_HANDLE_VALUE]. *)
Definition ProcessSnapshot := option (list PROCESSENTRY32).
Definition ModuleSnapshot := option (list MODULEENTRY32).

End Toolhelp.
Import Toolhelp.

(* ===================================================================== *)
(** ** GameDataInterface.cpp: the event history, the pipe reader and the
       process search *)
(* ===================================================================== *)

Module GameDataReader.
Import CRuntime GameDataInterface.

Local Open Scope string_scope.
Local Open Scope list_scope.

Section SizeT.

(** The width of [size_t]: 64 in an x64 build, 32 in an x86 one. *)
Variable size_t_bits : Z.

Definition to_size_t (z : Z) : Z := (z mod 2 ^ size_t_bits)%Z.

(** [GameDataInterface::GetRecentEvents].  In [size() <= maxEvents] the
    [int] is converted to [size_t]; [end() - maxEvents] is the iterator
    [size() - maxEvents] places after [begin()]. *)
Definition GetRecentEvents (st : State) (maxEvents : Z) : list GameEvent :=
  let size := Z.of_nat (length (m_recentEvents st)) in
  if (size <=? to_size_t maxEvents)%Z then m_recentEvents st
  else drop (Z.to_nat (size - maxEvents)) (m_recentEvents st).

End SizeT.

(** The reader thread's view: the interface object, the local
    [messageBuffer], and how many messages it has handed to
    [ProcessIncomingData] so far. *)
Record Reader := mkReader {
  interface     : State;
  messageBuffer : string;
  delivered     : nat
}.

Section Clock.

(** [GetTickCount n] is the clock reading while the [n]-th message is
    processed. *)
Variable GetTickCount : nat -> Z.

(** "Process complete messages (separated by newlines)": the inner
    [while] loop of [PipeReaderThreadProc].  Every iteration erases at
    least one character, so [fuel] above the buffer's length is never
    used up. *)
Fixpoint process_messages (fuel : nat) (r : Reader) : Outcome Reader :=
  match fuel with
  | O => Returns r
  | S fuel =>
      match find (String LF EmptyString) (messageBuffer r) with
      | None => Returns r
      | Some pos =>
          let message := substr (messageBuffer r) 0 pos in
          let rest := erase_front (pos + 1) (messageBuffer r) in
          if negb (String.eqb message "") then
            match ProcessIncomingData (interface r) message (GetTickCount (delivered r)) with
            | Returns st => process_messages fuel (mkReader st rest (S (delivered r)))
            | Throws e => Throws e
            end
          else process_messages fuel (mkReader (interface r) rest (delivered r))
      end
  end.

(** One successful [ReadFile] in [PipeReaderThreadProc]; [bytes] is
    what was read ([bytesRead] is its length).  [buffer[bytesRead]] is
    set to NUL and [buffer] is appended as a C string. *)
Definition on_read (r : Reader) (bytes : string) : Outcome Reader :=
  if (0 <? String.length bytes)%nat then
    let messageBuffer_ := (messageBuffer r ++ c_str bytes)%string in
    process_messages (S (String.length messageBuffer_))
                     (mkReader (interface r) messageBuffer_ (delivered r))
  else Returns r.

End Clock.

(** [GameDataInterface::FindGameProcesses] *)
Definition FindGameProcesses (snapshot : ProcessSnapshot) : list Z :=
  match snapshot with
  | None => []
  | Some entries =>
      th32ProcessID <$>
        List.filter (fun processEntry =>
                       let processName := lowercase (szExeFile processEntry) in
                       contains processName "dolphin" || contains processName "slippi")
                    entries
  end.

(** [GameDataInterface::FindGameProcessId] *)
Definition FindGameProcessId (snapshot : ProcessSnapshot) : Z :=
  match FindGameProcesses snapshot with
  | [] => 0%Z
  | processId_ :: _ => processId_
  end.

End GameDataReader.

(* ===================================================================== *)
(** ** overlay/native/src/process_manager.cpp *)
(* ===================================================================== *)

Module process_manager.
Import CRuntime.

Local Open Scope list_scope.

(** The [do ... while] walk of [ProcessManager::FindProcessByName]:
    [processId] stays [0] until an entry matches, then the walk stops. *)
Fixpoint FindProcessByName_walk (entries : list PROCESSENTRY32) (processName : string) : Z :=
  match entries with
  | [] => 0%Z
  | processEntry :: rest =>
      let currentProcess := lowercase (szExeFile processEntry) in
      let targetProcess := lowercase processName in
      if String.eqb currentProcess targetProcess then th32ProcessID processEntry
      else FindProcessByName_walk rest processName
  end.

(** [ProcessManager::FindProcessByName] *)
Definition FindProcessByName (snapshot : ProcessSnapshot) (processName : string) : Z :=
  match snapshot with
  | None => 0%Z
  | Some entries => FindProcessByName_walk entries processName
  end.

(** The walk of [ProcessManager::GetAllProcessIds]. *)
Fixpoint GetAllProcessIds_walk (entries : list PROCESSENTRY32) (processName : string)
  : list Z :=
  match entries with
  | [] => []
  | processEntry :: rest =>
      let currentProcess := lowercase (szExeFile processEntry) in
      let targetProcess := lowercase processName in
      if String.eqb currentProcess targetProcess
      then th32ProcessID processEntry :: GetAllProcessIds_walk rest processName
      else GetAllProcessIds_walk rest processName
  end.

(** [ProcessManager::GetAllProcessIds] *)
Definition GetAllProcessIds (snapshot : ProcessSnapshot) (processName : string) : list Z :=
  match snapshot with
  | None => []
  | Some entries => GetAllProcessIds_walk entries processName
  end.

End process_manager.

(* ===================================================================== *)
(** ** overlay/native/src/dll_injector.cpp: unloading *)
(* ===================================================================== *)

Module DllInjector.
Import CRuntime.

Local Open Scope string_scope.
Local Open Scope list_scope.


Section Kernel.
Variable K : Oracle.

(** The module snapshot of a process. *)
Variable Module32 : Z -> ModuleSnapshot.



End Kernel.

End DllInjector.

(* ===================================================================== *)
(** ** overlay/injection/overlay_simple.cpp: the receiving and the
       tracking thread *)
(* ===================================================================== *)

Module overlay_threads.
Import CRuntime overlay_simple.

Local Open Scope string_scope.
Local Open Scope list_scope.
Local Open Scope Z_scope.

(** One successful [ReadFile] in [CommunicationThread]: [buffer] is
    terminated after the bytes read and queued, as a C string, with the
    fixed presentation. *)
Definition on_message (bytes : string) (g_messageQueue : list OverlayMessage)
  : list OverlayMessage :=
  let msg := mkOverlayMessage (c_str bytes) 5000 TOP_RIGHT GENERAL NORMAL in
  g_messageQueue ++ [msg].

(** The globals [WindowTrackingThread] uses. *)
Record Globals := mkGlobals {
  g_overlayWindow : HWND;
  g_targetWindow  : HWND;
  g_showBorder    : bool
}.

Section Platform.
Variable rejects : Call -> bool.

(** [FindWindowA(className, windowName)]; [None] is a [NULL] argument. *)
Variable FindWindowA : option string -> option string -> HWND.

(** One pass of the loop of [WindowTrackingThread]. *)
Definition WindowTrackingThread_pass (g : Globals) (os : Desktop) : Globals * Desktop :=
  if negb (g_overlayWindow g =? NULL) && negb (g_targetWindow g =? NULL) then
    (* Check if target window still exists *)
    if IsWindow (g_targetWindow g) os then
      match GetWindowRect (g_targetWindow g) os with
      | Some targetRect =>
          (* Update overlay position and size to match target *)
          let '(_, os) := SetWindowPos rejects (g_overlayWindow g) HWND_TOPMOST
                            (rc_left targetRect) (rc_top targetRect)
                            (to_LONG (rc_right targetRect - rc_left targetRect))
                            (to_LONG (rc_bottom targetRect - rc_top targetRect))
                            (Z.lor SWP_NOACTIVATE SWP_SHOWWINDOW) os in
          (* Trigger repaint to draw border if needed *)
          if g_showBorder g
          then (g, snd (InvalidateRect rejects (g_overlayWindow g) true os))
          else (g, os)
      | None => (g, os)
      end
    else
      (* Target window closed, try to find it again *)
      let target := FindWindowA None (Some "Dolphin") in
      let target := if target =? NULL then FindWindowA None (Some "Slippi Dolphin")
                    else target in
      let target := if target =? NULL then FindWindowA (Some "DolphinClass") None
                    else target in
      (mkGlobals (g_overlayWindow g) target (g_showBorder g), os)
  else (g, os).

End Platform.

End overlay_threads.

(* ===================================================================== *)
(** ** CoachingInterface.cpp: the commentary and tip lists *)
(* ===================================================================== *)

Module CoachingInterface.

Local Open Scope string_scope.
Local Open Scope list_scope.
Local Open Scope Z_scope.

Definition MAX_COMMENTARY_ITEMS : Z := 20.
Definition MAX_TIP_ITEMS : Z := 5.

(** The [RGB] macro of [wingdi.h]. *)
Definition RGB (r g b : Z) : Z := Z.lor r (Z.lor (Z.shiftl g 8) (Z.shiftl b 16)).

(** [struct CommentaryItem] *)
Record CommentaryItem := mkCommentaryItem {
  text        : string;
  timestamp   : Z;
  isImportant : bool;
  eventType   : string;
  eventColor  : Z;
  priority    : Z
}.

(** [struct TipItem] *)
Record TipItem := mkTipItem {
  tip_title   : string;
  description : string;
  category    : string;
  isActive    : bool;
  showTime    : Z;
  importance  : Z;
  hasBeenSeen : bool
}.

(** [CoachingInterface::AddCommentary]; [tick] is what [GetTickCount]
    returns.  The result is [m_commentary] afterwards. *)
Definition AddCommentary (m_commentary : list CommentaryItem)
    (text_ : string) (isImportant_ : bool) (tick : Z) : list CommentaryItem :=
  let item := mkCommentaryItem text_ tick isImportant_ "" (RGB 255 255 255) 0 in
  let m_commentary := m_commentary ++ [item] in
  (* Keep only recent items *)
  if MAX_COMMENTARY_ITEMS <? Z.of_nat (length m_commentary)
  then drop 1 m_commentary else m_commentary.

(** "Set event color based on type" *)
Definition event_color (eventType_ : string) : Z :=
  if String.eqb eventType_ "combo" then RGB 255 165 0
  else if String.eqb eventType_ "kill" then RGB 255 100 100
  else if String.eqb eventType_ "tech" then RGB 0 150 255
  else if String.eqb eventType_ "edgeguard" then RGB 100 255 100
  else RGB 255 255 255.

(** [CoachingInterface::AddCommentaryWithType] *)
Definition AddCommentaryWithType (m_commentary : list CommentaryItem)
    (text_ eventType_ : string) (isImportant_ : bool) (tick : Z) : list CommentaryItem :=
  let item := mkCommentaryItem text_ tick isImportant_ eventType_ (event_color eventType_) 0 in
  let m_commentary := m_commentary ++ [item] in
  (* Keep only recent items *)
  if MAX_COMMENTARY_ITEMS <? Z.of_nat (length m_commentary)
  then drop 1 m_commentary else m_commentary.

(** [CoachingInterface::AddTip] *)
Definition AddTip (m_tips : list TipItem) (title_ description_ : string) (tick : Z)
  : list TipItem :=
  let tip := mkTipItem title_ description_ "" true tick 1 false in
  let m_tips := m_tips ++ [tip] in
  (* Keep only recent tips *)
  if MAX_TIP_ITEMS <? Z.of_nat (length m_tips) then drop 1 m_tips else m_tips.

(** The predicate of [CleanupOldItems]: older than 30 seconds, in
    [DWORD] arithmetic. *)
Definition too_old (currentTime : Z) (tip : TipItem) : bool :=
  30000 <? to_DWORD (currentTime - showTime tip).

(** [CoachingInterface::CleanupOldItems]: [erase(remove_if(...))]. *)
Fixpoint CleanupOldItems (currentTime : Z) (m_tips : list TipItem) : list TipItem :=
  match m_tips with
  | [] => []
  | tip :: rest =>
      if too_old currentTime tip then CleanupOldItems currentTime rest
      else tip :: CleanupOldItems currentTime rest
  end.

End CoachingInterface.

(* ===================================================================== *)
(** ** main.cpp: the layout *)
(* ===================================================================== *)

Module main_cpp.
Import CRuntime.

Local Open Scope Z_scope.

(** The part of [struct AppState] the layout reads. *)
Record AppState := mkAppState {
  mainWindow     : HWND;
  gameWindow     : HWND;
  isGameEmbedded : bool
}.

(** The [gameArea] that [UpdateLayout] computes from the client
    rectangle of the main window, in the arithmetic of [int] and
    [LONG]. *)
Definition UpdateLayout_gameArea (clientRect : RECT) : RECT :=
  (let clientWidth := rc_right clientRect -% rc_left clientRect in
   let clientHeight := rc_bottom clientRect -% rc_top clientRect in
   (* Define panel sizes as percentages of total window size *)
   let panelMargin := 15 in
   let leftPanelWidth := std_max 220 (clientWidth /% 6) in
   let rightPanelWidth := std_max 280 (clientWidth /% 5) in
   (* Ensure panels don't take up too much space *)
   let leftPanelWidth := std_min leftPanelWidth 320 in
   let rightPanelWidth := std_min rightPanelWidth 350 in
   (* Calculate available space for the game window *)
   let availableGameWidth :=
     clientWidth -% leftPanelWidth -% rightPanelWidth -% panelMargin *% 4 in
   let availableGameHeight := clientHeight -% panelMargin *% 2 in
   (* Maintain 4:3 aspect ratio *)
   let optimalGameWidth := availableGameWidth in
   let optimalGameHeight := optimalGameWidth *% 3 /% 4 in
   (* If height is too big, scale down maintaining aspect ratio *)
   let '(optimalGameWidth, optimalGameHeight) :=
     if availableGameHeight <? optimalGameHeight
     then (availableGameHeight *% 4 /% 3, availableGameHeight)
     else (optimalGameWidth, optimalGameHeight) in
   (* Ensure minimum game window size *)
   let optimalGameWidth := std_max 640 optimalGameWidth in
   let optimalGameHeight := std_max 480 optimalGameHeight in
   (* Center the game window in the available space *)
   let gameX :=
     leftPanelWidth +% panelMargin *% 2 +% (availableGameWidth -% optimalGameWidth) /% 2 in
   let gameY := panelMargin +% (availableGameHeight -% optimalGameHeight) /% 2 in
   mkRECT gameX gameY (gameX +% optimalGameWidth) (gameY +% optimalGameHeight)).

Section Platform.
Variable rejects : Call -> bool.

(** [UpdateLayout].  [containerWindow] is what
    [coachingUI->GetGameWindowContainer()] returns; the results of the
    two [GetClientRect] calls are not checked, and a [RECT] whose call
    failed holds [indeterminate].  The result is the pair of rectangles
    handed to [CoachingInterface::UpdateLayout] and the desktop
    afterwards. *)
Definition UpdateLayout (g_appState : AppState) (containerWindow : HWND)
    (indeterminate : RECT) (os : Desktop) : (RECT * RECT) * Desktop :=
  let clientRect := match GetClientRect rejects (mainWindow g_appState) os with
                    | Some r => r
                    | None => indeterminate
                    end in
  let gameArea := UpdateLayout_gameArea clientRect in
  (* If we have an embedded game window, resize it to match the container *)
  let os :=
    if isGameEmbedded g_appState && negb (gameWindow g_appState =? NULL) then
      if negb (containerWindow =? NULL) then
        let containerRect := match GetClientRect rejects containerWindow os with
                             | Some r => r
                             | None => indeterminate
                             end in
        let containerWidth := to_LONG (rc_right containerRect - rc_left containerRect) in
        let containerHeight := to_LONG (rc_bottom containerRect - rc_top containerRect) in
        (* Only resize if we have valid dimensions *)
        if (0 <? containerWidth) && (0 <? containerHeight) then
          snd (SetWindowPos rejects (gameWindow g_appState) HWND_BOTTOM
                 0 0 containerWidth containerHeight SWP_NOACTIVATE os)
        else os
      else os
    else os in
  ((clientRect, gameArea), os).

End Platform.

End main_cpp.

(* ===================================================================== *)
(** ** GameDataInterface.cpp: starting and stopping the monitoring *)
(* ===================================================================== *)

Module Monitoring.
Import GameDataInterface GameDataReader.

Local Open Scope list_scope.
Local Open Scope Z_scope.

(** The answers of the pipe services to [CreateNamedPipeConnection]:
    whether [WaitNamedPipe] saw the pipe within its 5000 ms, and the
    handle [CreateFile] returns. *)
Record PipeOracle := mkPipeOracle {
  WaitNamedPipe : bool;
  CreateFile    : HANDLE
}.

(** [struct PipeConnection]; a thread is kept as "joinable". *)
Record PipeConnection := mkPipeConnection {
  pipe         : HANDLE;
  readerThread : bool;
  shouldStop   : bool
}.

(** The object with the members the monitoring methods use: the ones of
    [State], the two flags, the [unique_ptr] to the connection ([None]
    when null) and the monitoring thread (joinable or not). *)
Record Monitor := mkMonitor {
  object                 : State;
  m_isMonitoring         : bool;
  m_shouldStopMonitoring : bool;
  m_pipeConnection       : option PipeConnection;
  m_monitoringThread     : bool
}.

(** [GameDataInterface::GameDataInterface] *)
Definition constructor : Monitor :=
  mkMonitor GameDataInterface.constructor false false None false.

Definition with_object (st : State) (mon : Monitor) : Monitor :=
  mkMonitor st (m_isMonitoring mon) (m_shouldStopMonitoring mon)
            (m_pipeConnection mon) (m_monitoringThread mon).

Section Kernel.
Variable K : Oracle.
Variable P : PipeOracle.

(** [GameDataInterface::CreateNamedPipeConnection]; the reader thread
    is started on success. *)
Definition CreateNamedPipeConnection (mon : Monitor) : bool * Monitor :=
  (* Wait for pipe to become available *)
  if negb (WaitNamedPipe P) then (false, mon)
  else
    (* Connect to pipe *)
    let pipe_ := CreateFile P in
    if pipe_ =? INVALID_HANDLE_VALUE then (false, mon)
    else
      (true,
       mkMonitor (object mon) (m_isMonitoring mon) (m_shouldStopMonitoring mon)
                 (Some (mkPipeConnection pipe_ true false)) (m_monitoringThread mon)).

(** [GameDataInterface::CloseNamedPipeConnection]: the result is the
    object afterwards and the kernel calls issued. *)
Definition CloseNamedPipeConnection (mon : Monitor) : Monitor * list KCall :=
  match m_pipeConnection mon with
  | None => (mon, [])
  | Some connection =>
      let t := if negb (pipe connection =? INVALID_HANDLE_VALUE)
               then [KCloseHandle (pipe connection)] else [] in
      (* the reader thread is joined and the connection is reset *)
      (mkMonitor (object mon) (m_isMonitoring mon) (m_shouldStopMonitoring mon)
                 None (m_monitoringThread mon),
       t)
  end.

(** [GameDataInterface::StartMonitoring]; [snapshot] is the process
    snapshot [FindGameProcessId] takes.  The result is the returned
    [bool], the object afterwards and the kernel calls issued. *)
Definition StartMonitoring (snapshot : ProcessSnapshot) (mon : Monitor)
  : bool * Monitor * list KCall :=
  if m_isMonitoring mon then (true, mon, [])
  else
    (* Find game process *)
    let processId_ := FindGameProcessId snapshot in
    if processId_ =? 0 then (false, mon, [])
    else
      (* Inject DLL *)
      let '(injected, st, t) := InjectDLL K (object mon) processId_ in
      let mon := with_object st mon in
      if negb injected then (false, mon, t)
      else
        (* Create named pipe connection *)
        let '(connected, mon) := CreateNamedPipeConnection mon in
        if negb connected then
          let '(_, st, t') := EjectDLL K (object mon) processId_ in
          (false, with_object st mon, t ++ t')
        else
          (* Start monitoring thread *)
          (true,
           mkMonitor (object mon) true false (m_pipeConnection mon) true,
           t).

(** [GameDataInterface::StopMonitoring] *)
Definition StopMonitoring (mon : Monitor) : Monitor * list KCall :=
  if negb (m_isMonitoring mon) then (mon, [])
  else
    let mon := mkMonitor (object mon) false true (m_pipeConnection mon)
                         (m_monitoringThread mon) in
    (* Close pipe connection *)
    let '(mon, t) := CloseNamedPipeConnection mon in
    (* Wait for monitoring thread to finish *)
    (mkMonitor (object mon) (m_isMonitoring mon) (m_shouldStopMonitoring mon)
               (m_pipeConnection mon) false,
     t).

End Kernel.

End Monitoring.

(* ===================================================================== *)
(** ** CoachingInterface.cpp: the panel layout *)
(* ===================================================================== *)

Module CoachingLayout.
Import CRuntime.

Local Open Scope Z_scope.

(** The layout members of [class CoachingInterface]. *)
Record Layout := mkLayout {
  m_clientRect      : RECT;
  m_gameArea        : RECT;
  m_leftPanel       : RECT;
  m_rightPanel      : RECT;
  m_bottomPanel     : RECT;
  m_topPanel        : RECT;
  m_showLeftPanel   : bool;
  m_showRightPanel  : bool;
  m_showBottomPanel : bool;
  m_showTopPanel    : bool
}.

(** The constructor zeroes the rectangles; the side panels are shown
    and the bottom and top panels are not. *)
Definition initial : Layout :=
  mkLayout RECT_zero RECT_zero RECT_zero RECT_zero RECT_zero RECT_zero
           true true false false.

(** [CoachingInterface::CalculateLayout]; the arithmetic is that of
    [int] and [LONG]. *)
Definition CalculateLayout (ui : Layout) : Layout :=
  (let clientRect := m_clientRect ui in
   let gameArea := m_gameArea ui in
   let clientWidth := rc_right clientRect -% rc_left clientRect in
   let clientHeight := rc_bottom clientRect -% rc_top clientRect in
   (* Use dynamic panel margin based on window size *)
   let panelMargin := std_max 12 (clientWidth /% 100) in
   (* Calculate game area dimensions *)
   let gameWidth := rc_right gameArea -% rc_left gameArea in
   let gameHeight := rc_bottom gameArea -% rc_top gameArea in
   (* Check if we have a valid game area *)
   let hasGameArea := (0 <? gameWidth) && (0 <? gameHeight) in
   let availableWidth :=
     if hasGameArea then clientWidth -% gameWidth -% panelMargin *% 4 else clientWidth in
   (* Calculate panel widths as percentages of available space *)
   let leftWidth := if m_showLeftPanel ui then std_max 240 (availableWidth /% 2) else 0 in
   let rightWidth := if m_showRightPanel ui then std_max 300 (availableWidth /% 2) else 0 in
   let maxPanelWidth := std_max 340 (clientWidth /% 4) in
   let leftWidth := std_min leftWidth maxPanelWidth in
   let rightWidth := std_min rightWidth maxPanelWidth in
   (* Calculate panel heights *)
   let bottomHeight :=
     if m_showBottomPanel ui then std_max 90 (clientHeight /% 10) else 0 in
   let topHeight := if m_showTopPanel ui then std_max 50 (clientHeight /% 16) else 0 in
   let '(leftPanel, rightPanel, bottomPanel, topPanel) :=
     if hasGameArea then
       (* Position panels relative to game area *)
       (mkRECT (rc_left clientRect +% panelMargin) (rc_top clientRect +% panelMargin)
               (rc_left gameArea -% panelMargin) (rc_bottom clientRect -% panelMargin),
        mkRECT (rc_right gameArea +% panelMargin) (rc_top clientRect +% panelMargin)
               (rc_right clientRect -% panelMargin) (rc_bottom clientRect -% panelMargin),
        (if m_showBottomPanel ui then
           mkRECT (rc_left gameArea) (rc_bottom gameArea +% panelMargin)
                  (rc_right gameArea) (rc_bottom gameArea +% panelMargin +% bottomHeight)
         else m_bottomPanel ui),
        (if m_showTopPanel ui then
           mkRECT (rc_left gameArea) (rc_top gameArea -% panelMargin -% topHeight)
                  (rc_right gameArea) (rc_top gameArea -% panelMargin)
         else m_topPanel ui))
     else
       (* No game area - use default layout with panels on sides *)
       let centerWidth := clientWidth -% leftWidth -% rightWidth -% panelMargin *% 4 in
       (mkRECT (rc_left clientRect +% panelMargin) (rc_top clientRect +% panelMargin)
               (rc_left clientRect +% leftWidth +% panelMargin)
               (rc_bottom clientRect -% panelMargin),
        mkRECT (rc_right clientRect -% rightWidth -% panelMargin)
               (rc_top clientRect +% panelMargin)
               (rc_right clientRect -% panelMargin) (rc_bottom clientRect -% panelMargin),
        (if m_showBottomPanel ui then
           mkRECT (rc_left clientRect +% leftWidth +% panelMargin *% 2)
                  (rc_bottom clientRect -% bottomHeight -% panelMargin)
                  (rc_left clientRect +% leftWidth +% panelMargin *% 2 +% centerWidth)
                  (rc_bottom clientRect -% panelMargin)
         else m_bottomPanel ui),
        (if m_showTopPanel ui then
           mkRECT (rc_left clientRect +% leftWidth +% panelMargin *% 2)
                  (rc_top clientRect +% panelMargin)
                  (rc_left clientRect +% leftWidth +% panelMargin *% 2 +% centerWidth)
                  (rc_top clientRect +% topHeight +% panelMargin)
         else m_topPanel ui)) in
   (* Ensure panel widths are at least minimum size *)
   let leftPanel :=
     if (rc_right leftPanel -% rc_left leftPanel <? 200) && m_showLeftPanel ui
     then mkRECT (rc_left leftPanel) (rc_top leftPanel)
                 (rc_left leftPanel +% 200) (rc_bottom leftPanel)
     else leftPanel in
   let rightPanel :=
     if (rc_right rightPanel -% rc_left rightPanel <? 200) && m_showRightPanel ui
     then mkRECT (rc_right rightPanel -% 200) (rc_top rightPanel)
                 (rc_right rightPanel) (rc_bottom rightPanel)
     else rightPanel in
   mkLayout clientRect gameArea leftPanel rightPanel bottomPanel topPanel
            (m_showLeftPanel ui) (m_showRightPanel ui)
            (m_showBottomPanel ui) (m_showTopPanel ui)).

(** [CoachingInterface::UpdateLayout] *)
Definition UpdateLayout (ui : Layout) (clientRect gameArea : RECT) : Layout :=
  CalculateLayout
    (mkLayout clientRect gameArea (m_leftPanel ui) (m_rightPanel ui)
              (m_bottomPanel ui) (m_topPanel ui)
              (m_showLeftPanel ui) (m_showRightPanel ui)
              (m_showBottomPanel ui) (m_showTopPanel ui)).

End CoachingLayout.

(* ===================================================================== *)
(** ** main.cpp: the detection thread while a game is embedded *)
(* ===================================================================== *)

Module GameDetection.
Import WindowManager.

Local Open Scope string_scope.
Local Open Scope list_scope.
Local Open Scope Z_scope.

(** What the loop of [GameDetectionThread] works on: [g_appState] with
    its window manager, its game data interface and the commentary of
    its coaching interface, and the function-local
    [static DWORD lastRefresh]. *)
Record App := mkApp {
  g_appState    : main_cpp.AppState;
  windowManager : State;
  gameInterface : Monitoring.Monitor;
  m_commentary  : list CoachingInterface.CommentaryItem;
  lastRefresh   : Z
}.

Section Platform.
Variable rejects : Call -> bool.

(** One pass of the loop of [GameDetectionThread] through the branch
    taken while [isGameEmbedded] is set.  [containerWindow] and
    [contentArea] are what [coachingUI->GetGameWindowContainer()] and
    [coachingUI->GetGameWindowContentArea()] return; [tick] is what
    [GetTickCount] returns (the branch reads the clock at most once).
    The result is the state afterwards, the desktop afterwards and the
    kernel calls issued. *)
Definition embedded_pass (containerWindow : HWND) (contentArea : RECT) (tick : Z)
    (app : App) (os : Desktop) : App * Desktop * list KCall :=
  let mainWindow_ := main_cpp.mainWindow (g_appState app) in
  (* Check if game window is still valid *)
  let '(app, t1) :=
    if negb (IsWindow (main_cpp.gameWindow (g_appState app)) os) then
      let '(gi, t) := Monitoring.StopMonitoring (gameInterface app) in
      (mkApp (main_cpp.mkAppState mainWindow_ NULL false) (windowManager app) gi
             (CoachingInterface.AddCommentaryWithType (m_commentary app)
                "Game window connection lost. Searching for new game window..."
                "system" false tick)
             (lastRefresh app),
       t)
    else (app, []) in
  (* Check if container window is still valid *)
  let '(app, os, t2) :=
    if main_cpp.isGameEmbedded (g_appState app)
       && ((containerWindow =? NULL) || negb (IsWindow containerWindow os)) then
      (* Restore the game window before resetting *)
      let '(wm, os) :=
        if negb (main_cpp.gameWindow (g_appState app) =? NULL)
           && IsWindow (main_cpp.gameWindow (g_appState app)) os
        then
          let '(_, wm, os) :=
            RestoreGameWindow rejects (windowManager app)
                              (main_cpp.gameWindow (g_appState app)) os in
          (wm, os)
        else (windowManager app, os) in
      let '(gi, t) := Monitoring.StopMonitoring (gameInterface app) in
      (mkApp (main_cpp.mkAppState mainWindow_ NULL false) wm gi
             (CoachingInterface.AddCommentaryWithType (m_commentary app)
                "Container window lost. Game window restored to original state."
                "system" false tick)
             (lastRefresh app),
       os, t)
    else (app, os, []) in
  (* If embedded, periodically update the game window position and size *)
  let '(app, os) :=
    if main_cpp.isGameEmbedded (g_appState app)
       && negb (containerWindow =? NULL) && IsWindow containerWindow os then
      if (rc_left contentArea <? rc_right contentArea)
         && (rc_top contentArea <? rc_bottom contentArea) then
        let contentWidth := to_LONG (rc_right contentArea - rc_left contentArea) in
        let contentHeight := to_LONG (rc_bottom contentArea - rc_top contentArea) in
        (* Only update if content area has reasonable dimensions *)
        if (100 <? contentWidth) && (100 <? contentHeight) then
          let '(positioned, os) :=
            SetWindowPos rejects (main_cpp.gameWindow (g_appState app)) HWND_BOTTOM
                         (rc_left contentArea) (rc_top contentArea)
                         contentWidth contentHeight
                         (Z.lor SWP_NOACTIVATE SWP_NOOWNERZORDER) os in
          if positioned then
            (* Only refresh every 2 seconds *)
            let currentTime := tick in
            if 2000 <? to_DWORD (currentTime - lastRefresh app) then
              (mkApp (g_appState app) (windowManager app) (gameInterface app)
                     (m_commentary app) currentTime,
               SynchronizeWindowRefresh rejects containerWindow
                 (main_cpp.gameWindow (g_appState app)) os)
            else (app, os)
          else (app, os)
        else (app, os)
      else (app, os)
    else (app, os) in
  (app, os, t1 ++ t2).

End Platform.

End GameDetection.

(* ===================================================================== *)
(** * The vocabulary of the properties *)
(* ===================================================================== *)

Module Vocabulary.

Local Open Scope string_scope.
Local Open Scope list_scope.
Local Open Scope Z_scope.

(* --------------------------------------------------------------------- *)
(** ** Telemetry *)

(** The last [n] items of a list, oldest first. *)
Definition last_n {A} (n : nat) (l : list A) : list A := drop (length l - n) l.

(** The event [ParseGameEvent] builds from a frame and a clock reading. *)
Definition event_of (frame : string * Z) : GameDataInterface.GameEvent :=
  GameDataInterface.mkGameEvent
    (GameDataInterface.event_type_of (fst frame)) 0 (snd frame) (fst frame).

(** A run of deliveries: [ParseGameEvent] once per frame, in order. *)
Definition deliver (st : GameDataInterface.State) (frames : list (string * Z))
  : GameDataInterface.State :=
  fold_left (fun st frame => GameDataInterface.ParseGameEvent st (fst frame) (snd frame))
            frames st.

(* --------------------------------------------------------------------- *)
(** ** Injection *)

Section Stages.
Variable K : Oracle.
Variables (pid : Z) (dllPath : string).

(** The values [GameDataInterface::InjectDLLIntoProcess] obtains, stage
    by stage. *)
Definition opened : HANDLE := OpenProcess K PROCESS_ALL_ACCESS pid.
Definition pathSize : Z := (Z.of_nat (String.length dllPath) + 1) * 2.
Definition remoteMemory : Z :=
  VirtualAllocEx K opened pathSize (Z.lor MEM_COMMIT MEM_RESERVE).
Definition written : bool := WriteProcessMemory K opened remoteMemory dllPath pathSize.
Definition loader : Z := GetProcAddress K (GetModuleHandle K "kernel32.dll") "LoadLibraryW".
Definition remoteThread : HANDLE := CreateRemoteThread K opened loader remoteMemory.
Definition loadedModule : Z := snd (GetExitCodeThread K remoteThread).

(** The failure conditions of an injection, in the order they can
    arise. *)
Inductive InjectionFailure : Prop :=
| cannot_open    : opened = 0 -> InjectionFailure
| cannot_alloc   : remoteMemory = 0 -> InjectionFailure
| cannot_write   : written = false -> InjectionFailure
| no_entry_point : loader = 0 -> InjectionFailure
| no_thread      : remoteThread = 0 -> InjectionFailure
| module_null    : loadedModule = 0 -> InjectionFailure.

End Stages.

(* --------------------------------------------------------------------- *)
(** ** Channel *)



(* --------------------------------------------------------------------- *)
(** ** The fade of a message *)

(** The line the fade follows: 1 up to four fifths of the duration,
    then straight down to 0 at the full duration. *)
Definition ideal_fade (e D : Z) : Q :=
  if (5 * e <=? 4 * D)%Z then 1%Q else (5 * inject_Z (D - e) / inject_Z D)%Q.

(** [0.8f] and [0.2f] in units. *)
Definition c08 : Z := 13421773 * 2 ^ 125.
Definition c02 : Z := 13421773 * 2 ^ 123.

(** The fade in units, for a message that is drawn: [e] is the elapsed
    time, [D] the duration. *)
Definition fade_units (e D : Z) : Z :=
  let A := Binary32.round_pos (e * Binary32.one_units) 1 in
  let B := Binary32.round_pos (D * Binary32.one_units) 1 in
  let T := Binary32.round_pos (A * Binary32.one_units) B in
  if c08 <? T
  then Binary32.round_pos
         (Binary32.one_units
          - Binary32.round_pos
              (Binary32.round_pos (T - c08) 1 * Binary32.one_units) c02) 1
  else Binary32.one_units.

(** One part in 2^24, and half a unit. *)
Definition eps : Q := 1 # 2 ^ 24.
Definition half_unit : Q := ((1 # 2) / inject_Z Binary32.one_units)%Q.

(** The value of a number of units. *)
Definition v (x : Z) : Q := (inject_Z x / inject_Z Binary32.one_units)%Q.

(* --------------------------------------------------------------------- *)
(** ** Windows *)

Import WindowManager.

(** [os'] differs from [os] at most in window [h], whose old and new
    states are related by [R]. *)
Definition touches (h : HWND) (R : relation Window) (os os' : Desktop) : Prop :=
  match windows os !! h with
  | Some w => exists w', windows os' = <[h := w']> (windows os) /\ R w w'
  | None => windows os' = windows os
  end.

(** A call may change anything but the show state and the window's
    procedure. *)
Definition keeps_show : relation Window :=
  fun w w' => w_showCmd w' = w_showCmd w /\ w_ncCalcSize w' = w_ncCalcSize w.

(** A call keeps the parent as well. *)
Definition keeps_parent : relation Window :=
  fun w w' => w_parent w' = w_parent w /\ keeps_show w w'.

(** The manager holds a record for window [gw]. *)
Definition tracked (m : State) (gw : HWND) : Prop :=
  exists info, info ∈ m /\ gameWindow info = gw.



(** An extended style without the topmost bit. *)
Definition not_topmost (exStyle : Z) : Z := Z.land exStyle (Z.lnot WS_EX_TOPMOST).

(** A window that has lost a topmost status it may have had. *)
Definition lowered (w : Window) : Window := with_exStyle (not_topmost (w_exStyle w)) w.


(** A window put at [area] below the others: it is not topmost, and
    its client rectangle is asked for anew when its extent changes. *)
Definition placed (area : RECT) (w : Window) : Window :=
  mkWindow (w_parent w) (w_style w) (not_topmost (w_exStyle w)) area
           (if resized (w_rect w) area
            then w_ncCalcSize w (w_style w) (not_topmost (w_exStyle w)) area
            else w_client w)
           (w_showCmd w) (w_ncCalcSize w).

(** A window put at [area], shown and made topmost; its client
    rectangle is asked for anew when its extent changes. *)
Definition shown_on_top (area : RECT) (w : Window) : Window :=
  let style := Z.lor (w_style w) WS_VISIBLE in
  let exStyle := Z.lor (w_exStyle w) WS_EX_TOPMOST in
  mkWindow (w_parent w) style exStyle area
           (if resized (w_rect w) area then w_ncCalcSize w style exStyle area
            else w_client w)
           (w_showCmd w) (w_ncCalcSize w).



End Vocabulary.

(* ===================================================================== *)
(** * Sample inputs *)
(* ===================================================================== *)

Module Samples.
Import WindowManager.

Local Open Scope string_scope.
Local Open Scope list_scope.
Local Open Scope Z_scope.

(** One hundred and three numbered event frames. *)
Definition sample_frames : list (string * Z) :=
  map (fun n => ("tick", Z.of_nat n)) (seq 0 103).

(** [{"type":"event","name":"tech"}] *)
Definition tech_frame : string :=
  ("{" ++ quoted "type" ++ ":" ++ quoted "event" ++ ","
       ++ quoted "name" ++ ":" ++ quoted "tech" ++ "}")%string.

(** A controller with both callbacks registered. *)
Definition listening : GameDataInterface.State :=
  GameDataInterface.mkState (GameDataInterface.mkGameState 0 0 0 false false)
                            [] true true [] [].

(** [{"type":"gameState","frame":120}] *)
Definition frame_120 : string :=
  ("{" ++ quoted "type" ++ ":" ++ quoted "gameState" ++ "," ++ quoted "frame" ++ ":120}")%string.

(** [{"type":"gameState","frame":null}] *)
Definition frame_null : string :=
  ("{" ++ quoted "type" ++ ":" ++ quoted "gameState" ++ "," ++ quoted "frame" ++ ":null}")%string.

(** [{"type":"gameState","frame":4294967296}] *)
Definition frame_huge : string :=
  ("{" ++ quoted "type" ++ ":" ++ quoted "gameState" ++ "," ++ quoted "frame"
       ++ ":4294967296}")%string.

(** A kernel in which every step of an injection succeeds and the
    remote [LoadLibrary] returns [NULL] (the thread's exit value is 0),
    as for a helper module the target cannot load. *)
Definition load_fails_in_target : Oracle :=
  mkOracle (fun _ _ => 0x2C4) (fun _ _ _ => 0x7FF60000) (fun _ _ _ _ => true)
           (fun _ => 0x76F00000) (fun _ _ => 0x76F12340) (fun _ _ _ => 0x2D0)
           (fun _ => (true, 0)) "CoachClippi.exe" (fun _ => true)
           (fun _ _ n => (true, n)).

(** A kernel in which no process can be opened: the target has exited. *)
Definition process_gone : Oracle :=
  mkOracle (fun _ _ => 0) (fun _ _ _ => 0) (fun _ _ _ _ => false)
           (fun _ => 0x76F00000) (fun _ _ => 0x76F12340) (fun _ _ _ => 0)
           (fun _ => (false, 0)) "CoachClippi.exe" (fun _ => true)
           (fun _ _ _ => (false, 0)).

(** A controller that has injected into process 4242. *)
Definition injected_4242 : GameDataInterface.State :=
  GameDataInterface.with_injectedProcesses
    [GameDataInterface.mkInjected 4242 0x2C4 0x6A000000] GameDataInterface.constructor.

(** The message queued by [CommunicationThread]: five seconds, top right. *)
Definition tip : overlay_simple.OverlayMessage :=
  overlay_simple.mkOverlayMessage "Nice tech!" 5000 overlay_simple.TOP_RIGHT
                                  overlay_simple.GENERAL overlay_simple.NORMAL.

(** A message shown for 16777225 ms (a little over four and a half
    hours). *)
Definition long_tip : overlay_simple.OverlayMessage :=
  overlay_simple.mkOverlayMessage "Paused" 16777225 overlay_simple.TOP_RIGHT
                                  overlay_simple.GENERAL overlay_simple.NORMAL.

(** The window procedure of the samples: a window with a caption (bits
    22 and 23 of the style, [WS_CAPTION]) has borders of 8 pixels and a
    caption of 31; one without has no frame. *)
Definition framed (style exStyle : Z) (r : RECT) : RECT :=
  let width := rc_right r - rc_left r in
  let height := rc_bottom r - rc_top r in
  if Z.testbit style 22 && Z.testbit style 23
  then mkRECT 0 0 (width - 16) (height - 39)
  else mkRECT 0 0 width height.

(** A top-level game window (overlapped, visible, not maximized) and the
    controller's container, a child of the controller's main window. *)
Definition game : Window :=
  mkWindow NULL 0x14CF0000 0x00000100 (mkRECT 100 100 740 580) (mkRECT 0 0 624 441) 1
           framed.
Definition container : Window :=
  mkWindow 5 0x50000000 0 (mkRECT 0 0 800 600) (mkRECT 0 0 800 600) 1 framed.
Definition desk : Desktop := mkDesktop (<[7 := game]> (<[1 := container]> ∅)) 0 [].

(** The same desktop with the game window maximized. *)
Definition game_maximized : Window :=
  mkWindow NULL 0x15CF0000 0x00000100 (mkRECT (-8) (-8) 1928 1048) (mkRECT 0 0 1920 1017) 3
           framed.
Definition desk_maximized : Desktop :=
  mkDesktop (<[7 := game_maximized]> (<[1 := container]> ∅)) 0 [].

(** The desktop after the game has exited: only the container is left. *)
Definition desk_after_exit : Desktop := mkDesktop (<[1 := container]> ∅) 0 [].

(** Platforms: one that carries every call out, one that refuses
    [SetParent], one that refuses everything but [SetParent]. *)
Definition accept_all : Call -> bool := fun _ => false.
Definition deny_reparent : Call -> bool :=
  fun c => match c with CSetParent _ _ => true | _ => false end.
Definition only_reparent : Call -> bool :=
  fun c => match c with CSetParent _ _ => false | _ => true end.

(** The record of the game window as [SaveWindowState] captures it. *)
Definition game_record : EmbeddedWindowInfo :=
  mkInfo 7 NULL 0x14CF0000 0x00000100 (mkRECT 100 100 740 580) false.


(** The sample desktop with the container destroyed and the game
    window still there. *)
Definition desk_no_container : Desktop := mkDesktop (<[7 := game]> ∅) 0 [].

End Samples.

(* ===================================================================== *)
(** * Further vocabulary *)
(* ===================================================================== *)

Module Notions.

Local Open Scope string_scope.
Local Open Scope list_scope.
Local Open Scope Z_scope.

(** What [EnumWindowsProc] records about a window. *)
Definition listed (shell : WindowFinder.Shell) (info : WindowFinder.WindowInfo) : Prop :=
  WindowFinder.IsWindowVisible shell (WindowFinder.hwnd info) = true
  /\ WindowFinder.title info
     = substr (WindowFinder.GetWindowText shell (WindowFinder.hwnd info)) 0 255
  /\ WindowFinder.className info
     = substr (WindowFinder.GetClassName shell (WindowFinder.hwnd info)) 0 255
  /\ WindowFinder.title info <> "".



(** Sequencing of calls that may throw. *)
Definition and_then {A B} (o : GameDataInterface.Outcome A)
    (f : A -> GameDataInterface.Outcome B) : GameDataInterface.Outcome B :=
  match o with
  | GameDataInterface.Returns a => f a
  | GameDataInterface.Throws e => GameDataInterface.Throws e
  end.

(** The line terminator of the telemetry protocol. *)
Definition newline : string := String CRuntime.LF EmptyString.

(** One call that adds a commentary line: [AddCommentary] or
    [AddCommentaryWithType], with the clock reading during the call. *)
Inductive CommentaryCall :=
| Plain (text : string) (isImportant : bool) (tick : Z)
| Typed (text eventType : string) (isImportant : bool) (tick : Z).

Definition add_commentary (m_commentary : list CoachingInterface.CommentaryItem)
    (c : CommentaryCall) : list CoachingInterface.CommentaryItem :=
  match c with
  | Plain text isImportant tick =>
      CoachingInterface.AddCommentary m_commentary text isImportant tick
  | Typed text eventType isImportant tick =>
      CoachingInterface.AddCommentaryWithType m_commentary text eventType isImportant tick
  end.

(** The item such a call builds. *)
Definition commentary_item (c : CommentaryCall) : CoachingInterface.CommentaryItem :=
  match c with
  | Plain text isImportant tick =>
      CoachingInterface.mkCommentaryItem text tick isImportant ""
        (CoachingInterface.RGB 255 255 255) 0
  | Typed text eventType isImportant tick =>
      CoachingInterface.mkCommentaryItem text tick isImportant eventType
        (CoachingInterface.event_color eventType) 0
  end.

End Notions.

(* ===================================================================== *)
(** * Further sample inputs *)
(* ===================================================================== *)

Module Scenarios.
Import Samples.

Local Open Scope string_scope.
Local Open Scope list_scope.
Local Open Scope Z_scope.

(** The shell of the sample desktop: the Slippi launcher (window 3, an
    Electron window), the game (window 7) and the controller's container
    (window 1, untitled), in that order. *)
Definition sample_shell : WindowFinder.Shell :=
  WindowFinder.mkShell
    [3; 7; 1]
    (fun _ => true)
    (fun _ => false)
    (fun h => if h =? 3 then "Slippi Launcher"
              else if h =? 7 then "Faster Melee - Slippi (3.4.0) | FPS: 60"
              else "")
    (fun h => if h =? 3 then "Chrome_WidgetWin_1"
              else if h =? 7 then "wxWindowNR"
              else "ImGui Platform")
    (fun h => if h =? 7 then 4242 else 1000).

(** A process snapshot in which the Slippi launcher comes before the
    emulator. *)
Definition launcher_first : ProcessSnapshot :=
  Some [mkProcessEntry 4 "System"; mkProcessEntry 812 "explorer.exe";
        mkProcessEntry 3000 "Slippi Launcher.exe";
        mkProcessEntry 4242 "Slippi Dolphin.exe"].

(** A kernel in which every step of an injection succeeds and the
    module is loaded at [0x6A000000]. *)
Definition cooperative : Oracle :=
  mkOracle (fun _ _ => 0x2C4) (fun _ _ _ => 0x7FF60000) (fun _ _ _ _ => true)
           (fun _ => 0x76F00000) (fun _ _ => 0x76F12340) (fun _ _ _ => 0x2D0)
           (fun _ => (true, 0x6A000000)) "CoachClippi.exe" (fun _ => true)
           (fun _ _ n => (true, n)).

Definition pipe_missing : Monitoring.PipeOracle :=
  Monitoring.mkPipeOracle false INVALID_HANDLE_VALUE.

(** The application with the sample game window embedded, its record
    kept and the monitoring not started. *)
Definition embedded_app : GameDetection.App :=
  GameDetection.mkApp (main_cpp.mkAppState 5 7 true) [game_record]
                      Monitoring.constructor [] 0.

End Scenarios.

(* ===================================================================== *)
(** * Properties of the telemetry relay ([GameDataInterface]) *)
(* ===================================================================== *)

Module TelemetryFacts.
Import GameDataInterface Vocabulary Samples.

Local Open Scope nat_scope.


Lemma length_last_n {A} n (l : list A) : length (last_n n l) <= n.
Proof. unfold last_n. rewrite length_drop. lia. Qed.

Lemma last_n_short {A} n (l : list A) : length l <= n -> last_n n l = l.
Proof.
  intros H. unfold last_n. replace (length l - n) with 0 by lia. apply drop_0.
Qed.

Lemma last_n_absorb {A} n (l r : list A) :
  last_n n (last_n n l ++ r) = last_n n (l ++ r).
Proof.
  destruct (Nat.le_gt_cases (length l) n) as [Hle | Hgt].
  - by rewrite (last_n_short n l).
  - unfold last_n. rewrite !length_app, length_drop.
    replace (length l - (length l - n) + length r - n) with (length r) by lia.
    replace (length l + length r - n) with ((length l - n) + length r) by lia.
    rewrite <- drop_drop. f_equal. rewrite drop_app_le by lia. done.
Qed.

Lemma m_recentEvents_NotifyGameEvent ev st :
  m_recentEvents (NotifyGameEvent ev st) = m_recentEvents st.
Proof. unfold NotifyGameEvent. by destruct (m_gameEventCallback st). Qed.

(** One delivery: append, then drop the oldest when over capacity. *)
Lemma ParseGameEvent_buffer st frame tick :
  length (m_recentEvents st) <= 100 ->
  m_recentEvents (ParseGameEvent st frame tick)
  = last_n 100 (m_recentEvents st ++ [event_of (frame, tick)]).
Proof.
  intros Hcap. unfold ParseGameEvent. rewrite m_recentEvents_NotifyGameEvent.
  cbn [with_recentEvents m_recentEvents event_of fst snd].
  set (evs := m_recentEvents st ++ _).
  assert (Hlen : length evs = S (length (m_recentEvents st))).
  { subst evs. rewrite length_app. cbn. lia. }
  destruct (100 <? length evs) eqn:Hover.
  - apply Nat.ltb_lt in Hover. unfold last_n.
    replace (length evs - 100) with 1 by lia. done.
  - apply Nat.ltb_ge in Hover. by rewrite last_n_short.
Qed.

Lemma deliver_buffer frames : forall st,
  length (m_recentEvents st) <= 100 ->
  m_recentEvents (deliver st frames)
  = last_n 100 (m_recentEvents st ++ map event_of frames).
Proof.
  induction frames as [| [frame tick] frames IH]; intros st Hcap.
  - cbn. rewrite app_nil_r. by rewrite last_n_short.
  - cbn [deliver fold_left map fst snd]. fold (deliver (ParseGameEvent st frame tick) frames).
    rewrite IH.
    + rewrite ParseGameEvent_buffer by done. rewrite last_n_absorb.
      by rewrite <- app_assoc.
    + rewrite ParseGameEvent_buffer by done. apply length_last_n.
Qed.

(** C4 -- ring-buffer bound.  Starting from a buffer within capacity
    (the constructor's is empty), after any sequence of delivered
    events [m_recentEvents] holds at most 100 items, and they are the
    100 most recently appended ones in arrival order: what was
    discarded is the oldest part of the history. *)
Theorem ring_buffer_bound (st : State) (frames : list (string * Z)) :
  length (m_recentEvents st) <= 100 ->
  let history := m_recentEvents st ++ map event_of frames in
  let buffer := m_recentEvents (deliver st frames) in
  length buffer <= 100
  /\ buffer = last_n 100 history
  /\ history = take (length history - 100) history ++ buffer.
Proof.
  intros Hcap history buffer.
  assert (Hb : buffer = last_n 100 history) by (apply deliver_buffer; done).
  split; [| split].
  - rewrite Hb. apply length_last_n.
  - exact Hb.
  - rewrite Hb. unfold last_n. symmetry. apply take_drop.
Qed.


(** After 103 deliveries the buffer starts at the fourth event. *)
Example ring_buffer_sample :
  timestamp_tick <$> m_recentEvents (deliver constructor sample_frames)
  = map Z.of_nat (seq 3 100).
Proof. vm_compute. reflexivity. Qed.

Lemma ring_buffer_bound_witness :
  let buffer := m_recentEvents (deliver constructor sample_frames) in
  length buffer <= 100
  /\ buffer = last_n 100 (map event_of sample_frames)
  /\ map event_of sample_frames
     = take (length (map event_of sample_frames) - 100) (map event_of sample_frames) ++ buffer.
Proof.
  apply (ring_buffer_bound constructor sample_frames). cbn. lia.
Defined.

End TelemetryFacts.

Module ParserFacts.
Import GameDataInterface Vocabulary Samples.

Local Open Scope string_scope.

Example find_first_occurrence : find "ab" "xxabab" = Some 2%nat.
Proof. reflexivity. Qed.

Example find_first_of_from : find_first_of ",}" "a,b}c" 2 = Some 3%nat.
Proof. reflexivity. Qed.

Example stoi_plain : stoi "120" = inl 120%Z.
Proof. reflexivity. Qed.

Example stoi_space_sign_suffix : stoi "  -12abc" = inl (-12)%Z.
Proof. reflexivity. Qed.

Example stoi_int_min : stoi "-2147483648" = inl (-2147483648)%Z.
Proof. reflexivity. Qed.

Example stoi_no_digit : stoi "null" = inr invalid_argument.
Proof. reflexivity. Qed.

Example stoi_int_max_plus_one : stoi "2147483648" = inr out_of_range.
Proof. reflexivity. Qed.

Lemma find_None_inv needle c hay :
  find needle (String c hay) = None ->
  String.prefix needle (String c hay) = false /\ find needle hay = None.
Proof.
  cbn [find]. destruct (String.prefix needle (String c hay)); [discriminate |].
  destruct (find needle hay); [discriminate | done].
Qed.

Lemma find_None_prefix needle hay :
  find needle hay = None -> String.prefix needle hay = false.
Proof.
  destruct hay as [| c hay].
  - cbn [find]. destruct (String.prefix needle ""); [discriminate | done].
  - intros H. by apply find_None_inv in H as [? _].
Qed.

Lemma prefix_app_l a b hay :
  String.prefix (a ++ b) hay = true -> String.prefix a hay = true.
Proof.
  revert hay. induction a as [| x a IH]; intros hay H; [by destruct hay |].
  destruct hay as [| y hay]; [discriminate |].
  change (String.prefix (String x (a ++ b)) (String y hay) = true) in H.
  cbn [String.prefix] in H |- *. destruct (ascii_dec x y); [by apply IH | congruence].
Qed.

(** A frame without the bare word has no quoted occurrence of it. *)
Lemma find_quoted_None word hay :
  find word hay = None -> find (quoted word) hay = None.
Proof.
  induction hay as [| c hay IH]; intros H; [done |].
  apply find_None_inv in H as [_ Hrest].
  assert (Hp : String.prefix (quoted word) (String c hay) = false).
  { unfold quoted. cbn [String.prefix]. destruct (ascii_dec dquote c); [| done].
    destruct (String.prefix (word ++ String dquote "") hay) eqn:E; [| done].
    apply prefix_app_l in E. apply find_None_prefix in Hrest. congruence. }
  cbn [find]. rewrite Hp, (IH Hrest). done.
Qed.

Lemma event_type_default frame :
  find (quoted "combo") frame = None ->
  find (quoted "kill") frame = None ->
  find (quoted "stock") frame = None ->
  event_type_of frame = GAME_START.
Proof. unfold event_type_of. by intros -> -> ->. Qed.

Lemma last_drop_1 {A} (l : list A) : (2 <= length l)%nat -> last (drop 1 l) = last l.
Proof.
  destruct l as [| x [| y l]]; cbn; intros; try lia. done.
Qed.

Lemma ParseGameEvent_appends st frame tick :
  last (m_recentEvents (ParseGameEvent st frame tick))
  = Some (mkGameEvent (event_type_of frame) 0 tick frame).
Proof.
  unfold ParseGameEvent. rewrite TelemetryFacts.m_recentEvents_NotifyGameEvent.
  cbn [with_recentEvents m_recentEvents].
  destruct (_ <? _)%nat eqn:E.
  - apply Nat.ltb_lt in E. rewrite last_drop_1 by lia. apply last_snoc.
  - apply last_snoc.
Qed.

Lemma ParseGameEvent_notifies st frame tick :
  notified (ParseGameEvent st frame tick)
  = (notified st
     ++ if m_gameEventCallback st
        then [EventNotified (mkGameEvent (event_type_of frame) 0 tick frame)]
        else [])%list.
Proof.
  unfold ParseGameEvent, NotifyGameEvent. cbn [with_recentEvents m_gameEventCallback].
  destruct (m_gameEventCallback st); cbn; [done | by rewrite app_nil_r].
Qed.

(** C10 -- an event frame with no recognised discriminator.  The
    discriminators searched for are the words between double quotes; a
    frame with none of them (in particular one without the bare words,
    [find_quoted_None]) is still appended to the event buffer as its
    newest item and handed to the registered event callback, with the
    default type [GAME_START] (enumerator 0) and the raw frame text as
    data.  A frame classified as an event by [ProcessIncomingData]
    takes this path. *)
Theorem unrecognised_event_defaults (st : State) (frame : string) (tick : Z) :
  find (quoted "combo") frame = None ->
  find (quoted "kill") frame = None ->
  find (quoted "stock") frame = None ->
  let event := mkGameEvent GAME_START 0 tick frame in
  let st' := ParseGameEvent st frame tick in
  EventType_value (type event) = 0%Z
  /\ data event = frame
  /\ last (m_recentEvents st') = Some event
  /\ notified st'
     = (notified st ++ if m_gameEventCallback st then [EventNotified event] else [])%list
  /\ (find (quoted "type" ++ ":" ++ quoted "gameState") frame = None ->
      find (quoted "type" ++ ":" ++ quoted "event") frame <> None ->
      ProcessIncomingData st frame tick = Returns st').
Proof.
  intros Hc Hk Hs event st'.
  pose proof (event_type_default frame Hc Hk Hs) as Hty.
  split; [done |]. split; [done |]. split; [| split].
  - subst st' event. rewrite ParseGameEvent_appends. by rewrite Hty.
  - subst st' event. rewrite ParseGameEvent_notifies. by rewrite Hty.
  - intros Hgs Hev. unfold ProcessIncomingData. rewrite Hgs. cbn [is_found].
    destruct (find (quoted "type" ++ ":" ++ quoted "event") frame); [done | congruence].
Qed.


Lemma unrecognised_event_defaults_witness :
  let event := mkGameEvent GAME_START 0 5000 tech_frame in
  let st' := ParseGameEvent listening tech_frame 5000 in
  EventType_value (type event) = 0%Z
  /\ data event = tech_frame
  /\ last (m_recentEvents st') = Some event
  /\ notified st' = [EventNotified event]
  /\ (find (quoted "type" ++ ":" ++ quoted "gameState") tech_frame = None ->
      find (quoted "type" ++ ":" ++ quoted "event") tech_frame <> None ->
      ProcessIncomingData listening tech_frame 5000 = Returns st').
Proof.
  apply (unrecognised_event_defaults listening tech_frame 5000); reflexivity.
Defined.


(** The end-to-end scenario: the frame counter becomes 120 and the
    state callback is invoked once. *)
Lemma gameState_frame_120 st tick :
  ProcessIncomingData st frame_120 tick
  = Returns (NotifyGameStateUpdate (with_frameCount 120 st)).
Proof. reflexivity. Qed.

(** A state frame without a ["frame":] field leaves the counter as it
    is (the state callback is still invoked). *)
Lemma gameState_missing_frame st frame :
  find (quoted "frame" ++ ":") frame = None ->
  ParseGameStateUpdate st frame = Returns (NotifyGameStateUpdate st)
  /\ frameCount (m_currentGameState (NotifyGameStateUpdate st))
     = frameCount (m_currentGameState st).
Proof.
  intros H. unfold ParseGameStateUpdate. rewrite H. split; [done |].
  unfold NotifyGameStateUpdate. by destruct (m_gameStateCallback st).
Qed.

(** C9 -- a frame that ends the reader.  For the state frame
    [{"type":"gameState","frame":null}] the value handed to [std::stoi]
    is ["null"]: [stoi] throws [std::invalid_argument], which
    [ProcessIncomingData] does not catch, whatever the state and the
    clock.  (A counter too large for an [int] throws
    [std::out_of_range] in the same way.) *)
Theorem gameState_frame_null_throws (st : State) (tick : Z) :
  ProcessIncomingData st frame_null tick = Throws invalid_argument
  /\ ProcessIncomingData st frame_huge tick = Throws out_of_range.
Proof. split; reflexivity. Qed.

End ParserFacts.

(* ===================================================================== *)
(** * Properties of the remote module loader and of the channel *)
(* ===================================================================== *)

Module InjectionFacts.
Import Vocabulary Samples.

Local Open Scope string_scope.
Local Open Scope Z_scope.

Section Stages.
Variable K : Oracle.
Variables (pid : Z) (dllPath : string).

(** Name the stage values in the unfolded body of the loader. *)
Ltac name_stages :=
  fold (opened K pid); fold (pathSize dllPath); fold (remoteMemory K pid dllPath);
  fold (written K pid dllPath); fold (loader K); fold (remoteThread K pid dllPath).

(** The controller's loader reports every failure condition and
    registers nothing then. *)
Lemma InjectDLLIntoProcess_failure st :
  InjectionFailure K pid dllPath ->
  exists t, GameDataInterface.InjectDLLIntoProcess K st pid dllPath = (false, st, t).
Proof.
  intros Hf. unfold GameDataInterface.InjectDLLIntoProcess. name_stages.
  destruct (opened K pid =? 0) eqn:E1; [eauto |].
  destruct (remoteMemory K pid dllPath =? 0) eqn:E2; [eauto |].
  destruct (written K pid dllPath) eqn:E3; cbn [negb]; [| eauto].
  destruct (loader K =? 0) eqn:E4; [eauto |].
  destruct (remoteThread K pid dllPath =? 0) eqn:E5; [eauto |].
  fold (loadedModule K pid dllPath).
  destruct (loadedModule K pid dllPath =? 0) eqn:E6; [eauto |].
  exfalso. destruct Hf as [H | H | H | H | H | H]; try lia; congruence.
Qed.

(** When no failure condition holds it succeeds and registers exactly
    one record, for this process and the module loaded. *)
Lemma InjectDLLIntoProcess_success st :
  ~ InjectionFailure K pid dllPath ->
  exists t,
    GameDataInterface.InjectDLLIntoProcess K st pid dllPath
    = (true,
       GameDataInterface.with_injectedProcesses
         (GameDataInterface.m_injectedProcesses st
          ++ [GameDataInterface.mkInjected pid (opened K pid) (loadedModule K pid dllPath)]) st,
       t).
Proof.
  intros Hok. unfold GameDataInterface.InjectDLLIntoProcess. name_stages.
  destruct (opened K pid =? 0) eqn:E1; [destruct Hok; apply cannot_open; lia |].
  destruct (remoteMemory K pid dllPath =? 0) eqn:E2; [destruct Hok; apply cannot_alloc; lia |].
  destruct (written K pid dllPath) eqn:E3; cbn [negb]; [| destruct Hok; by apply cannot_write].
  destruct (loader K =? 0) eqn:E4; [destruct Hok; apply no_entry_point; lia |].
  destruct (remoteThread K pid dllPath =? 0) eqn:E5; [destruct Hok; apply no_thread; lia |].
  fold (loadedModule K pid dllPath).
  destruct (loadedModule K pid dllPath =? 0) eqn:E6; [destruct Hok; apply module_null; lia |].
  eauto.
Qed.

End Stages.


(** C7 -- the null loaded-module reference.  With every step
    succeeding and the remote thread's exit value null,
    [DllInjector::InjectDll] of [dll_injector.cpp] returns [true]: it
    never reads the exit value.  On the same kernel the two sibling
    loaders, [GameDataInterface::InjectDLLIntoProcess] and
    [DllInjector::InjectDLL] of [overlay_native.cpp], return [false] and
    register nothing. *)
Theorem InjectDll_null_module_reported_as_success :
  fst (dll_injector.InjectDll load_fails_in_target 4242 "overlay.dll") = true
  /\ fst (fst (GameDataInterface.InjectDLLIntoProcess load_fails_in_target
                 GameDataInterface.constructor 4242 "overlay.dll")) = false
  /\ fst (overlay_native.InjectDLL load_fails_in_target 0 4242 "overlay.dll") = (false, 0).
Proof. split; [| split]; reflexivity. Qed.

(** [DllInjector::InjectDLL] of [overlay_native.cpp] succeeds only with a
    module loaded, and records the process id only then. *)
Lemma InjectDLL_success_has_module K old pid dllPath :
  let '(success, m_injectedPid, _) := overlay_native.InjectDLL K old pid dllPath in
  (success = true ->
   exists hThread code, GetExitCodeThread K hThread = (true, code) /\ code <> 0)
  /\ (success = true -> m_injectedPid = pid)
  /\ (success = false -> m_injectedPid = old).
Proof.
  unfold overlay_native.InjectDLL.
  destruct (OpenProcess K PROCESS_ALL_ACCESS pid =? 0); [by repeat split |].
  destruct (VirtualAllocEx K _ _ MEM_COMMIT =? 0); [by repeat split |].
  destruct (WriteProcessMemory K _ _ _ _); [| by repeat split].
  destruct (GetProcAddress K _ _ =? 0); [by repeat split |].
  destruct (CreateRemoteThread K _ _ _ =? 0) eqn:Eth; [by repeat split |].
  destruct (GetExitCodeThread K _) as [ok code] eqn:Ex.
  destruct ok; cbn [andb]; [| by repeat split].
  destruct (code =? 0) eqn:Ec; cbn [negb]; [by repeat split |].
  apply Z.eqb_neq in Ec. repeat split; try done.
  intros _. eauto.
Qed.

(** The other failure conditions are reported by [DllInjector::InjectDll]. *)
Lemma InjectDll_earlier_failures K pid dllPath :
  let h := OpenProcess K dll_injector.access_rights pid in
  let size := Z.of_nat (String.length dllPath) + 1 in
  let mem := VirtualAllocEx K h size (Z.lor MEM_COMMIT MEM_RESERVE) in
  let k32 := GetModuleHandle K "kernel32.dll" in
  let entry := GetProcAddress K k32 "LoadLibraryA" in
  h = 0 \/ mem = 0 \/ WriteProcessMemory K h mem dllPath size = false
  \/ k32 = 0 \/ entry = 0 \/ CreateRemoteThread K h entry mem = 0 ->
  fst (dll_injector.InjectDll K pid dllPath) = false.
Proof.
  intros h size mem k32 entry Hf. unfold dll_injector.InjectDll.
  fold h. fold size. fold mem. fold k32. fold entry.
  destruct (h =? 0) eqn:E1; [done |].
  destruct (mem =? 0) eqn:E2; [done |].
  destruct (WriteProcessMemory K h mem dllPath size) eqn:E3; cbn [negb]; [| done].
  destruct (k32 =? 0) eqn:E4; [done |].
  destruct (entry =? 0) eqn:E5; [done |].
  destruct (CreateRemoteThread K h entry mem =? 0) eqn:E6; [done |].
  exfalso. destruct Hf as [H | [H | [H | [H | [H | H]]]]]; try lia; congruence.
Qed.

(** Its result never depends on the exit value of the remote thread:
    once the thread is created it returns [true]. *)
Lemma InjectDll_ignores_exit_code K pid dllPath :
  let h := OpenProcess K dll_injector.access_rights pid in
  let size := Z.of_nat (String.length dllPath) + 1 in
  let mem := VirtualAllocEx K h size (Z.lor MEM_COMMIT MEM_RESERVE) in
  let k32 := GetModuleHandle K "kernel32.dll" in
  let entry := GetProcAddress K k32 "LoadLibraryA" in
  h <> 0 -> mem <> 0 -> WriteProcessMemory K h mem dllPath size = true ->
  k32 <> 0 -> entry <> 0 -> CreateRemoteThread K h entry mem <> 0 ->
  fst (dll_injector.InjectDll K pid dllPath) = true.
Proof.
  intros h size mem k32 entry H1 H2 H3 H4 H5 H6. unfold dll_injector.InjectDll.
  fold h. fold size. fold mem. fold k32. fold entry.
  apply Z.eqb_neq in H1, H2, H4, H5, H6. by rewrite H1, H2, H3, H4, H5, H6.
Qed.

End InjectionFacts.

Module ChannelFacts.
Import Vocabulary Samples.

Local Open Scope string_scope.
Local Open Scope Z_scope.



(** On an invalid endpoint both senders return [false] without calling
    the transport; neither has a member in which a message could wait. *)
Lemma SendMessage_invalid_endpoint K message :
  overlay_native.SendMessage K INVALID_HANDLE_VALUE message = (false, [])
  /\ communication.SendMessage K INVALID_HANDLE_VALUE message = (false, []).
Proof. split; reflexivity. Qed.






End ChannelFacts.

(* ===================================================================== *)
(** * Properties of the single-precision arithmetic *)
(* ===================================================================== *)

Module Binary32Facts.
Import Binary32.

Local Open Scope Z_scope.

(* --------------------------------------------------------------------- *)
(** ** The nearest integer *)

Lemma rne_cases n d :
  0 < d ->
  let q := n / d in
  n = d * q + n mod d /\ 0 <= n mod d < d /\
  ((2 * (n mod d) <= d /\ rne n d = q) \/ (d <= 2 * (n mod d) /\ rne n d = q + 1)).
Proof.
  intros Hd q. pose proof (Z.div_mod n d ltac:(lia)) as Hdm.
  pose proof (Z.mod_pos_bound n d Hd) as Hm.
  split; [exact Hdm |]. split; [exact Hm |]. unfold rne. fold q.
  destruct (Z.ltb_spec (2 * (n mod d)) d); [left; lia |].
  destruct (Z.ltb_spec d (2 * (n mod d))); [right; lia |].
  destruct (Z.even q); [left | right]; lia.
Qed.

(** It is within a half of the quotient. *)
Lemma rne_near n d : 0 < d -> - d <= 2 * (rne n d * d - n) <= d.
Proof.
  intros Hd. destruct (rne_cases n d Hd) as [Hn [Hm [[H ->] | [H ->]]]]; nia.
Qed.

Lemma rne_exact m d : 0 < d -> rne (m * d) d = m.
Proof.
  intros Hd. unfold rne. rewrite Z.div_mul, Z.mod_mul by lia.
  destruct (Z.ltb_spec (2 * 0) d); [done | lia].
Qed.

Lemma rne_mono n n' d : 0 < d -> n <= n' -> rne n d <= rne n' d.
Proof.
  intros Hd Hn.
  assert (Hq : n / d <= n' / d) by (by apply Z.div_le_mono).
  destruct (Z.eq_dec (n / d) (n' / d)) as [Heq | Hne].
  - assert (Hr : n mod d <= n' mod d).
    { pose proof (Z.div_mod n d ltac:(lia)). pose proof (Z.div_mod n' d ltac:(lia)).
      rewrite Heq in *. lia. }
    unfold rne. rewrite Heq.
    destruct (Z.ltb_spec (2 * (n mod d)) d), (Z.ltb_spec (2 * (n' mod d)) d);
      try lia.
    + destruct (Z.ltb_spec d (2 * (n' mod d))); [lia |].
      destruct (Z.even (n' / d)); lia.
    + destruct (Z.ltb_spec d (2 * (n mod d))), (Z.ltb_spec d (2 * (n' mod d)));
        try lia; destruct (Z.even (n' / d)); lia.
  - destruct (rne_cases n d Hd) as [_ [_ [[_ ->] | [_ ->]]]];
      destruct (rne_cases n' d Hd) as [_ [_ [[_ ->] | [_ ->]]]]; lia.
Qed.

Lemma rne_nonneg n d : 0 < d -> 0 <= n -> 0 <= rne n d.
Proof.
  intros Hd Hn. replace 0 with (rne (0 * d) d) at 1 by (by apply rne_exact).
  apply rne_mono; lia.
Qed.

(* --------------------------------------------------------------------- *)
(** ** Rounding to 24 bits *)

Lemma scale_nonneg q : 0 <= scale q.
Proof. unfold scale. lia. Qed.

Lemma scale_mono q q' : q <= q' -> scale q <= scale q'.
Proof. intros H. unfold scale. pose proof (Z.log2_le_mono q q' H). lia. Qed.

Lemma round_pos_unfold n d : round_pos n d = rne n (d * 2 ^ scale (n / d)) * 2 ^ scale (n / d).
Proof. reflexivity. Qed.

Lemma round_pos_nonneg n d : 0 < d -> 0 <= n -> 0 <= round_pos n d.
Proof.
  intros Hd Hn. rewrite round_pos_unfold.
  pose proof (scale_nonneg (n / d)). 
  assert (0 < 2 ^ scale (n / d)) by (apply Z.pow_pos_nonneg; lia).
  apply Z.mul_nonneg_nonneg; [| lia]. apply rne_nonneg; nia.
Qed.

(** A number of units that 24 bits can hold is not changed. *)
Lemma round_pos_exact m j d :
  0 < d -> 0 <= j -> 0 <= m < 2 ^ 24 -> round_pos (m * 2 ^ j * d) d = m * 2 ^ j.
Proof.
  intros Hd Hj Hm. rewrite round_pos_unfold, Z.div_mul by lia.
  set (k := scale (m * 2 ^ j)).
  assert (Hk : 0 <= k <= j).
  { subst k. unfold scale. destruct (Z.eq_dec m 0) as [-> | Hne].
    - rewrite Z.mul_0_l. cbn. lia.
    - rewrite Z.log2_mul_pow2 by lia.
      assert (Z.log2 m < 24) by (apply Z.log2_lt_pow2; lia). lia. }
  assert (Hp : 2 ^ j = 2 ^ (j - k) * 2 ^ k) by (rewrite <- Z.pow_add_r by lia; f_equal; lia).
  assert (0 < 2 ^ k) by (apply Z.pow_pos_nonneg; lia).
  replace (m * 2 ^ j * d) with (m * 2 ^ (j - k) * (d * 2 ^ k)) by (rewrite Hp; ring).
  rewrite rne_exact by nia. rewrite Hp. ring.
Qed.

(** Nothing that 24 bits can hold lies between a quotient and its
    rounding. *)
Lemma round_pos_le n d m j :
  0 < d -> 0 <= n -> 0 <= j -> 0 <= m < 2 ^ 24 ->
  n <= m * 2 ^ j * d -> round_pos n d <= m * 2 ^ j.
Proof.
  intros Hd Hn Hj Hm Hle. rewrite round_pos_unfold.
  set (k := scale (n / d)).
  assert (0 < 2 ^ j) by (apply Z.pow_pos_nonneg; lia).
  assert (Hq : n / d <= m * 2 ^ j).
  { apply Z.div_le_upper_bound; [done |]. lia. }
  assert (Hk : 0 <= k <= j).
  { subst k. split; [apply scale_nonneg |].
    etransitivity; [apply (scale_mono _ _ Hq) |].
    unfold scale. destruct (Z.eq_dec m 0) as [-> | Hne].
    - rewrite Z.mul_0_l. cbn. lia.
    - rewrite Z.log2_mul_pow2 by lia.
      assert (Z.log2 m < 24) by (apply Z.log2_lt_pow2; lia). lia. }
  assert (Hp : 2 ^ j = 2 ^ (j - k) * 2 ^ k) by (rewrite <- Z.pow_add_r by lia; f_equal; lia).
  assert (0 < 2 ^ k) by (apply Z.pow_pos_nonneg; lia).
  assert (Hr : rne n (d * 2 ^ k) <= m * 2 ^ (j - k)).
  { rewrite <- (rne_exact (m * 2 ^ (j - k)) (d * 2 ^ k)) by nia.
    apply rne_mono; [nia |]. rewrite Hp in Hle. lia. }
  rewrite Hp. nia.
Qed.

Lemma round_pos_mono n n' d :
  0 < d -> 0 <= n <= n' -> round_pos n d <= round_pos n' d.
Proof.
  intros Hd Hn.
  assert (Hq : n / d <= n' / d) by (apply Z.div_le_mono; lia).
  pose proof (scale_mono _ _ Hq) as Hk.
  destruct (Z.eq_dec (scale (n / d)) (scale (n' / d))) as [Heq | Hne].
  - rewrite !round_pos_unfold, Heq.
    pose proof (scale_nonneg (n' / d)).
    assert (0 < 2 ^ scale (n' / d)) by (apply Z.pow_pos_nonneg; lia).
    apply Z.mul_le_mono_nonneg_r; [lia |]. apply rne_mono; [nia | lia].
  - (* a power of two lies between the two quotients *)
    set (k' := scale (n' / d)) in *.
    assert (Hk' : 0 < k') by (pose proof (scale_nonneg (n / d)); lia).
    assert (Hlog' : Z.log2 (n' / d) = k' + 23) by (subst k'; unfold scale in *; lia).
    assert (Hq' : 0 < n' / d).
    { destruct (Z.le_gt_cases (n' / d) 0) as [Hle |]; [| done].
      rewrite (Z.log2_nonpos _ Hle) in Hlog'. lia. }
    assert (Hlow : 2 ^ (k' + 23) <= n' / d).
    { rewrite <- Hlog'. by apply Z.log2_spec. }
    assert (Hlt : n / d < 2 ^ (k' + 23)).
    { destruct (Z.le_gt_cases (n / d) 0) as [Hle | Hpos].
      - assert (0 < 2 ^ (k' + 23)) by (apply Z.pow_pos_nonneg; lia). lia.
      - apply Z.log2_lt_pow2; [done |]. unfold scale in Hne, Hk. lia. }
    assert (Hp : 2 ^ (k' + 23) = 2 ^ 23 * 2 ^ k') by (rewrite <- Z.pow_add_r by lia; f_equal; lia).
    assert (0 < 2 ^ k') by (apply Z.pow_pos_nonneg; lia).
    transitivity (2 ^ 23 * 2 ^ k').
    + apply round_pos_le; [done | lia | lia | lia |].
      rewrite <- Hp.
      pose proof (Z.div_mod n d ltac:(lia)). pose proof (Z.mod_pos_bound n d Hd). nia.
    + rewrite round_pos_unfold. fold k'.
      apply Z.mul_le_mono_nonneg_r; [lia |].
      rewrite <- (rne_exact (2 ^ 23) (d * 2 ^ k')) at 1 by nia.
      apply rne_mono; [nia |].
      pose proof (Z.div_mod n' d ltac:(lia)). pose proof (Z.mod_pos_bound n' d Hd).
      rewrite Hp in Hlow. nia.
Qed.

Lemma round_pos_ge n d m j :
  0 < d -> 0 <= j -> 0 <= m < 2 ^ 24 ->
  m * 2 ^ j * d <= n -> m * 2 ^ j <= round_pos n d.
Proof.
  intros Hd Hj Hm Hle. rewrite <- (round_pos_exact m j d) at 1 by done.
  assert (0 < 2 ^ j) by (apply Z.pow_pos_nonneg; lia).
  apply round_pos_mono; [done | nia].
Qed.

(** The error of a rounding: at most half a unit below 2^24 units, at
    most one part in 2^24 of the quotient above. *)
Lemma round_pos_error n d :
  0 < d -> 0 <= n ->
  - (n + 2 ^ 23 * d) <= 2 ^ 24 * (round_pos n d * d - n) <= n + 2 ^ 23 * d.
Proof.
  intros Hd Hn. rewrite round_pos_unfold.
  set (k := scale (n / d)).
  pose proof (scale_nonneg (n / d)) as Hk0. fold k in Hk0.
  assert (H2k : 0 < 2 ^ k) by (apply Z.pow_pos_nonneg; lia).
  pose proof (rne_near n (d * 2 ^ k) ltac:(nia)) as Hnear.
  set (r := rne n (d * 2 ^ k)) in *.
  replace (r * 2 ^ k * d - n) with (r * (d * 2 ^ k) - n) by ring.
  destruct (Z.eq_dec k 0) as [Hz | Hnz].
  - rewrite Hz in *. change (2 ^ 0) with 1 in *. lia.
  - assert (Hlog : Z.log2 (n / d) = k + 23) by (subst k; unfold scale in *; lia).
    assert (Hq : 0 < n / d).
    { destruct (Z.le_gt_cases (n / d) 0) as [Hle |]; [| done].
      rewrite (Z.log2_nonpos _ Hle) in Hlog. lia. }
    assert (Hlow : 2 ^ (k + 23) <= n / d) by (rewrite <- Hlog; by apply Z.log2_spec).
    assert (Hp : 2 ^ (k + 23) = 2 ^ 23 * 2 ^ k)
      by (rewrite <- Z.pow_add_r by lia; f_equal; lia).
    pose proof (Z.div_mod n d ltac:(lia)). pose proof (Z.mod_pos_bound n d Hd).
    assert (2 ^ 23 * (d * 2 ^ k) <= n) by (rewrite Hp in Hlow; nia).
    lia.
Qed.

(** An integer is rounded with an error of at most one part in 2^24. *)
Lemma round_pos_error_int n :
  0 <= n -> - n <= 2 ^ 24 * (round_pos n 1 - n) <= n.
Proof.
  intros Hn. rewrite round_pos_unfold, Z.div_1_r.
  set (k := scale n).
  pose proof (scale_nonneg n) as Hk0. fold k in Hk0.
  assert (H2k : 0 < 2 ^ k) by (apply Z.pow_pos_nonneg; lia).
  pose proof (rne_near n (1 * 2 ^ k) ltac:(nia)) as Hnear.
  set (r := rne n (1 * 2 ^ k)) in *.
  destruct (Z.eq_dec k 0) as [Hz | Hnz].
  - subst r. rewrite Hz. change (1 * 2 ^ 0) with 1.
    pose proof (rne_exact n 1 ltac:(lia)) as He. rewrite Z.mul_1_r in He.
    rewrite He. lia.
  - assert (Hlog : Z.log2 n = k + 23) by (subst k; unfold scale in *; lia).
    assert (Hq : 0 < n).
    { destruct (Z.le_gt_cases n 0) as [Hle |]; [| done].
      rewrite (Z.log2_nonpos _ Hle) in Hlog. lia. }
    assert (Hlow : 2 ^ (k + 23) <= n) by (rewrite <- Hlog; by apply Z.log2_spec).
    assert (Hp : 2 ^ (k + 23) = 2 ^ 23 * 2 ^ k)
      by (rewrite <- Z.pow_add_r by lia; f_equal; lia).
    rewrite Hp in Hlow. nia.
Qed.

End Binary32Facts.

(* ===================================================================== *)
(** * The fade of an overlay message, operation by operation *)
(* ===================================================================== *)

Module FadeFacts.
Import Binary32 Binary32Facts overlay_simple Vocabulary.

Local Open Scope Z_scope.

Lemma literal_08 : literal 8 10 = Fin c08.
Proof. vm_compute. reflexivity. Qed.

Lemma literal_02 : literal 2 10 = Fin c02.
Proof. vm_compute. reflexivity. Qed.

Lemma one_units_pos : 0 < one_units.
Proof. reflexivity. Qed.

(** A rounding that does not overflow. *)
Lemma round_nonneg_small n d :
  0 < d -> 0 <= n -> round_pos n d < overflow_units -> round n d = Fin (round_pos n d).
Proof.
  intros Hd Hn Hs. unfold round. rewrite Z.abs_eq by done.
  destruct (Z.leb_spec overflow_units (round_pos n d)); [lia |].
  destruct (Z.ltb_spec n 0); [lia | done].
Qed.

(** A quotient of at most 2^p, for [23 <= p], rounds to at most 2^p. *)
Lemma round_pos_le_pow2 n d p :
  0 < d -> 0 <= n -> 23 <= p -> n <= 2 ^ p * d -> round_pos n d <= 2 ^ p.
Proof.
  intros Hd Hn Hp Hle.
  assert (E : 2 ^ p = 2 ^ 23 * 2 ^ (p - 23))
    by (rewrite <- Z.pow_add_r by lia; f_equal; lia).
  rewrite E in *. apply round_pos_le; try lia.
Qed.

Lemma round_pos_ge_pow2 n d p :
  0 < d -> 23 <= p -> 2 ^ p * d <= n -> 2 ^ p <= round_pos n d.
Proof.
  intros Hd Hp Hle.
  assert (E : 2 ^ p = 2 ^ 23 * 2 ^ (p - 23))
    by (rewrite <- Z.pow_add_r by lia; f_equal; lia).
  rewrite E in *. apply round_pos_ge; try lia.
Qed.

(** The conversion of a [DWORD]. *)
Lemma of_Z_DWORD z :
  0 <= z < 2 ^ 32 ->
  of_Z z = Fin (round_pos (z * one_units) 1)
  /\ 0 <= round_pos (z * one_units) 1 <= 2 ^ 181.
Proof.
  intros Hz. pose proof one_units_pos.
  assert (Hb : 0 <= round_pos (z * one_units) 1 <= 2 ^ 181).
  { split; [apply round_pos_nonneg; nia |].
    apply round_pos_le_pow2; [lia | nia | lia |].
    change (2 ^ 181) with (2 ^ 32 * one_units). nia. }
  split; [| done]. unfold of_Z. apply round_nonneg_small; [lia | nia |].
  unfold overflow_units. assert (2 ^ 181 < 2 ^ 277) by reflexivity. lia.
Qed.

Section Chain.
Variables e D : Z.
Hypothesis HD : 0 < D < 2 ^ 32.
Hypothesis He : 0 <= e <= D.

Let A := round_pos (e * one_units) 1.
Let B := round_pos (D * one_units) 1.
Let T := round_pos (A * one_units) B.
Let S := round_pos (T - c08) 1.
Let Qo := round_pos (S * one_units) c02.
Let Al := round_pos (one_units - Qo) 1.

Lemma chain_A : 0 <= A <= B.
Proof using HD He.
  pose proof one_units_pos. split.
  - apply round_pos_nonneg; nia.
  - apply round_pos_mono; nia.
Qed.

Lemma chain_B : one_units <= B.
Proof using HD He.
  pose proof one_units_pos. apply (round_pos_ge_pow2 _ 1 149); [lia | lia |].
  change (2 ^ 149) with one_units. nia.
Qed.

Lemma chain_T : 0 <= T <= one_units.
Proof using HD He.
  pose proof one_units_pos. pose proof chain_A. pose proof chain_B. split.
  - apply round_pos_nonneg; nia.
  - apply (round_pos_le_pow2 _ _ 149); [lia | nia | lia |].
    change (2 ^ 149) with one_units. nia.
Qed.

Lemma chain_S : c08 < T -> 0 <= S <= 3355443 * 2 ^ 125.
Proof using HD He.
  intros Hgt. pose proof chain_T. split.
  - apply round_pos_nonneg; lia.
  - apply round_pos_le; try lia.
    assert (one_units - c08 = 3355443 * 2 ^ 125) by reflexivity. lia.
Qed.

Lemma chain_Q : c08 < T -> 0 <= Qo <= one_units.
Proof using HD He.
  intros Hgt. pose proof (chain_S Hgt) as HS. pose proof one_units_pos.
  assert (0 < c02) by reflexivity. split.
  - apply round_pos_nonneg; nia.
  - apply (round_pos_le_pow2 _ _ 149); [lia | nia | lia |].
    change (2 ^ 149) with one_units.
    assert (3355443 * 2 ^ 125 <= c02) by (vm_compute; discriminate). nia.
Qed.

Lemma chain_Al : c08 < T -> 0 <= Al <= one_units.
Proof using HD He.
  intros Hgt. pose proof (chain_Q Hgt). split.
  - apply round_pos_nonneg; lia.
  - apply (round_pos_le_pow2 _ _ 149); [lia | lia | lia |].
    change (2 ^ 149) with one_units. lia.
Qed.

End Chain.

Lemma small_no_overflow x : x <= one_units -> x < overflow_units.
Proof. intros H. assert (one_units < overflow_units) by reflexivity. lia. Qed.

(** The fade of a drawn message is [fade_units] of its elapsed time
    and duration. *)
Lemma fade_is_fade_units t it :
  0 < a_duration it < 2 ^ 32 -> elapsed t it <= a_duration it ->
  fade t it = Fin (fade_units (elapsed t it) (a_duration it)).
Proof.
  set (e := elapsed t it). set (D := a_duration it). intros HD He.
  assert (He0 : 0 <= e <= D).
  { split; [| done]. subst e. unfold elapsed, to_DWORD, DWORD_modulus.
    apply Z.mod_pos_bound. lia. }
  pose proof one_units_pos as HU.
  pose proof (chain_A e D HD He0) as HA. pose proof (chain_B e D HD He0) as HB.
  pose proof (chain_T e D HD He0) as HT.
  unfold fade, fade_units. fold e D.
  destruct (of_Z_DWORD e ltac:(lia)) as [-> _].
  destruct (of_Z_DWORD D ltac:(lia)) as [-> _].
  cbv zeta in *.
  set (A := round_pos (e * one_units) 1) in *.
  set (B := round_pos (D * one_units) 1) in *.
  set (T := round_pos (A * one_units) B) in *.
  assert (Htp : div (Fin A) (Fin B) = Fin T).
  { unfold div. destruct (Z.eqb_spec B 0); [lia |].
    destruct (Z.ltb_spec 0 B); [| lia].
    apply round_nonneg_small; [lia | nia |]. apply small_no_overflow. subst T. lia. }
  rewrite Htp, literal_08, literal_02. cbn [gt].
  destruct (Z.ltb_spec c08 T) as [Hgt | Hle].
  - pose proof (chain_S e D HD He0 Hgt) as HS.
    pose proof (chain_Q e D HD He0 Hgt) as HQ.
    pose proof (chain_Al e D HD He0 Hgt) as HAl.
    cbv zeta in *. fold A B T in HS, HQ, HAl.
    set (S := round_pos (T - c08) 1) in *.
    set (Qo := round_pos (S * one_units) c02) in *.
    set (Al := round_pos (one_units - Qo) 1) in *.
    assert (Hs : sub (Fin T) (Fin c08) = Fin S).
    { unfold sub. apply round_nonneg_small; [lia | lia |].
      apply small_no_overflow. assert (3355443 * 2 ^ 125 <= one_units) by (vm_compute; discriminate).
      lia. }
    assert (Hq : div (Fin S) (Fin c02) = Fin Qo).
    { unfold div. change (c02 =? 0) with false. change (0 <? c02) with true. cbv iota.
      apply round_nonneg_small; [reflexivity | nia |]. apply small_no_overflow. lia. }
    assert (Ha : sub one (Fin Qo) = Fin Al).
    { unfold sub, one. apply round_nonneg_small; [lia | lia |].
      apply small_no_overflow. lia. }
    rewrite Hs, Hq, Ha. unfold min, max, lt, gt, one, zero.
    destruct (Z.ltb_spec one_units Al); [lia |].
    destruct (Z.ltb_spec Al 0); [lia | done].
  - unfold min, max, lt, gt, one, zero.
    rewrite Z.ltb_irrefl. destruct (Z.ltb_spec one_units 0); [lia | done].
Qed.

(* --------------------------------------------------------------------- *)
(** ** The two exact cases *)

(** At the full duration the quotient is exactly 1 and the fade is one
    unit in the last place of 1, not 0. *)
Lemma fade_units_at_end D : 0 < D < 2 ^ 32 -> fade_units D D = 2 ^ 125.
Proof.
  intros HD. unfold fade_units. cbv zeta.
  pose proof (chain_B D D HD ltac:(lia)) as HB. cbv zeta in HB.
  set (B := round_pos (D * one_units) 1) in *.
  assert (HT : round_pos (B * one_units) B = one_units).
  { pose proof (round_pos_exact (2 ^ 23) 126 B ltac:(pose proof one_units_pos; lia)
                  ltac:(lia) ltac:(lia)) as E.
    change (2 ^ 23 * 2 ^ 126) with one_units in E.
    by rewrite (Z.mul_comm B one_units). }
  rewrite HT. vm_compute. reflexivity.
Qed.

(** A [DWORD] below 2^24 is converted exactly. *)
Lemma round_pos_small_int z :
  0 <= z < 2 ^ 24 -> round_pos (z * one_units) 1 = z * one_units.
Proof.
  intros Hz. pose proof (round_pos_exact z 149 1 ltac:(lia) ltac:(lia) Hz) as E.
  change (2 ^ 149) with one_units in E. by rewrite Z.mul_1_r in E.
Qed.

(** With a duration below 2^24 ms the fade is exactly 1 up to four
    fifths of the duration. *)
Lemma fade_units_full e D :
  0 < D < 2 ^ 24 -> 0 <= e -> 5 * e <= 4 * D -> fade_units e D = one_units.
Proof.
  intros HD He H45. unfold fade_units. cbv zeta.
  rewrite !round_pos_small_int by lia.
  pose proof one_units_pos as HU.
  assert (HT : round_pos (e * one_units * one_units) (D * one_units) <= c08).
  { apply (round_pos_le _ _ 13421773 125); [nia | nia | lia | lia |].
    fold c08.
    assert (Hc : 5 * c08 = 4 * one_units + 2 ^ 125) by reflexivity.
    assert (5 * (e * one_units * one_units) <= 5 * (c08 * (D * one_units))); [| lia].
    replace (5 * (c08 * (D * one_units))) with ((5 * c08) * (D * one_units)) by ring.
    rewrite Hc. assert (0 <= 2 ^ 125 * (D * one_units)) by nia.
    assert (5 * (e * one_units * one_units) <= 4 * one_units * (D * one_units)); [| lia].
    replace (5 * (e * one_units * one_units)) with ((5 * e) * (one_units * one_units)) by ring.
    replace (4 * one_units * (D * one_units)) with ((4 * D) * (one_units * one_units)) by ring.
    apply Z.mul_le_mono_nonneg_r; nia. }
  destruct (Z.ltb_spec c08 (round_pos (e * one_units * one_units) (D * one_units))); [lia | done].
Qed.

(* --------------------------------------------------------------------- *)
(** ** The error of the fade *)

Section Error.
Local Open Scope Q_scope.

Lemma Uq_pos : 0 < inject_Z one_units.
Proof. reflexivity. Qed.

Lemma Uq_nonzero : ~ inject_Z one_units == 0.
Proof. discriminate. Qed.

Lemma v_le x y : (x <= y)%Z -> v x <= v y.
Proof.
  intros H. unfold v, Qdiv. apply Qmult_le_compat_r.
  - by rewrite <- Zle_Qle.
  - apply Qlt_le_weak, Qinv_lt_0_compat, Uq_pos.
Qed.

Lemma v_0 : v 0 == 0.
Proof. reflexivity. Qed.

Lemma v_one : v one_units == 1.
Proof. reflexivity. Qed.

Lemma v_int z : v (z * one_units) == inject_Z z.
Proof. unfold v. rewrite inject_Z_mult. field. apply Uq_nonzero. Qed.

Lemma v_sub x y : v (x - y) == v x - v y.
Proof.
  unfold v, Zminus. rewrite inject_Z_plus, inject_Z_opp. field. apply Uq_nonzero.
Qed.

(** The rounding of an integer number of units, in values. *)
Lemma round_int_value n :
  (0 <= n)%Z ->
  - (eps * v n) <= v (round_pos n 1) - v n /\ v (round_pos n 1) - v n <= eps * v n.
Proof.
  intros Hn. destruct (round_pos_error_int n Hn) as [H1 H2].
  set (R := round_pos n 1) in *.
  apply v_le in H1, H2.
  assert (E1 : v (- n) == - v n).
  { unfold v. rewrite inject_Z_opp. field. apply Uq_nonzero. }
  assert (E2 : v (2 ^ 24 * (R - n)) == (2 ^ 24 # 1) * (v R - v n)).
  { unfold v, Zminus. rewrite inject_Z_mult, inject_Z_plus, inject_Z_opp.
    change (inject_Z (2 ^ 24)) with (2 ^ 24 # 1). field. apply Uq_nonzero. }
  rewrite E1, E2 in H1. rewrite E2 in H2. unfold eps.
  change (2 ^ 24 # 1) with (16777216 # 1) in *.
  change (1 # 2 ^ 24) with (1 # 16777216).
  split; lra.
Qed.

(** The rounding of a quotient of two numbers of units, in values. *)
Lemma round_div_value x y :
  (0 <= x)%Z -> (0 < y)%Z ->
  let r := v (round_pos (x * one_units) y) in
  - (eps * v x + half_unit * v y) <= r * v y - v x
  /\ r * v y - v x <= eps * v x + half_unit * v y.
Proof.
  intros Hx Hy. cbv zeta.
  destruct (round_pos_error (x * one_units) y Hy ltac:(pose proof one_units_pos; nia))
    as [H1 H2].
  set (R := round_pos (x * one_units) y) in *.
  rewrite Zle_Qle in H1, H2. unfold Zminus in H1, H2.
  repeat first [ rewrite inject_Z_plus in H1 | rewrite inject_Z_mult in H1
               | rewrite inject_Z_opp in H1 ].
  repeat first [ rewrite inject_Z_plus in H2 | rewrite inject_Z_mult in H2
               | rewrite inject_Z_opp in H2 ].
  change (inject_Z (2 ^ 24)) with (16777216 # 1) in *.
  change (inject_Z (2 ^ 23)) with (8388608 # 1) in *.
  set (Rq := inject_Z R) in *. set (xq := inject_Z x) in *. set (yq := inject_Z y) in *.
  set (Uq := inject_Z one_units) in *.
  assert (HU : ~ Uq == 0) by apply Uq_nonzero.
  set (k := / Uq * / Uq * (1 # 16777216)).
  assert (Hk : 0 <= k).
  { subst k. assert (0 < / Uq) by (apply Qinv_lt_0_compat, Uq_pos).
    apply Qmult_le_0_compat; [| done]. apply Qmult_le_0_compat; by apply Qlt_le_weak. }
  assert (E1 : v R * v y - v x == ((16777216 # 1) * (Rq * yq + - (xq * Uq))) * k).
  { unfold v, k. fold Rq yq xq Uq. field. done. }
  assert (E2 : eps * v x + half_unit * v y == (xq * Uq + (8388608 # 1) * yq) * k).
  { unfold v, k, eps, half_unit. fold Rq yq xq Uq.
    change (1 # 2 ^ 24) with (1 # 16777216). field. done. }
  rewrite E1, E2. split.
  - assert (E3 : - ((xq * Uq + (8388608 # 1) * yq) * k)
                 == (- (xq * Uq + (8388608 # 1) * yq)) * k) by ring.
    rewrite E3. by apply Qmult_le_compat_r.
  - by apply Qmult_le_compat_r.
Qed.

Lemma scaled_within (t y c : Q) :
  0 <= t -> t <= 1 -> - c <= y -> y <= c -> - c <= t * y /\ t * y <= c.
Proof. intros. split; nra. Qed.

Lemma mul_le (u x y : Q) : 0 <= u -> x <= y -> u * x <= u * y.
Proof. intros. nra. Qed.

Lemma cancel_pos (D x y : Q) : 0 < D -> x * D <= y * D -> x <= y.
Proof. intros. nra. Qed.

(** [timeProgress] against the exact quotient. *)
Lemma tp_error (e D a b t u h : Q) :
  0 < D -> 0 <= e -> e <= D -> 0 <= u -> u <= 1 # 100 -> 0 <= h -> h <= u * (1 # 10) ->
  - (u * e) <= a - e -> a - e <= u * e ->
  - (u * D) <= b - D -> b - D <= u * D ->
  0 <= t -> t <= 1 ->
  - (u * a + h * b) <= t * b - a -> t * b - a <= u * a + h * b ->
  - (4 * u * D) <= t * D - e /\ t * D - e <= 4 * u * D.
Proof.
  intros HD He0 He Hu0 Hu Hh0 Hh Ha1 Ha2 Hb1 Hb2 Ht0 Ht1 Ht2 Ht3.
  destruct (scaled_within t (b - D) (u * D) Ht0 Ht1 Hb1 Hb2) as [P1 P2].
  assert (Hue : u * e <= u * D) by (by apply mul_le).
  assert (Hue0 : 0 <= u * e) by nra.
  assert (HuD : u * D <= D) by nra.
  assert (Ha : a <= 2 * D) by lra.
  assert (Ha0 : 0 <= a) by nra.
  assert (Hb : b <= 2 * D) by lra.
  assert (Hb0 : 0 <= b) by lra.
  assert (Hua : u * a <= (101 # 100) * (u * D)).
  { pose proof (mul_le u a (D + u * D) Hu0 ltac:(lra)).
    assert (u * (u * D) <= (1 # 100) * (u * D)) by nra. lra. }
  assert (Hua0 : 0 <= u * a) by nra.
  assert (Hhb : h * b <= h * (2 * D)) by (by apply mul_le).
  assert (Hhb0 : 0 <= h * b) by nra.
  assert (HhD : h * (2 * D) <= (1 # 5) * (u * D)) by nra.
  assert (Hexp : t * (b - D) == t * b - t * D) by ring.
  rewrite Hexp in P1, P2. split; lra.
Qed.

(** The faded alpha against the line through [timeProgress]. *)
Lemma fade_step_error (t s q al u h c8 c2 : Q) :
  0 <= u -> u <= 1 # 100 -> 0 <= h -> h <= u * (1 # 10) ->
  c8 == (4 # 5) + u * (1 # 5) -> c2 == (1 # 5) + u * (1 # 20) ->
  c8 <= t -> t <= 1 ->
  - (u * (t - c8)) <= s - (t - c8) -> s - (t - c8) <= u * (t - c8) ->
  0 <= q -> q <= 1 ->
  - (u * s + h * c2) <= q * c2 - s -> q * c2 - s <= u * s + h * c2 ->
  - (u * (1 - q)) <= al - (1 - q) -> al - (1 - q) <= u * (1 - q) ->
  - (8 * u) <= al - (5 - 5 * t) /\ al - (5 - 5 * t) <= 8 * u.
Proof.
  intros Hu0 Hu Hh0 Hh Hc8 Hc2 Hgt Ht1 Hs1 Hs2 Hq0 Hq1 Hq2 Hq3 Ha1 Ha2.
  assert (Hd0 : 0 <= t - c8) by lra.
  assert (Hd1 : t - c8 <= 1 # 5) by lra.
  assert (Hud0 : 0 <= u * (t - c8)) by nra.
  assert (Hud1 : u * (t - c8) <= u * (1 # 5)) by (by apply mul_le).
  assert (Hs0 : 0 <= s) by nra.
  assert (Hs1' : s <= 1 # 4) by lra.
  assert (Hus0 : 0 <= u * s) by nra.
  assert (Hus1 : u * s <= u * (1 # 4)) by (by apply mul_le).
  assert (Hc2' : 0 <= c2 /\ c2 <= 1) by (rewrite Hc2; split; lra).
  destruct Hc2' as [Hc20 Hc21].
  assert (Hhc0 : 0 <= h * c2) by nra.
  assert (Hhc1 : h * c2 <= u * (1 # 10)) by nra.
  assert (Huq0 : 0 <= u * q) by nra.
  assert (Huq1 : u * q <= u) by nra.
  assert (Hu1q0 : 0 <= u * (1 - q)) by nra.
  assert (Hu1q1 : u * (1 - q) <= u) by nra.
  assert (E : q * c2 == q * (1 # 5) + (u * q) * (1 # 20)) by (rewrite Hc2; ring).
  rewrite E in Hq2, Hq3. split; lra.
Qed.

End Error.

Lemma fade_units_error e D :
  0 < D < 2 ^ 32 -> 0 <= e <= D ->
  (ideal_fade e D - (1 # 2 ^ 19) <= v (fade_units e D)
   /\ v (fade_units e D) <= ideal_fade e D + (1 # 2 ^ 19))%Q.
Proof.
  intros HD He.
  pose proof one_units_pos as HU.
  pose proof (chain_A e D HD He) as HA. pose proof (chain_B e D HD He) as HB.
  pose proof (chain_T e D HD He) as HT.
  pose proof (chain_S e D HD He) as HS. pose proof (chain_Q e D HD He) as HQ.
  pose proof (chain_Al e D HD He) as HAl.
  unfold fade_units. cbv zeta in *.
  set (A := round_pos (e * one_units) 1) in *.
  set (B := round_pos (D * one_units) 1) in *.
  set (T := round_pos (A * one_units) B) in *.
  (* the conversions and the quotient *)
  destruct (round_int_value (e * one_units) ltac:(nia)) as [Fa1 Fa2]. fold A in Fa1, Fa2.
  destruct (round_int_value (D * one_units) ltac:(nia)) as [Fb1 Fb2]. fold B in Fb1, Fb2.
  rewrite v_int in Fa1, Fa2, Fb1, Fb2.
  destruct (round_div_value A B ltac:(lia) ltac:(lia)) as [Ft1 Ft2]. fold T in Ft1, Ft2.
  assert (Ht0 : (0 <= v T)%Q) by (rewrite <- v_0; apply v_le; lia).
  assert (Ht1 : (v T <= 1)%Q) by (rewrite <- v_one; apply v_le; lia).
  assert (HDq : (0 < inject_Z D)%Q) by (unfold Qlt; cbn; lia).
  assert (He0q : (0 <= inject_Z e)%Q) by (unfold Qle; cbn; lia).
  assert (Heq : (inject_Z e <= inject_Z D)%Q) by (rewrite <- Zle_Qle; lia).
  assert (Hu : (eps <= 1 # 100)%Q) by discriminate.
  assert (Hu0 : (0 <= eps)%Q) by discriminate.
  assert (Hh : (half_unit <= eps * (1 # 10))%Q) by discriminate.
  assert (Hh0 : (0 <= half_unit)%Q) by discriminate.
  destruct (tp_error (inject_Z e) (inject_Z D) (v A) (v B) (v T) eps half_unit
              HDq He0q Heq Hu0 Hu Hh0 Hh Fa1 Fa2 Fb1 Fb2 Ht0 Ht1 Ft1 Ft2) as [P1 P2].
  assert (Hc8 : (v c08 == (4 # 5) + eps * (1 # 5))%Q) by reflexivity.
  assert (Hc2 : (v c02 == (1 # 5) + eps * (1 # 20))%Q) by reflexivity.
  assert (H19 : ((1 # 2 ^ 19) == 32 * eps)%Q) by reflexivity.
  rewrite H19.
  set (eq := inject_Z e) in *. set (Dq := inject_Z D) in *.
  (* the line at the exact quotient *)
  assert (Hi : forall i, (i * Dq == 5 * (Dq - eq) ->
                 - (20 * eps) <= (5 - 5 * v T) - i /\ (5 - 5 * v T) - i <= 20 * eps)%Q).
  { intros i Ei. split; apply (cancel_pos Dq); try done.
    - assert (E : ((5 - 5 * v T - i) * Dq == 5 * Dq - 5 * (v T * Dq) - i * Dq)%Q) by ring.
      rewrite E, Ei. lra.
    - assert (E : ((5 - 5 * v T - i) * Dq == 5 * Dq - 5 * (v T * Dq) - i * Dq)%Q) by ring.
      rewrite E, Ei. lra. }
  assert (Hideal : (5 * eq <= 4 * Dq /\ ideal_fade e D == 1
                    \/ 4 * Dq < 5 * eq /\ ideal_fade e D * Dq == 5 * (Dq - eq))%Q).
  { unfold ideal_fade. destruct (Z.leb_spec (5 * e) (4 * D)) as [H45 | H45].
    - left. split; [| reflexivity].
      rewrite Zle_Qle, !inject_Z_mult in H45. exact H45.
    - right. split.
      + rewrite Zlt_Qlt, !inject_Z_mult in H45. exact H45.
      + unfold Zminus. rewrite inject_Z_plus, inject_Z_opp. fold eq Dq. field.
        intros E. rewrite E in HDq. by apply Qlt_irrefl in HDq. }
  destruct (Z.ltb_spec c08 T) as [Hgt | Hle].
  - (* the code fades *)
    specialize (HS Hgt). specialize (HQ Hgt). specialize (HAl Hgt).
    set (S := round_pos (T - c08) 1) in *.
    set (Qo := round_pos (S * one_units) c02) in *.
    set (Al := round_pos (one_units - Qo) 1) in *.
    destruct (round_int_value (T - c08) ltac:(lia)) as [Fs1 Fs2]. fold S in Fs1, Fs2.
    rewrite v_sub in Fs1, Fs2.
    destruct (round_div_value S c02 ltac:(lia) ltac:(reflexivity)) as [Fq1 Fq2].
    fold Qo in Fq1, Fq2.
    destruct (round_int_value (one_units - Qo) ltac:(lia)) as [Fl1 Fl2]. fold Al in Fl1, Fl2.
    rewrite v_sub, v_one in Fl1, Fl2.
    assert (Hq0 : (0 <= v Qo)%Q) by (rewrite <- v_0; apply v_le; lia).
    assert (Hq1 : (v Qo <= 1)%Q) by (rewrite <- v_one; apply v_le; lia).
    assert (Hal1 : (v Al <= 1)%Q) by (rewrite <- v_one; apply v_le; lia).
    assert (Hgtq : (v c08 <= v T)%Q) by (apply v_le; lia).
    destruct (fade_step_error (v T) (v S) (v Qo) (v Al) eps half_unit (v c08) (v c02)
                Hu0 Hu Hh0 Hh Hc8 Hc2 Hgtq Ht1 Fs1 Fs2 Hq0 Hq1 Fq1 Fq2 Fl1 Fl2)
      as [L1 L2].
    destruct Hideal as [[H45 ->] | [H45 Ei]].
    + (* the line has not started to fall *)
      assert (P2' : (5 * (v T * Dq) <= 4 * Dq + 20 * eps * Dq)%Q) by lra.
      assert (Ht : (5 * v T <= 4 + 20 * eps)%Q).
      { apply (cancel_pos Dq); [done |]. 
        assert (E1 : (5 * v T * Dq == 5 * (v T * Dq))%Q) by ring.
        assert (E2 : ((4 + 20 * eps) * Dq == 4 * Dq + 20 * eps * Dq)%Q) by ring.
        rewrite E1, E2. exact P2'. }
      split; lra.
    + destruct (Hi _ Ei) as [I1 I2]. split; lra.
  - (* the code does not fade *)
    rewrite v_one.
    destruct Hideal as [[H45 ->] | [H45 Ei]]; [split; lra |].
    destruct (Hi _ Ei) as [I1 I2].
    assert (Hleq : (v T <= v c08)%Q) by (apply v_le; lia).
    assert (Hlt1 : (ideal_fade e D <= 1)%Q).
    { apply (cancel_pos Dq); [done |]. rewrite Ei. lra. }
    split; lra.
Qed.

End FadeFacts.

(* ===================================================================== *)
(** * Properties of the overlay's message lifetime ([overlay_simple.cpp]) *)
(* ===================================================================== *)

Module OverlayFacts.
Import Binary32 overlay_simple Vocabulary Samples.

Local Open Scope Z_scope.

Lemma to_DWORD_small z : 0 <= z < 2 ^ 32 -> to_DWORD z = z.
Proof. intros H. unfold to_DWORD, DWORD_modulus. by apply Z.mod_small. Qed.

(** The drain of [RenderThread] activates the queued messages in
    arrival order, behind those already active. *)
Lemma drain_fifo queue : forall ticks active,
  a_text <$> drain queue ticks active = (a_text <$> active) ++ (text <$> queue).
Proof.
  induction queue as [| om queue IH]; intros ticks active; cbn [drain].
  - by rewrite app_nil_r.
  - rewrite IH, fmap_app, <- app_assoc. done.
Qed.

(** What [WM_PAINT] keeps is what has not expired, in order. *)
Lemma paint_kept t l :
  fst (paint t l) = filter (fun it => expired t it = false) l.
Proof.
  induction l as [| it l IH]; [done |].
  cbn [paint]. rewrite filter_cons.
  destruct (expired t it) eqn:E.
  - rewrite decide_False by done. exact IH.
  - rewrite decide_True by done. destruct (paint t l). cbn in *. by f_equal.
Qed.

(** It draws one bubble per kept message, with the fade of that message. *)
Lemma paint_drawn t l :
  snd (paint t l) = map (fun it => mkBubble it (fade t it)) (fst (paint t l)).
Proof.
  induction l as [| it l IH]; [done |].
  cbn [paint]. destruct (expired t it); [exact IH |].
  destruct (paint t l). cbn in *. by f_equal.
Qed.

Lemma kept_iff t l it :
  it ∈ fst (paint t l) <-> it ∈ l /\ elapsed t it <= a_duration it.
Proof.
  rewrite paint_kept, list_elem_of_filter. unfold expired.
  rewrite Z.ltb_ge. tauto.
Qed.

Lemma drawn_iff t l it :
  (exists alpha, mkBubble it alpha ∈ snd (paint t l)) <-> it ∈ fst (paint t l).
Proof.
  rewrite paint_drawn. split.
  - intros [alpha H]. apply list_elem_of_fmap in H as [it' [[= -> _] ?]]. done.
  - intros H. exists (fade t it). apply list_elem_of_fmap. eauto.
Qed.

(** The clamp of [WM_PAINT] yields a finite value between 0 and 1 for
    everything but a NaN. *)
Lemma clamp_in_unit alpha :
  alpha <> NaN -> exists x, max zero (min one alpha) = Fin x /\ 0 <= x <= one_units.
Proof.
  intros Hn. pose proof FadeFacts.one_units_pos.
  destruct alpha as [| [|] | y]; [done | | |].
  - exists 0. split; [reflexivity | lia].
  - exists one_units. split; [reflexivity | lia].
  - unfold min, max, lt, gt, one, zero.
    destruct (Z.ltb_spec one_units y).
    + exists one_units. destruct (Z.ltb_spec one_units 0); [lia |]. split; [done | lia].
    + destruct (Z.ltb_spec y 0).
      * exists 0. split; [done | lia].
      * exists y. split; [done | lia].
Qed.

Lemma round_not_NaN n d : round n d <> NaN.
Proof. unfold round. destruct (_ <=? _); [done |]. by destruct (n <? 0). Qed.

(** Whatever the message and the clock, the alpha a bubble is drawn
    with is a finite value between 0 and 1. *)
Lemma fade_in_unit t it : exists x, fade t it = Fin x /\ 0 <= x <= one_units.
Proof.
  unfold fade. apply clamp_in_unit.
  rewrite FadeFacts.literal_08, FadeFacts.literal_02.
  assert (Hq : forall y, sub one (div y (Fin c02)) <> NaN \/ y = NaN).
  { intros [| s | y]; [by right | left; by destruct s | left].
    unfold div. change (c02 =? 0) with false. change (0 <? c02) with true. cbv iota.
    destruct (round (y * one_units) c02) as [| s | q] eqn:Eq.
    - by apply round_not_NaN in Eq.
    - by destruct s.
    - apply round_not_NaN. }
  destruct (div (of_Z (elapsed t it)) (of_Z (a_duration it))) as [| s | x];
    [done | destruct s; done |].
  cbn [gt]. destruct (c08 <? x); [| done].
  destruct (Hq (sub (Fin x) (Fin c08))) as [H | H]; [done |].
  by apply round_not_NaN in H.
Qed.

(** A message of duration 0 is drawn in the millisecond of its start:
    the quotient is a NaN, no comparison with it holds, and the alpha
    stays 1. *)
Lemma fade_zero_duration t it :
  a_duration it = 0 -> elapsed t it = 0 -> fade t it = one.
Proof. intros HD He. unfold fade. rewrite HD, He. reflexivity. Qed.

(** The fade of a message that is drawn, with the elapsed time [e] and
    the duration [D] of its [DWORD] fields: within 2^-19 of the ideal
    line; exactly 1 up to four fifths of a duration below 2^24 ms;
    exactly 2^-24 at the full duration. *)
Lemma fade_drawn t it :
  let e := elapsed t it in
  let D := a_duration it in
  0 <= D < 2 ^ 32 -> e <= D ->
  (ideal_fade e D - (1 # 2 ^ 19) <= value (fade t it)
   /\ value (fade t it) <= ideal_fade e D + (1 # 2 ^ 19))%Q
  /\ (D < 2 ^ 24 -> 5 * e <= 4 * D -> fade t it = one)
  /\ (0 < D -> e = D -> fade t it = Fin (2 ^ 125)).
Proof.
  intros e D HD He.
  assert (He0 : 0 <= e).
  { subst e. unfold elapsed, to_DWORD, DWORD_modulus. apply Z.mod_pos_bound. lia. }
  destruct (Z.eq_dec D 0) as [HD0 | HD0].
  - assert (He00 : e = 0) by lia.
    rewrite (fade_zero_duration t it HD0 He00). fold e D. rewrite HD0, He00.
    split; [split; discriminate |]. split; [done | lia].
  - rewrite FadeFacts.fade_is_fade_units by (fold e D; lia). fold e D.
    split; [apply (FadeFacts.fade_units_error e D); lia |]. split.
    + intros Hs H45. unfold one. f_equal. apply FadeFacts.fade_units_full; lia.
    + intros _ ->. f_equal. apply FadeFacts.fade_units_at_end. lia.
Qed.

Lemma elapsed_activate om t0 t : elapsed t (activate om t0) = to_DWORD (t - t0).
Proof.
  unfold elapsed, to_DWORD, DWORD_modulus. cbn [activate a_startTime].
  unfold to_DWORD, DWORD_modulus. by rewrite Zminus_mod_idemp_r.
Qed.

(** C5, as the code has it -- message lifetime.  Let an [ActiveMessage]
    be made from an [OverlayMessage] at clock [t0]; [D] is its
    duration as the [DWORD] field holds it and [e] the elapsed time
    [t - t0] on the 32-bit tick counter at a paint at clock [t].  The
    message is kept in [g_activeMessages] and drawn exactly when [e]
    is at most [D] (the bound [D] included), and erased when [e]
    exceeds [D]; it is drawn with the alpha [fade] computes.  That
    alpha is a finite [float] between 0 and 1 and, while the message is
    drawn, within 2^-19 of the line that is 1 while [e] is at most
    [0.8 D] and then falls linearly to 0 at [e = D].  It is exactly 1
    while [e] is at most [0.8 D] for a duration below 2^24 ms, and it
    is exactly 2^-24 (one unit in the last place of 1), not 0, at
    [e = D]. *)
Theorem message_lifetime (om : OverlayMessage) (t0 t : Z)
    (before after : list ActiveMessage) :
  let it := activate om t0 in
  let D := to_DWORD (duration om) in
  let e := to_DWORD (t - t0) in
  let '(kept, drawn) := paint t (before ++ it :: after) in
  (it ∈ kept <-> e <= D)
  /\ (mkBubble it (fade t it) ∈ drawn <-> e <= D)
  /\ (forall alpha, mkBubble it alpha ∈ drawn -> alpha = fade t it)
  /\ (exists x, fade t it = Fin x /\ 0 <= x <= one_units)
  /\ (e <= D ->
      (ideal_fade e D - (1 # 2 ^ 19) <= value (fade t it)
       /\ value (fade t it) <= ideal_fade e D + (1 # 2 ^ 19))%Q)
  /\ (e <= D -> D < 2 ^ 24 -> 5 * e <= 4 * D -> fade t it = one)
  /\ (e = D -> 0 < D -> fade t it = Fin (2 ^ 125)).
Proof.
  intros it D e.
  assert (Hdur : a_duration it = D) by reflexivity.
  assert (Hel : elapsed t it = e) by apply elapsed_activate.
  assert (HD : 0 <= D < 2 ^ 32).
  { subst D. unfold to_DWORD, DWORD_modulus. apply Z.mod_pos_bound. lia. }
  destruct (paint t (before ++ it :: after)) as [kept drawn] eqn:Hp.
  assert (Hkept : kept = fst (paint t (before ++ it :: after))) by (by rewrite Hp).
  assert (Hdrawn : drawn = snd (paint t (before ++ it :: after))) by (by rewrite Hp).
  assert (Hk : it ∈ kept <-> e <= D).
  { rewrite Hkept, kept_iff, Hel, Hdur. split; [tauto |]. intros ?. split; [| done].
    apply elem_of_app. right. apply list_elem_of_here. }
  split; [exact Hk |]. split; [| split].
  { rewrite <- Hk, Hdrawn, Hkept, paint_drawn. split.
    - intros H. apply list_elem_of_fmap in H as [it' [[= -> _] ?]]. done.
    - intros H. apply list_elem_of_fmap. eauto. }
  { intros alpha. rewrite Hdrawn, paint_drawn. intros H.
    apply list_elem_of_fmap in H as [it' [[= -> ->] _]]. done. }
  split; [apply fade_in_unit |].
  pose proof (fade_drawn t it) as Hf. cbv zeta in Hf. rewrite Hel, Hdur in Hf.
  split; [| split].
  - intros He. by apply Hf.
  - intros He. by apply Hf.
  - intros He HD0. apply Hf; lia.
Qed.

(** The sample tip, activated at clock 1000 and painted half a second
    before its five seconds are over: it is drawn, with an alpha of
    one half and three parts in 2^24. *)
Example message_lifetime_sample :
  let it := activate tip 1000 in
  paint 5500 [it] = ([it], [mkBubble it (fade 5500 it)])
  /\ (ideal_fade 4500 5000 == 1 # 2)%Q
  /\ fade 5500 it = Fin (8388611 * 2 ^ 125).
Proof. cbv zeta. split; [reflexivity |]. split; vm_compute; reflexivity. Qed.

(** C5, as stated, at three points.  Five seconds after its start a
    five-second message has reached its full duration, yet the paint
    keeps it and draws it instead of erasing it; and it draws it with
    alpha 2^-24, not 0.  A message of 16777225 ms is drawn at exactly
    four fifths of its duration with an alpha below 1, which makes the
    alpha byte of its text 254 where full alpha gives 255. *)
Lemma message_not_as_stated :
  (let it := activate tip 1000 in
   a_duration it <= elapsed 6000 it
   /\ paint 6000 [it] = ([it], [mkBubble it (fade 6000 it)])
   /\ fade 6000 it = Fin (2 ^ 125)
   /\ ~ (value (fade 6000 it) == 0)%Q)
  /\ (let it := activate long_tip 0 in
      a_duration it = 16777225 /\ elapsed 13421780 it = 13421780
      /\ 5 * 13421780 <= 4 * 16777225
      /\ fade 13421780 it = Fin (2 ^ 149 - 5 * 2 ^ 125)
      /\ fade 13421780 it <> one
      /\ channel 255 (fade 13421780 it) = 254
      /\ channel 255 one = 255).
Proof.
  split.
  - cbv zeta. split; [vm_compute; discriminate |]. split; [reflexivity |].
    split; [vm_compute; reflexivity |]. vm_compute. discriminate.
  - cbv zeta. split; [reflexivity |]. split; [reflexivity |].
    split; [vm_compute; discriminate |]. split; [vm_compute; reflexivity |].
    split; [vm_compute; discriminate |]. split; vm_compute; reflexivity.
Qed.

End OverlayFacts.

(* ===================================================================== *)
(** * Properties of the window embedding manager ([WindowManager]) *)
(* ===================================================================== *)

Module WindowFacts.
Import WindowManager Vocabulary.

Local Open Scope Z_scope.


#[local] Instance keeps_show_preorder : PreOrder keeps_show.
Proof.
  split; [by intros w |]. intros w1 w2 w3 [? ?] [? ?]. split; congruence.
Qed.

#[local] Instance keeps_parent_preorder : PreOrder keeps_parent.
Proof.
  split; [by intros w |]. intros w1 w2 w3 [? [? ?]] [? [? ?]].
  repeat split; congruence.
Qed.

Lemma touches_same h R `{!Reflexive R} os os' :
  windows os' = windows os -> touches h R os os'.
Proof.
  intros H. unfold touches. destruct (windows os !! h) as [w |] eqn:E; [| done].
  exists w. split; [| done]. by rewrite H, insert_id.
Qed.

Lemma touches_put h R os w w' :
  windows os !! h = Some w -> R w w' -> touches h R os (put_window h w' os).
Proof. intros E HR. unfold touches. rewrite E. by exists w'. Qed.

Lemma touches_trans h R `{!Transitive R} os1 os2 os3 :
  touches h R os1 os2 -> touches h R os2 os3 -> touches h R os1 os3.
Proof.
  unfold touches. destruct (windows os1 !! h) as [w |] eqn:E.
  - intros [w2 [H2 R2]]. rewrite H2, lookup_insert_eq.
    intros [w3 [H3 R3]]. exists w3. rewrite H3, insert_insert_eq.
    split; [done | by transitivity w2].
  - intros ->. by rewrite E.
Qed.


Lemma touches_other h R os os' h' :
  touches h R os os' -> h' <> h -> windows os' !! h' = windows os !! h'.
Proof.
  unfold touches. destruct (windows os !! h).
  - intros [w' [-> _]] Hne. by rewrite lookup_insert_ne.
  - by intros ->.
Qed.

Lemma touches_alive h R os os' h' :
  touches h R os os' -> IsWindow h' os' = IsWindow h' os.
Proof.
  intros H. unfold IsWindow. destruct (decide (h' = h)) as [-> | Hne].
  - unfold touches in H. destruct (windows os !! h) eqn:E.
    + destruct H as [w' [-> _]]. by rewrite lookup_insert_eq.
    + by rewrite H, E.
  - by rewrite (touches_other _ _ _ _ _ H Hne).
Qed.

Section Platform.
Variable rejects : Call -> bool.

(* ----------------------------------------------------------------- *)
(** *** What each call may change, whatever the platform answers *)

Lemma SetWindowLong_touches h nIndex v os :
  touches h keeps_parent os (snd (SetWindowLong rejects h nIndex v os)).
Proof.
  unfold SetWindowLong, served. cbn [log_call windows].
  destruct (windows os !! h) as [w |] eqn:E; [| by apply touches_same].
  destruct (rejects _); [by apply touches_same |].
  destruct (nIndex =? GWL_STYLE); [| destruct (nIndex =? GWL_EXSTYLE)];
    cbn [snd]; try (by apply touches_same).
  all: unfold touches; rewrite E; eexists; split; [reflexivity | done].
Qed.

Lemma SetWindowPos_touches h after X Y cx cy uFlags os :
  touches h keeps_parent os (snd (SetWindowPos rejects h after X Y cx cy uFlags os)).
Proof.
  unfold SetWindowPos, served. cbn [log_call windows].
  destruct (windows os !! h) as [w |] eqn:E; [| by apply touches_same].
  destruct (rejects _); [by apply touches_same |].
  cbn [snd]. unfold touches. rewrite E. eexists. split; [reflexivity | done].
Qed.



Lemma InvalidateRect_windows h b os :
  windows (snd (InvalidateRect rejects h b os)) = windows os.
Proof.
  unfold InvalidateRect, served. cbn [log_call windows].
  destruct (windows os !! h); [destruct (rejects _) |]; done.
Qed.

Lemma UpdateWindow_windows h os :
  windows (snd (UpdateWindow rejects h os)) = windows os.
Proof.
  unfold UpdateWindow, served. cbn [log_call windows].
  destruct (windows os !! h); [destruct (rejects _) |]; done.
Qed.

(* ----------------------------------------------------------------- *)
(** *** What the manager's helpers may change *)

Lemma ApplyEmbeddedStyle_touches h os :
  touches h keeps_parent os (ApplyEmbeddedStyle rejects h os).
Proof.
  unfold ApplyEmbeddedStyle.
  pose proof (SetWindowLong_touches h GWL_STYLE
    (Z.lor (Z.land (GetWindowLong h GWL_STYLE os) (Z.lnot embedded_style_mask))
           (Z.lor WS_CHILD WS_CLIPSIBLINGS)) os) as T1.
  destruct (SetWindowLong rejects h GWL_STYLE _ os) as [r1 os1]. cbn [snd] in T1.
  pose proof (SetWindowLong_touches h GWL_EXSTYLE
    (Z.land (GetWindowLong h GWL_EXSTYLE os1) (Z.lnot embedded_exStyle_mask)) os1) as T2.
  destruct (SetWindowLong rejects h GWL_EXSTYLE _ os1) as [r2 os2]. cbn [snd] in T2.
  eapply touches_trans; [apply _ | exact T1 |].
  eapply touches_trans; [apply _ | exact T2 |].
  apply SetWindowPos_touches.
Qed.

Lemma SynchronizeWindowRefresh_touches container h os :
  touches h keeps_parent os (SynchronizeWindowRefresh rejects container h os).
Proof.
  unfold SynchronizeWindowRefresh.
  destruct (negb (IsWindow container os) || negb (IsWindow h os));
    [by apply touches_same |].
  pose proof (InvalidateRect_windows h false os) as W1.
  destruct (InvalidateRect rejects h false os) as [r1 os1]. cbn [snd] in W1.
  pose proof (InvalidateRect_windows container false os1) as W2.
  destruct (InvalidateRect rejects container false os1) as [r2 os2]. cbn [snd] in W2.
  pose proof (UpdateWindow_windows h os2) as W3.
  destruct (UpdateWindow rejects h os2) as [r3 os3]. cbn [snd] in W3.
  pose proof (UpdateWindow_windows container os3) as W4.
  destruct (UpdateWindow rejects container os3) as [r4 os4]. cbn [snd] in W4.
  eapply touches_trans; [apply _ | | apply SetWindowPos_touches].
  apply touches_same; [apply _ | congruence].
Qed.

Lemma UpdateGameWindowPosition_touches container h area os :
  touches h keeps_parent os (UpdateGameWindowPosition rejects container h area os).
Proof.
  unfold UpdateGameWindowPosition.
  destruct (negb (IsWindow h os)); [by apply touches_same |].
  match goal with
  | |- context [SetWindowPos rejects h ?a ?x ?y ?cx ?cy ?f os] =>
      pose proof (SetWindowPos_touches h a x y cx cy f os) as T1;
      destruct (SetWindowPos rejects h a x y cx cy f os) as [r1 os1]
  end.
  cbn [snd] in T1.
  eapply touches_trans; [apply _ | exact T1 |].
  apply SynchronizeWindowRefresh_touches.
Qed.


(* ----------------------------------------------------------------- *)
(** *** The calls when the platform carries them out *)

Lemma SetParent_accepted h p os w :
  windows os !! h = Some w -> rejects (CSetParent h p) = false ->
  SetParent rejects h p os
  = (w_parent w,
     mkDesktop (<[h := with_parent p w]> (windows os)) (last_error os)
               (os_log os ++ [CSetParent h p])).
Proof. intros E A. unfold SetParent, served. cbn. by rewrite E, A. Qed.



Lemma SetWindowPos_accepted h after X Y cx cy uFlags os w :
  windows os !! h = Some w -> rejects (CSetWindowPos h after X Y cx cy uFlags) = false ->
  SetWindowPos rejects h after X Y cx cy uFlags os
  = (true,
     mkDesktop (<[h := positioned after X Y cx cy uFlags w]> (windows os))
               (last_error os)
               (os_log os ++ [CSetWindowPos h after X Y cx cy uFlags])).
Proof.
  intros E A. unfold SetWindowPos, served. cbn [log_call windows]. by rewrite E, A.
Qed.


Lemma to_LONG_small z : LONG_range z -> to_LONG z = z.
Proof. unfold LONG_range, to_LONG. intros Hz. rewrite Z.mod_small by lia. lia. Qed.

Lemma to_LONG_range z : LONG_range (to_LONG z).
Proof.
  unfold LONG_range, to_LONG. pose proof (Z.mod_pos_bound (z + 2 ^ 31) (2 ^ 32)). lia.
Qed.

Lemma to_LONG_add_sub l r : LONG_range r -> to_LONG (l + to_LONG (r - l)) = r.
Proof.
  unfold LONG_range, to_LONG. intros Hr.
  replace (l + ((r - l + 2 ^ 31) mod 2 ^ 32 - 2 ^ 31) + 2 ^ 31)
    with ((r - l + 2 ^ 31) mod 2 ^ 32 + l) by lia.
  rewrite Z.add_mod_idemp_l by lia.
  replace (r - l + 2 ^ 31 + l) with (r + 2 ^ 31) by lia.
  rewrite Z.mod_small by lia. lia.
Qed.





(* ----------------------------------------------------------------- *)
(** *** Embedding *)


Lemma already_embedded_iff m gw :
  existsb (fun info => gameWindow info =? gw) m = true <-> tracked m gw.
Proof.
  rewrite existsb_exists. unfold tracked. split.
  - intros [info [Hin Heq]]. exists info.
    split; [by apply list_elem_of_In | by apply Z.eqb_eq].
  - intros [info [Hin Heq]]. exists info.
    split; [by apply list_elem_of_In | by apply Z.eqb_eq].
Qed.

Lemma not_embedded_iff m gw :
  existsb (fun info => gameWindow info =? gw) m = false <-> ~ tracked m gw.
Proof. rewrite <- already_embedded_iff. by destruct (existsb _ m). Qed.

Lemma untracked_find m gw :
  ~ tracked m gw -> list_find (fun info => gameWindow info = gw) m = None.
Proof.
  intros H. apply list_find_None, Forall_forall. intros info Hin Heq.
  apply H. by exists info.
Qed.

(** The record for [gw] is the one a successful embed appends. *)
Lemma find_appended m gw info :
  gameWindow info = gw -> ~ tracked m gw ->
  list_find (fun i => gameWindow i = gw) (m ++ [info]) = Some (length m, info).
Proof.
  intros Hgw H. rewrite list_find_app_r by (by apply untracked_find).
  cbn. rewrite decide_True by done. done.
Qed.

Lemma delete_appended {A} (m : list A) x : delete (length m) (m ++ [x]) = m.
Proof. induction m as [| y m IH]; cbn; [done | by f_equal]. Qed.


(** The platform refuses the reparenting: failure is returned with
    only that one call issued; no window and no record has changed. *)
Lemma Embed_reparent_rejected m parent gw os :
  IsWindow gw os = true -> IsWindow parent os = true -> ~ tracked m gw ->
  rejects (CSetParent gw parent) = true ->
  EmbedGameWindow rejects m parent gw os
  = (false, m,
     mkDesktop (windows os) ERROR_ACCESS_DENIED (os_log os ++ [CSetParent gw parent])).
Proof.
  intros Hg Hp Hm Hrej. unfold EmbedGameWindow.
  rewrite Hg, Hp. cbn [negb].
  rewrite (proj2 (not_embedded_iff m gw) Hm).
  unfold IsWindow in Hg. destruct (windows os !! gw) as [w |] eqn:E; [| done].
  unfold SetParent, served. cbn [log_call SetLastError windows].
  rewrite E, Hrej. done.
Qed.

(** The platform carries the reparenting out: the embed succeeds and
    stores the captured record, whatever happens to the later calls;
    afterwards the window is under the container, and only it has
    changed. *)
Lemma Embed_reparent_accepted m parent gw os w :
  windows os !! gw = Some w -> IsWindow parent os = true -> ~ tracked m gw ->
  rejects (CSetParent gw parent) = false ->
  exists os' w',
    EmbedGameWindow rejects m parent gw os
    = (true, m ++ [SaveWindowState gw (blank_info gw) os], os')
    /\ windows os' = <[gw := w']> (windows os)
    /\ w_parent w' = parent
    /\ keeps_show w w'.
Proof.
  intros E Hp Hm Hacc. unfold EmbedGameWindow.
  unfold IsWindow at 1. rewrite E, Hp. cbn [negb].
  rewrite (proj2 (not_embedded_iff m gw) Hm).
  erewrite SetParent_accepted; [| cbn [SetLastError windows]; exact E | done].
  cbn [GetLastError SetLastError last_error windows os_log].
  rewrite Z.eqb_refl, andb_false_r.
  set (os1 := mkDesktop (<[gw := with_parent parent w]> (windows os)) 0 _).
  pose proof (ApplyEmbeddedStyle_touches gw os1) as T2.
  set (os2 := ApplyEmbeddedStyle rejects gw os1) in *.
  set (os3 := match GetClientRect rejects parent os2 with
              | Some rc => _
              | None => os2
              end).
  assert (T3 : touches gw keeps_parent os2 os3).
  { subst os3. destruct (GetClientRect rejects parent os2);
      [apply SetWindowPos_touches | by apply touches_same]. }
  pose proof (InvalidateRect_windows parent true os3) as W4.
  destruct (InvalidateRect rejects parent true os3) as [r4 os4]. cbn [snd] in W4.
  pose proof (InvalidateRect_windows gw true os4) as W5.
  destruct (InvalidateRect rejects gw true os4) as [r5 os5]. cbn [snd] in W5.
  pose proof (UpdateWindow_windows parent os5) as W6.
  destruct (UpdateWindow rejects parent os5) as [r6 os6]. cbn [snd] in W6.
  pose proof (UpdateWindow_windows gw os6) as W7.
  destruct (UpdateWindow rejects gw os6) as [r7 os7]. cbn [snd] in W7.
  assert (T : touches gw keeps_parent os1 os7).
  { eapply touches_trans; [apply _ | exact T2 |].
    eapply touches_trans; [apply _ | exact T3 |].
    apply touches_same; [apply _ | congruence]. }
  unfold touches in T. subst os1. cbn [windows] in T.
  rewrite lookup_insert_eq in T. destruct T as [w' [Hw' [HP HK]]].
  exists os7, w'. split; [done |]. split; [| split].
  - by rewrite Hw', insert_insert_eq.
  - by rewrite HP.
  - destruct HK as [? ?]. split; cbn in *; congruence.
Qed.

(* ----------------------------------------------------------------- *)
(** *** The way back *)














(** C6 -- failure of the reparenting.  With both windows alive and no
    record for the game window: if the platform refuses [SetParent],
    [EmbedGameWindow] returns [false] having issued that call only
    (no style, position or repaint call), with every window and the
    records unchanged; if the platform carries [SetParent] out, then
    whatever it answers to the later calls (each may be refused)
    [EmbedGameWindow] returns [true], the captured record is stored,
    and the window stays under the container: nothing is rolled
    back. *)
Theorem reparent_failure_aborts (m : State) (parent gw : HWND) (os : Desktop) :
  IsWindow gw os = true -> IsWindow parent os = true -> ~ tracked m gw ->
  (rejects (CSetParent gw parent) = true ->
   exists os',
     EmbedGameWindow rejects m parent gw os = (false, m, os')
     /\ windows os' = windows os
     /\ os_log os' = os_log os ++ [CSetParent gw parent])
  /\ (rejects (CSetParent gw parent) = false ->
      exists os',
        EmbedGameWindow rejects m parent gw os
        = (true, m ++ [SaveWindowState gw (blank_info gw) os], os')
        /\ w_parent <$> windows os' !! gw = Some parent).
Proof.
  intros Hg Hp Hm. split; intros Hsp.
  - eexists. rewrite Embed_reparent_rejected by done. done.
  - unfold IsWindow in Hg. destruct (windows os !! gw) as [w |] eqn:E; [| done].
    destruct (Embed_reparent_accepted m parent gw os w E Hp Hm Hsp)
      as [os' [w' [Heq [Hw' [Hpar _]]]]].
    exists os'. split; [done |]. by rewrite Hw', lookup_insert_eq, <- Hpar.
Qed.

End Platform.

End WindowFacts.

(* ===================================================================== *)
(** * Idempotence and liveness checks across the interface *)
(* ===================================================================== *)

Module BridgeFacts.
Import WindowManager Vocabulary WindowFacts.

Local Open Scope Z_scope.

Section Bridge.
Variable K : Oracle.
Variable rejects : Call -> bool.

Lemma IsDLLInjected_iff st pid :
  GameDataInterface.IsDLLInjected st pid = true
  <-> exists p, p ∈ GameDataInterface.m_injectedProcesses st
                /\ GameDataInterface.processId p = pid.
Proof.
  unfold GameDataInterface.IsDLLInjected. rewrite existsb_exists. split.
  - intros [p [Hin Heq]]. exists p. split; [by apply list_elem_of_In | by apply Z.eqb_eq].
  - intros [p [Hin Heq]]. exists p. split; [by apply list_elem_of_In | by apply Z.eqb_eq].
Qed.

(** On a window that has a record [EmbedGameWindow] saves and changes
    nothing; it reports whether both handles are live windows. *)
Lemma Embed_tracked m parent gw os :
  tracked m gw ->
  EmbedGameWindow rejects m parent gw os
  = (IsWindow gw os && IsWindow parent os, m, os).
Proof.
  intros Hemb. unfold EmbedGameWindow.
  destruct (IsWindow gw os); [| done]. destruct (IsWindow parent os); [| done].
  cbn [negb andb]. by rewrite (proj2 (already_embedded_iff m gw) Hemb).
Qed.

(** C2 -- idempotence.  For a process id that has an injection record,
    [InjectDLL] returns [true] with the object unchanged (no second
    record) and no kernel call issued (so no remote operation).  For a
    window that has an embedding record, with it and the container still
    alive, [EmbedGameWindow] returns [true] with the records unchanged
    (nothing is saved again) and the desktop unchanged: no window call is
    issued at all. *)
Theorem inject_and_embed_idempotent (st : GameDataInterface.State) (pid : Z)
    (m : State) (parent gw : HWND) (os : Desktop) :
  (exists p, p ∈ GameDataInterface.m_injectedProcesses st
             /\ GameDataInterface.processId p = pid) ->
  tracked m gw -> IsWindow gw os = true -> IsWindow parent os = true ->
  GameDataInterface.InjectDLL K st pid = (true, st, [])
  /\ EmbedGameWindow rejects m parent gw os = (true, m, os).
Proof.
  intros Hinj Hemb Hg Hp. split.
  - unfold GameDataInterface.InjectDLL.
    by rewrite (proj2 (IsDLLInjected_iff st pid) Hinj).
  - by rewrite Embed_tracked, Hg, Hp.
Qed.

Lemma Restore_dead_window m gw os :
  IsWindow gw os = false ->
  RestoreGameWindow rejects m gw os
  = match list_find (fun info => gameWindow info = gw) m with
    | Some (it, _) => (true, delete it m, os)
    | None => (false, m, os)
    end.
Proof.
  intros Hdead. unfold RestoreGameWindow.
  destruct (list_find _ m) as [[it info] |] eqn:F; [| done].
  apply list_find_Some in F as [_ [Heq _]].
  unfold RestoreWindowState. by rewrite Heq, Hdead.
Qed.

(** With the container gone and the game window alive, the position
    update still places the game window; only the repaint is skipped. *)
Lemma UpdateGameWindowPosition_dead_container parent gw gameArea os :
  IsWindow gw os = true -> IsWindow parent os = false ->
  UpdateGameWindowPosition rejects parent gw gameArea os
  = snd (SetWindowPos rejects gw HWND_BOTTOM (rc_left gameArea) (rc_top gameArea)
           (to_LONG (rc_right gameArea - rc_left gameArea))
           (to_LONG (rc_bottom gameArea - rc_top gameArea))
           (Z.lor SWP_NOACTIVATE SWP_NOOWNERZORDER) os).
Proof.
  intros Hg Hp. unfold UpdateGameWindowPosition. rewrite Hg. cbn [negb].
  match goal with
  | |- context [SetWindowPos rejects gw ?a ?x ?y ?cx ?cy ?f os] =>
      pose proof (SetWindowPos_touches rejects gw a x y cx cy f os) as T;
      destruct (SetWindowPos rejects gw a x y cx cy f os) as [r os1]
  end.
  cbn [snd] in *. unfold SynchronizeWindowRefresh.
  by rewrite (touches_alive _ _ _ _ parent T), Hp.
Qed.

(** C3, as the code has it -- dead references.  [EmbedGameWindow] with
    a game window or container that is no longer alive returns [false]
    with records and desktop unchanged.  [UpdateGameWindowPosition]
    (which returns nothing) leaves the desktop unchanged when the game
    window is dead; when only the container is dead it still issues its
    [SetWindowPos] on the game window and skips the repaint.
    [RestoreGameWindow] on a dead window issues no window call: without
    a record it returns [false] and changes nothing, with a record it
    removes the record and returns [true].  [InjectDLL] for a process
    id that has a record returns [true] with nothing done, whatever has
    become of the process; for an id without a record whose process
    cannot be opened it returns [false], adds no record and issues at
    most the [OpenProcess] attempt.  [EjectDLL] for an id without a
    record returns [false] and changes nothing; for an id with a record
    it returns [true], removes the record and closes the recorded
    handle, whatever the kernel answers. *)
Theorem dead_reference_safety (st : GameDataInterface.State) (pid : Z)
    (m : State) (parent gw : HWND) (gameArea : RECT) (os : Desktop) :
  (IsWindow gw os = false \/ IsWindow parent os = false ->
   EmbedGameWindow rejects m parent gw os = (false, m, os))
  /\ (IsWindow gw os = false ->
      UpdateGameWindowPosition rejects parent gw gameArea os = os)
  /\ (IsWindow gw os = true -> IsWindow parent os = false ->
      UpdateGameWindowPosition rejects parent gw gameArea os
      = snd (SetWindowPos rejects gw HWND_BOTTOM (rc_left gameArea) (rc_top gameArea)
               (to_LONG (rc_right gameArea - rc_left gameArea))
               (to_LONG (rc_bottom gameArea - rc_top gameArea))
               (Z.lor SWP_NOACTIVATE SWP_NOOWNERZORDER) os))
  /\ (IsWindow gw os = false -> ~ tracked m gw ->
      RestoreGameWindow rejects m gw os = (false, m, os))
  /\ (IsWindow gw os = false -> tracked m gw ->
      exists it info,
        list_find (fun info => gameWindow info = gw) m = Some (it, info)
        /\ RestoreGameWindow rejects m gw os = (true, delete it m, os))
  /\ (GameDataInterface.IsDLLInjected st pid = true ->
      GameDataInterface.InjectDLL K st pid = (true, st, []))
  /\ (GameDataInterface.IsDLLInjected st pid = false ->
      OpenProcess K PROCESS_ALL_ACCESS pid = 0 ->
      GameDataInterface.InjectDLL K st pid
      = (false, st,
         if String.eqb (GameDataInterface.GetDLLPath K) ""
         then [] else [KOpenProcess PROCESS_ALL_ACCESS pid]))
  /\ (GameDataInterface.IsDLLInjected st pid = false ->
      GameDataInterface.EjectDLL K st pid = (false, st, []))
  /\ (forall it p,
        list_find (fun p => GameDataInterface.processId p = pid)
                  (GameDataInterface.m_injectedProcesses st) = Some (it, p) ->
        exists t,
          GameDataInterface.EjectDLL K st pid
          = (true,
             GameDataInterface.with_injectedProcesses
               (delete it (GameDataInterface.m_injectedProcesses st)) st,
             t ++ [KCloseHandle (GameDataInterface.processHandle p)])).
Proof.
  split; [| split; [| split; [| split; [| split; [| split; [| split; [| split]]]]]]].
  - intros [Hg | Hp]; unfold EmbedGameWindow.
    + by rewrite Hg.
    + rewrite Hp. by destruct (IsWindow gw os).
  - intros Hg. unfold UpdateGameWindowPosition. by rewrite Hg.
  - apply UpdateGameWindowPosition_dead_container.
  - intros Hg Hm. rewrite Restore_dead_window by done.
    by rewrite untracked_find.
  - intros Hg [info [Hin Heq]]. rewrite Restore_dead_window by done.
    destruct (list_find (fun info => gameWindow info = gw) m) as [[it i] |] eqn:F.
    + by exists it, i.
    + apply list_find_None in F. rewrite Forall_forall in F. by destruct (F info Hin).
  - intros Hyes. unfold GameDataInterface.InjectDLL. by rewrite Hyes.
  - intros Hno Hopen. unfold GameDataInterface.InjectDLL. rewrite Hno.
    destruct (String.eqb _ _); [done |].
    unfold GameDataInterface.InjectDLLIntoProcess. by rewrite Hopen.
  - intros Hno. unfold GameDataInterface.EjectDLL, GameDataInterface.EjectDLLFromProcess.
    destruct (list_find _ _) as [[it p] |] eqn:F; [| done].
    apply list_find_Some in F as [Hl [Heq _]].
    assert (Hyes : GameDataInterface.IsDLLInjected st pid = true).
    { apply IsDLLInjected_iff. exists p. split; [| done]. by eapply list_elem_of_lookup_2. }
    congruence.
  - intros it p F. unfold GameDataInterface.EjectDLL, GameDataInterface.EjectDLLFromProcess.
    rewrite F. eexists. reflexivity.
Qed.

End Bridge.

End BridgeFacts.


Module Witnesses.
Import WindowManager Vocabulary WindowFacts BridgeFacts Samples.
Local Open Scope Z_scope.

(** The end-to-end scenario on the sample desktop: after the embed the
    game window is a child of the container, fills its client area and
    has lost its caption, frame, boxes, system menu and border. *)
Example embed_sample :
  let '(r, m, os) := EmbedGameWindow accept_all [] 1 7 desk in
  r = true /\ m = [game_record]
  /\ windows os !! 7
     = Some (mkWindow 1 0x54000000 0 (mkRECT 0 0 800 600) (mkRECT 0 0 800 600) 1 framed).
Proof. vm_compute. repeat split. Qed.

(** A window captured maximized: the restore ends with
    [ShowWindow(SW_SHOWMAXIMIZED)] and the window is as it was. *)
Example restore_maximized_sample :
  let '(_, m, os) := EmbedGameWindow accept_all [] 1 7 desk_maximized in
  let '(r, m', os') := RestoreGameWindow accept_all m 7 os in
  r = true /\ m' = [] /\ windows os' = windows desk_maximized
  /\ last (os_log os') = Some (CShowWindow 7 SW_SHOWMAXIMIZED).
Proof. vm_compute. repeat split. Qed.

Lemma untracked_nil gw : ~ tracked [] gw.
Proof. intros [info [Hin _]]. by apply elem_of_nil in Hin. Qed.



Lemma reparent_failure_aborts_witness :
  (exists os',
     EmbedGameWindow deny_reparent [] 1 7 desk = (false, [], os')
     /\ windows os' = windows desk
     /\ os_log os' = [CSetParent 7 1])
  /\ (exists os',
        EmbedGameWindow only_reparent [] 1 7 desk = (true, [game_record], os')
        /\ w_parent <$> windows os' !! 7 = Some 1).
Proof.
  split.
  - apply (reparent_failure_aborts deny_reparent [] 1 7 desk);
      try reflexivity. apply untracked_nil.
  - apply (reparent_failure_aborts only_reparent [] 1 7 desk);
      try reflexivity. apply untracked_nil.
Defined.


Lemma inject_and_embed_idempotent_witness :
  GameDataInterface.InjectDLL process_gone injected_4242 4242 = (true, injected_4242, [])
  /\ EmbedGameWindow accept_all [game_record] 1 7 desk = (true, [game_record], desk).
Proof.
  apply (inject_and_embed_idempotent process_gone accept_all injected_4242 4242
           [game_record] 1 7 desk).
  - eexists. split; [apply list_elem_of_here | reflexivity].
  - eexists. split; [apply list_elem_of_here | reflexivity].
  - reflexivity.
  - reflexivity.
Defined.

Lemma dead_reference_safety_witness :
  EmbedGameWindow accept_all [] 1 7 desk_after_exit = (false, [], desk_after_exit)
  /\ UpdateGameWindowPosition accept_all 1 7 (mkRECT 10 10 650 490) desk_after_exit
     = desk_after_exit
  /\ RestoreGameWindow accept_all [] 7 desk_after_exit = (false, [], desk_after_exit)
  /\ GameDataInterface.InjectDLL process_gone GameDataInterface.constructor 4242
     = (false, GameDataInterface.constructor, [KOpenProcess PROCESS_ALL_ACCESS 4242])
  /\ GameDataInterface.EjectDLL process_gone GameDataInterface.constructor 4242
     = (false, GameDataInterface.constructor, []).
Proof.
  destruct (dead_reference_safety process_gone accept_all GameDataInterface.constructor 4242
              [] 1 7 (mkRECT 10 10 650 490) desk_after_exit)
    as [H1 [H2 [_ [H3 [_ [_ [H5 [H6 _]]]]]]]].
  split; [apply H1; left; reflexivity |].
  split; [apply H2; reflexivity |].
  split; [apply H3; [reflexivity | apply untracked_nil] |].
  split; [apply H5; reflexivity | apply H6; reflexivity].
Defined.

(** C3, as stated, on references that are no longer alive.  With the
    game window gone, [RestoreGameWindow] on its record returns [true]
    and discards the record.  With the game process gone (it cannot be
    opened, no thread can be created in it), [InjectDLL] for its
    recorded id returns [true], and [EjectDLL] returns [true], removes
    the record and has tried to create a thread in the process.  With
    the container gone, [UpdateGameWindowPosition] returns nothing and
    moves the game window.  The claim requires a failure result and no
    change in each case. *)
Lemma dead_reference_reports_success :
  (IsWindow 7 desk_after_exit = false
   /\ RestoreGameWindow accept_all [game_record] 7 desk_after_exit
      = (true, [], desk_after_exit))
  /\ (OpenProcess process_gone PROCESS_ALL_ACCESS 4242 = 0
      /\ GameDataInterface.InjectDLL process_gone injected_4242 4242
         = (true, injected_4242, []))
  /\ (GameDataInterface.EjectDLL process_gone injected_4242 4242
      = (true, GameDataInterface.constructor,
         [KCreateRemoteThread 0x2C4 0x76F12340 0x6A000000; KCloseHandle 0x2C4]))
  /\ (IsWindow 1 desk_no_container = false
      /\ w_rect <$> windows desk_no_container !! 7 = Some (mkRECT 100 100 740 580)
      /\ let os' := UpdateGameWindowPosition accept_all 1 7 (mkRECT 10 10 650 490)
                      desk_no_container in
         w_rect <$> windows os' !! 7 = Some (mkRECT 10 10 650 490)
         /\ os_log os' = [CSetWindowPos 7 HWND_BOTTOM 10 10 640 480
                            (Z.lor SWP_NOACTIVATE SWP_NOOWNERZORDER)]).
Proof. repeat split. Qed.

End Witnesses.

(* ===================================================================== *)
(** * Further properties of the window embedding manager *)
(* ===================================================================== *)

Module EmbeddingFacts.
Import WindowManager Vocabulary WindowFacts Samples.

Local Open Scope Z_scope.

(** Bitwise goals on window styles, bit by bit. *)
Ltac by_bits n :=
  apply Z.bits_inj'; intros n ?;
  repeat first [ rewrite Z.land_spec | rewrite Z.lor_spec
               | rewrite Z.lnot_spec by assumption | rewrite Z.bits_0 ].

Lemma land_0_bit a b n : Z.land a b = 0 -> Z.testbit a n && Z.testbit b n = false.
Proof. intros H. by rewrite <- Z.land_spec, H, Z.bits_0. Qed.



Lemma moved_rect_nomove_nosize r X Y cx cy uFlags :
  has_flag uFlags SWP_NOMOVE = true -> has_flag uFlags SWP_NOSIZE = true ->
  moved_rect r X Y cx cy uFlags = r.
Proof. intros Hm Hs. unfold moved_rect. by rewrite Hm, Hs. Qed.

(** A rectangle of [LONG] coordinates is where a window ends up when
    [SetWindowPos] is given its origin and extent and neither
    [SWP_NOMOVE] nor [SWP_NOSIZE]. *)
Lemma moved_rect_places r0 r uFlags :
  has_flag uFlags SWP_NOMOVE = false -> has_flag uFlags SWP_NOSIZE = false ->
  LONG_range (rc_right r) -> LONG_range (rc_bottom r) ->
  moved_rect r0 (rc_left r) (rc_top r)
             (to_LONG (rc_right r - rc_left r)) (to_LONG (rc_bottom r - rc_top r)) uFlags
  = r.
Proof.
  intros Hm Hs Hr Hb. unfold moved_rect. rewrite Hm, Hs. cbn [andb].
  rewrite !to_LONG_add_sub by done. by destruct r.
Qed.

Lemma resized_same r : resized r r = false.
Proof. unfold resized. by rewrite !Z.eqb_refl. Qed.

Lemma not_topmost_idemp e : not_topmost (not_topmost e) = not_topmost e.
Proof.
  unfold not_topmost. by_bits n.
  destruct (Z.testbit e n), (Z.testbit WS_EX_TOPMOST n); done.
Qed.

Lemma not_topmost_id e : Z.land e WS_EX_TOPMOST = 0 -> not_topmost e = e.
Proof.
  intros H. unfold not_topmost. by_bits n. pose proof (land_0_bit _ _ n H).
  destruct (Z.testbit e n), (Z.testbit WS_EX_TOPMOST n); done.
Qed.

Lemma lowered_id w : Z.land (w_exStyle w) WS_EX_TOPMOST = 0 -> lowered w = w.
Proof. intros H. unfold lowered. rewrite not_topmost_id by done. by destruct w. Qed.

Lemma lowered_placed area w : lowered (placed area w) = placed area w.
Proof.
  unfold lowered, placed, with_exStyle.
  cbn [w_parent w_style w_exStyle w_rect w_client w_showCmd w_ncCalcSize].
  by rewrite not_topmost_idemp.
Qed.

(** [SetWindowPos(HWND_BOTTOM)] with a position and an extent, no frame
    change and no show or hide request. *)
Lemma positioned_places area uFlags w :
  has_flag uFlags SWP_NOMOVE = false -> has_flag uFlags SWP_NOSIZE = false ->
  has_flag uFlags SWP_NOZORDER = false -> has_flag uFlags SWP_FRAMECHANGED = false ->
  has_flag uFlags SWP_SHOWWINDOW = false -> has_flag uFlags SWP_HIDEWINDOW = false ->
  LONG_range (rc_right area) -> LONG_range (rc_bottom area) ->
  positioned HWND_BOTTOM (rc_left area) (rc_top area)
             (to_LONG (rc_right area - rc_left area))
             (to_LONG (rc_bottom area - rc_top area)) uFlags w
  = placed area w.
Proof.
  intros Hm Hs Hz Hf Hv Hh Hr Hb. unfold positioned, placed.
  rewrite moved_rect_places by done.
  unfold shown_style, ordered_exStyle. by rewrite Hz, Hf, Hv, Hh.
Qed.

(** [SetWindowPos(HWND_TOPMOST)] with a position, an extent and
    [SWP_SHOWWINDOW]. *)
Lemma positioned_on_top area uFlags w :
  has_flag uFlags SWP_NOMOVE = false -> has_flag uFlags SWP_NOSIZE = false ->
  has_flag uFlags SWP_NOZORDER = false -> has_flag uFlags SWP_FRAMECHANGED = false ->
  has_flag uFlags SWP_SHOWWINDOW = true ->
  LONG_range (rc_right area) -> LONG_range (rc_bottom area) ->
  positioned HWND_TOPMOST (rc_left area) (rc_top area)
             (to_LONG (rc_right area - rc_left area))
             (to_LONG (rc_bottom area - rc_top area)) uFlags w
  = shown_on_top area w.
Proof.
  intros Hm Hs Hz Hf Hv Hr Hb. unfold positioned, shown_on_top.
  rewrite moved_rect_places by done.
  unfold shown_style, ordered_exStyle. by rewrite Hz, Hf, Hv.
Qed.

(** The same call with [SWP_NOMOVE | SWP_NOSIZE]: at most the topmost
    status changes. *)
Lemma positioned_in_place X Y cx cy uFlags w :
  has_flag uFlags SWP_NOMOVE = true -> has_flag uFlags SWP_NOSIZE = true ->
  has_flag uFlags SWP_NOZORDER = false -> has_flag uFlags SWP_FRAMECHANGED = false ->
  has_flag uFlags SWP_SHOWWINDOW = false -> has_flag uFlags SWP_HIDEWINDOW = false ->
  positioned HWND_BOTTOM X Y cx cy uFlags w = lowered w.
Proof.
  intros Hm Hs Hz Hf Hv Hh. unfold positioned, lowered, with_exStyle.
  rewrite moved_rect_nomove_nosize by done.
  unfold shown_style, ordered_exStyle. by rewrite Hz, Hf, Hv, Hh, resized_same.
Qed.


Lemma alter_live `{Countable K} {A} (f : A -> A) (m : gmap K A) i x :
  m !! i = Some x -> alter f i m = <[i := f x]> m.
Proof.
  intros E. apply map_eq. intros j. destruct (decide (j = i)) as [-> | Hne].
  - by rewrite lookup_alter_eq, lookup_insert_eq, E.
  - by rewrite lookup_alter_ne, lookup_insert_ne.
Qed.

Lemma alter_dead `{Countable K} {A} (f : A -> A) (m : gmap K A) i :
  m !! i = None -> alter f i m = m.
Proof.
  intros E. apply map_eq. intros j. destruct (decide (j = i)) as [-> | Hne].
  - by rewrite lookup_alter_eq, E.
  - by rewrite lookup_alter_ne.
Qed.

Section Platform.
Variable rejects : Call -> bool.

(** The last call of a refresh: when the platform carries it out, the
    game window loses a topmost status it may have; nothing else
    changes. *)
Lemma SetWindowPos_refresh_windows h os :
  let c := CSetWindowPos h HWND_BOTTOM 0 0 0 0
             (Z.lor SWP_NOMOVE (Z.lor SWP_NOSIZE (Z.lor SWP_NOACTIVATE SWP_NOOWNERZORDER))) in
  windows (snd (SetWindowPos rejects h HWND_BOTTOM 0 0 0 0
                  (Z.lor SWP_NOMOVE (Z.lor SWP_NOSIZE
                     (Z.lor SWP_NOACTIVATE SWP_NOOWNERZORDER))) os))
  = if rejects c then windows os else alter lowered h (windows os).
Proof.
  cbn zeta. unfold SetWindowPos, served. cbn [log_call windows].
  destruct (windows os !! h) as [w |] eqn:E.
  - destruct (rejects _); [done |].
    cbn [snd put_window with_windows windows].
    rewrite positioned_in_place by reflexivity. by rewrite (alter_live _ _ _ w).
  - cbn [snd SetLastError windows]. rewrite alter_dead by done. by destruct (rejects _).
Qed.

Lemma SynchronizeWindowRefresh_windows container h os :
  windows (SynchronizeWindowRefresh rejects container h os)
  = if IsWindow container os && IsWindow h os
       && negb (rejects (CSetWindowPos h HWND_BOTTOM 0 0 0 0
                           (Z.lor SWP_NOMOVE (Z.lor SWP_NOSIZE
                              (Z.lor SWP_NOACTIVATE SWP_NOOWNERZORDER)))))
    then alter lowered h (windows os)
    else windows os.
Proof.
  unfold SynchronizeWindowRefresh.
  destruct (IsWindow container os); cbn [negb orb andb]; [| done].
  destruct (IsWindow h os); cbn [negb orb andb]; [| done].
  pose proof (InvalidateRect_windows rejects h false os) as W1.
  destruct (InvalidateRect rejects h false os) as [r1 os1]. cbn [snd] in W1.
  pose proof (InvalidateRect_windows rejects container false os1) as W2.
  destruct (InvalidateRect rejects container false os1) as [r2 os2]. cbn [snd] in W2.
  pose proof (UpdateWindow_windows rejects h os2) as W3.
  destruct (UpdateWindow rejects h os2) as [r3 os3]. cbn [snd] in W3.
  pose proof (UpdateWindow_windows rejects container os3) as W4.
  destruct (UpdateWindow rejects container os3) as [r4 os4]. cbn [snd] in W4.
  rewrite SetWindowPos_refresh_windows.
  replace (windows os4) with (windows os) by congruence.
  by destruct (rejects _).
Qed.

(** A refresh changes nothing about a window that is not topmost. *)
Lemma SynchronizeWindowRefresh_keeps container h os w :
  windows os !! h = Some w -> lowered w = w ->
  windows (SynchronizeWindowRefresh rejects container h os) = windows os.
Proof.
  intros E Hw. rewrite SynchronizeWindowRefresh_windows.
  destruct (_ && _); [| done].
  rewrite (alter_live _ _ _ w) by done. rewrite Hw. by apply insert_id.
Qed.



(** The windows after a position update that the platform carries
    out. *)
Lemma UpdateGameWindowPosition_accepted parent gw gameArea os w :
  windows os !! gw = Some w ->
  LONG_range (rc_right gameArea) -> LONG_range (rc_bottom gameArea) ->
  rejects (CSetWindowPos gw HWND_BOTTOM (rc_left gameArea) (rc_top gameArea)
             (to_LONG (rc_right gameArea - rc_left gameArea))
             (to_LONG (rc_bottom gameArea - rc_top gameArea))
             (Z.lor SWP_NOACTIVATE SWP_NOOWNERZORDER)) = false ->
  windows (UpdateGameWindowPosition rejects parent gw gameArea os)
  = <[gw := placed gameArea w]> (windows os).
Proof.
  intros E Hr Hb Hacc. unfold UpdateGameWindowPosition, IsWindow. rewrite E. cbn [negb].
  erewrite SetWindowPos_accepted by eassumption.
  rewrite positioned_places by (reflexivity || done).
  erewrite SynchronizeWindowRefresh_keeps;
    [done | cbn [windows]; apply lookup_insert_eq | apply lowered_placed].
Qed.

(** X2 -- placing the embedded window.  On a live game window, when the
    platform carries out the positioning call (the game area holding
    [LONG] coordinates), after [UpdateGameWindowPosition] the window's
    rectangle is the game area it was given and the window is not
    topmost; its parent, style, other extended style bits and show
    state are as before, and its client rectangle is the one its
    procedure answers for the new rectangle when the extent has changed
    and the old one otherwise.  No other window changes -- whether or
    not the container is alive and whatever the platform answers to the
    repaint requests that follow. *)
Theorem UpdateGameWindowPosition_places (parent gw : HWND) (gameArea : RECT)
    (os : Desktop) (w : Window) :
  windows os !! gw = Some w ->
  LONG_range (rc_right gameArea) -> LONG_range (rc_bottom gameArea) ->
  rejects (CSetWindowPos gw HWND_BOTTOM (rc_left gameArea) (rc_top gameArea)
             (to_LONG (rc_right gameArea - rc_left gameArea))
             (to_LONG (rc_bottom gameArea - rc_top gameArea))
             (Z.lor SWP_NOACTIVATE SWP_NOOWNERZORDER)) = false ->
  exists w',
    windows (UpdateGameWindowPosition rejects parent gw gameArea os)
    = <[gw := w']> (windows os)
    /\ w_rect w' = gameArea
    /\ Z.land (w_exStyle w') WS_EX_TOPMOST = 0
    /\ (forall f, Z.land f WS_EX_TOPMOST = 0 ->
        Z.land (w_exStyle w') f = Z.land (w_exStyle w) f)
    /\ w_parent w' = w_parent w /\ w_style w' = w_style w
    /\ w_showCmd w' = w_showCmd w
    /\ w_client w'
       = if resized (w_rect w) gameArea
         then w_ncCalcSize w (w_style w') (w_exStyle w') gameArea
         else w_client w.
Proof.
  intros E Hr Hb Hacc. exists (placed gameArea w).
  split; [by apply UpdateGameWindowPosition_accepted |].
  unfold placed, not_topmost. cbn [w_parent w_style w_exStyle w_rect w_client w_showCmd].
  repeat split.
  - by_bits n.
    destruct (Z.testbit (w_exStyle w) n), (Z.testbit WS_EX_TOPMOST n); done.
  - intros f Hf. by_bits n. pose proof (land_0_bit f WS_EX_TOPMOST n Hf) as Hn.
    destruct (Z.testbit (w_exStyle w) n), (Z.testbit WS_EX_TOPMOST n),
      (Z.testbit f n); done.
Qed.

(** X3 -- the synchronized refresh only repaints and lowers.  With
    either window gone [SynchronizeWindowRefresh] issues no call at
    all; with both alive it issues exactly: invalidate game, invalidate
    container, update game, update container, and a
    [SetWindowPos(HWND_BOTTOM)] of the game window that neither moves
    nor resizes.  That last call, when the platform carries it out,
    takes a topmost status from the game window; no other attribute of
    any window changes, whatever the platform answers, and for a game
    window that is not topmost no attribute changes at all. *)
Theorem SynchronizeWindowRefresh_only_repaints (container gw : HWND) (os : Desktop) :
  let os' := SynchronizeWindowRefresh rejects container gw os in
  let lower := CSetWindowPos gw HWND_BOTTOM 0 0 0 0
                 (Z.lor SWP_NOMOVE (Z.lor SWP_NOSIZE
                    (Z.lor SWP_NOACTIVATE SWP_NOOWNERZORDER))) in
  windows os'
  = (if IsWindow container os && IsWindow gw os && negb (rejects lower)
     then alter (fun w => with_exStyle (Z.land (w_exStyle w) (Z.lnot WS_EX_TOPMOST)) w)
                gw (windows os)
     else windows os)
  /\ (forall w, windows os !! gw = Some w -> Z.land (w_exStyle w) WS_EX_TOPMOST = 0 ->
        windows os' = windows os)
  /\ os_log os'
     = os_log os
       ++ (if IsWindow container os && IsWindow gw os
           then [CInvalidateRect gw false; CInvalidateRect container false;
                 CUpdateWindow gw; CUpdateWindow container; lower]
           else [])
  /\ (IsWindow container os && IsWindow gw os = false -> os' = os).
Proof.
  intros os' lower. split; [apply SynchronizeWindowRefresh_windows |].
  split.
  { intros w E Hw. apply (SynchronizeWindowRefresh_keeps _ _ _ w E). by apply lowered_id. }
  subst os' lower. unfold SynchronizeWindowRefresh.
  destruct (IsWindow container os) eqn:Hc; cbn [negb orb andb];
    [| by rewrite app_nil_r].
  destruct (IsWindow gw os) eqn:Hg; cbn [negb orb andb]; [| by rewrite app_nil_r].
  split; [| done].
  unfold IsWindow in Hc, Hg.
  destruct (windows os !! container) as [wc |] eqn:Ec; [| done].
  destruct (windows os !! gw) as [wg |] eqn:Eg; [| done].
  unfold InvalidateRect, UpdateWindow, SetWindowPos, served.
  cbn [log_call windows os_log SetLastError put_window with_windows fst snd].
  rewrite Eg. destruct (rejects (CInvalidateRect gw false));
    cbn [log_call windows os_log SetLastError put_window with_windows fst snd];
    rewrite Ec; destruct (rejects (CInvalidateRect container false));
    cbn [log_call windows os_log SetLastError put_window with_windows fst snd];
    rewrite Eg; destruct (rejects (CUpdateWindow gw));
    cbn [log_call windows os_log SetLastError put_window with_windows fst snd];
    rewrite Ec; destruct (rejects (CUpdateWindow container));
    cbn [log_call windows os_log SetLastError put_window with_windows fst snd];
    rewrite Eg; destruct (rejects (CSetWindowPos _ _ _ _ _ _ _));
    cbn [log_call windows os_log SetLastError put_window with_windows fst snd];
    by rewrite <- !app_assoc.
Qed.

(* ----------------------------------------------------------------- *)
(** *** The records *)

Lemma tracked_iff m gw : tracked m gw <-> gw ∈ gameWindow <$> m.
Proof.
  unfold tracked. rewrite list_elem_of_fmap. split.
  - intros [info [? ?]]. by exists info.
  - intros [info [? ?]]. by exists info.
Qed.

(** The records after an embed: those before, or those before and the
    record just captured, when the window had none. *)
Lemma Embed_records m parent gw os :
  let r := EmbedGameWindow rejects m parent gw os in
  (snd (fst r) = m /\ (fst (fst r) = true -> tracked m gw))
  \/ (~ tracked m gw /\ fst (fst r) = true
      /\ snd (fst r) = m ++ [SaveWindowState gw (blank_info gw) os]).
Proof.
  cbn zeta. unfold EmbedGameWindow.
  destruct (IsWindow gw os); cbn [negb]; [| by left].
  destruct (IsWindow parent os); cbn [negb]; [| by left].
  destruct (existsb _ m) eqn:Ex.
  { left. split; [done |]. intros _. by apply already_embedded_iff. }
  apply not_embedded_iff in Ex.
  destruct (SetParent rejects gw parent (SetLastError 0 os)) as [oldParent os1].
  destruct ((oldParent =? NULL) && negb (GetLastError os1 =? 0)); [by left |].
  right.
  destruct (InvalidateRect rejects parent true _) as [r4 os4].
  destruct (InvalidateRect rejects gw true os4) as [r5 os5].
  destruct (UpdateWindow rejects parent os5) as [r6 os6].
  destruct (UpdateWindow rejects gw os6) as [r7 os7].
  done.
Qed.

(** X4 -- one record per window.  If no two records are for the same
    window, this is still so after [EmbedGameWindow] and after
    [RestoreGameWindow], whatever their arguments and results; and the
    result of [EmbedGameWindow] tells about the records: when it
    returns [true] the window has a record afterwards, when it returns
    [false] the records are those from before. *)
Theorem records_stay_unique (m : State) (parent gw : HWND) (os : Desktop) :
  NoDup (gameWindow <$> m) ->
  let embed := EmbedGameWindow rejects m parent gw os in
  NoDup (gameWindow <$> snd (fst embed))
  /\ NoDup (gameWindow <$> snd (fst (RestoreGameWindow rejects m gw os)))
  /\ (fst (fst embed) = true -> tracked (snd (fst embed)) gw)
  /\ (fst (fst embed) = false -> snd (fst embed) = m).
Proof.
  intros Hm. cbn zeta. split; [| split].
  - destruct (Embed_records m parent gw os) as [[-> _] | [Hno [_ ->]]]; [done |].
    rewrite fmap_app. apply NoDup_app. split; [done |]. split.
    + intros h Hin Hh. apply list_elem_of_singleton in Hh. cbn in Hh. subst h.
      by apply Hno, tracked_iff.
    + apply NoDup_singleton.
  - unfold RestoreGameWindow.
    destruct (list_find _ m) as [[it info] |]; [| done].
    cbn [fst snd]. rewrite list_fmap_delete.
    apply (sublist_NoDup _ _ Hm), sublist_delete.
  - destruct (Embed_records m parent gw os) as [[Hsame Htr] | [Hno [Hr Hm']]].
    + rewrite Hsame. split; [exact Htr | done].
    + rewrite Hr, Hm'. split; [| done]. intros _.
      exists (SaveWindowState gw (blank_info gw) os). split; [| done].
      apply elem_of_app. right. apply list_elem_of_here.
Qed.

Lemma delete_forgets {A B} (f : A -> B) (m : list A) i x :
  NoDup (f <$> m) -> m !! i = Some x -> f x ∉ f <$> delete i m.
Proof.
  revert i. induction m as [| y m IH]; intros [| i] Hd Hi; try done.
  - cbn in *. injection Hi as ->. by apply NoDup_cons in Hd as [? _].
  - cbn in *. apply NoDup_cons in Hd as [Hy Hd].
    rewrite elem_of_cons. intros [Heq | Hin].
    + apply Hy. rewrite <- Heq. apply list_elem_of_fmap. exists x.
      split; [done |]. by eapply list_elem_of_lookup_2.
    + by apply (IH i).
Qed.

Lemma delete_keeps_others {A B} (f : A -> B) (m : list A) i x y :
  m !! i = Some x -> y <> f x -> y ∈ f <$> delete i m <-> y ∈ f <$> m.
Proof.
  revert i. induction m as [| z m IH]; intros [| i] Hi Hne; try done.
  - cbn in *. injection Hi as ->. rewrite elem_of_cons.
    split; [by right | by intros [? | ?]].
  - cbn in *. rewrite !elem_of_cons, (IH i) by done. done.
Qed.

(** X5 -- a restore forgets the window.  With one record per window, a
    [RestoreGameWindow] that returns [true] leaves one record fewer and
    none for that window, keeps the records of every other window, and
    a second [RestoreGameWindow] for the window returns [false] and
    changes neither the records nor the desktop. *)
Theorem restore_forgets_window (m m' : State) (gw : HWND) (os os' : Desktop) :
  NoDup (gameWindow <$> m) ->
  RestoreGameWindow rejects m gw os = (true, m', os') ->
  ~ tracked m' gw
  /\ S (length m') = length m
  /\ (forall h, h <> gw -> tracked m' h <-> tracked m h)
  /\ RestoreGameWindow rejects m' gw os' = (false, m', os').
Proof.
  intros Hm. unfold RestoreGameWindow at 1.
  destruct (list_find _ m) as [[it info] |] eqn:F; [| done].
  intros [= <- <-].
  apply list_find_Some in F as [Hit [Hgw _]].
  assert (Hno : ~ tracked (delete it m) gw).
  { rewrite tracked_iff, <- Hgw. by apply delete_forgets. }
  split; [done |]. split.
  { rewrite length_delete by eauto. apply lookup_lt_Some in Hit. lia. }
  split.
  { intros h Hne. rewrite !tracked_iff.
    apply (delete_keeps_others gameWindow m it info h Hit). by rewrite Hgw. }
  unfold RestoreGameWindow. by rewrite untracked_find.
Qed.

End Platform.


(** The style change on the sample desktop: without its caption the
    game window's client rectangle is its whole extent. *)
Example ApplyEmbeddedStyle_sample :
  windows (ApplyEmbeddedStyle accept_all 7 desk) !! 7
  = Some (mkWindow NULL 0x54000000 0 (mkRECT 100 100 740 580) (mkRECT 0 0 640 480) 1
                   framed).
Proof. reflexivity. Qed.

Lemma UpdateGameWindowPosition_places_witness :
  exists w',
    windows (UpdateGameWindowPosition accept_all 1 7 (mkRECT 10 10 650 490) desk)
    = <[7 := w']> (windows desk)
    /\ w_rect w' = mkRECT 10 10 650 490
    /\ Z.land (w_exStyle w') WS_EX_TOPMOST = 0
    /\ (forall f, Z.land f WS_EX_TOPMOST = 0 ->
        Z.land (w_exStyle w') f = Z.land (w_exStyle game) f)
    /\ w_parent w' = w_parent game /\ w_style w' = w_style game
    /\ w_showCmd w' = w_showCmd game
    /\ w_client w' = w_client game.
Proof.
  apply (UpdateGameWindowPosition_places accept_all 1 7 (mkRECT 10 10 650 490) desk game);
    try reflexivity; unfold LONG_range; cbn; lia.
Defined.

Lemma records_stay_unique_witness :
  let embed := EmbedGameWindow accept_all [game_record] 1 7 desk in
  NoDup (gameWindow <$> snd (fst embed))
  /\ NoDup (gameWindow <$> snd (fst (RestoreGameWindow accept_all [game_record] 7 desk)))
  /\ (fst (fst embed) = true -> tracked (snd (fst embed)) 7)
  /\ (fst (fst embed) = false -> snd (fst embed) = [game_record]).
Proof.
  apply (records_stay_unique accept_all [game_record] 1 7 desk). apply NoDup_singleton.
Defined.

Lemma restore_forgets_window_witness :
  let os' := snd (RestoreGameWindow accept_all [game_record] 7 desk) in
  ~ tracked [] 7
  /\ S (length (@nil EmbeddedWindowInfo)) = length [game_record]
  /\ (forall h, h <> 7 -> tracked [] h <-> tracked [game_record] h)
  /\ RestoreGameWindow accept_all [] 7 os' = (false, [], os').
Proof.
  apply (restore_forgets_window accept_all [game_record] [] 7 desk
           (snd (RestoreGameWindow accept_all [game_record] 7 desk)));
    [apply NoDup_singleton | reflexivity].
Defined.

End EmbeddingFacts.

(* ===================================================================== *)
(** * Finding the game window *)
(* ===================================================================== *)

Module FinderFacts.
Import CRuntime WindowFinder Notions Samples Scenarios.

Local Open Scope string_scope.
Local Open Scope Z_scope.

Section Platform.
Variable rejects : Call -> bool.
Variable shell : Shell.

Lemma EnumWindows_fold handles : forall acc info,
  info ∈ fold_left (fun windows_ hwnd_ => EnumWindowsProc shell hwnd_ windows_) handles acc ->
  info ∈ acc \/ (hwnd info ∈ handles /\ listed shell info).
Proof.
  induction handles as [| h handles IH]; intros acc info Hin; [by left |].
  cbn [fold_left] in Hin. apply IH in Hin as [Hin | [Hin HL]].
  - unfold EnumWindowsProc in Hin.
    destruct (IsWindowVisible shell h) eqn:Hv; [| by left].
    cbn [title] in Hin.
    destruct (String.eqb (substr (GetWindowText shell h) 0 255) "") eqn:Ht;
      cbn [negb] in Hin; [by left |].
    apply elem_of_app in Hin as [Hin | Hin]; [by left |].
    apply list_elem_of_singleton in Hin. subst info. right.
    split; [apply list_elem_of_here |]. unfold listed. cbn.
    repeat split; try done. by apply String.eqb_neq.
  - right. split; [by apply list_elem_of_further | done].
Qed.

Lemma EnumerateWindows_listed info :
  In info (EnumerateWindows shell) -> hwnd info ∈ EnumWindows shell /\ listed shell info.
Proof.
  intros Hin. apply list_elem_of_In in Hin.
  apply EnumWindows_fold in Hin as [Hin | Hin]; [| done].
  by apply elem_of_nil in Hin.
Qed.

(** The window [FindGameWindow] returns, when it returns one. *)
Lemma FindGameWindow_found os indeterminate :
  FindGameWindow rejects shell os indeterminate <> NULL ->
  exists window,
    hwnd window = FindGameWindow rejects shell os indeterminate
    /\ In window (EnumerateWindows shell)
    /\ IsSlippiWindow window || IsDolphinWindow rejects shell os window = true
    /\ IsValidGameWindow rejects shell os indeterminate (hwnd window) = true.
Proof.
  unfold FindGameWindow.
  destruct (List.find _ (EnumerateWindows shell)) as [window |] eqn:F; [| done].
  intros _. apply find_some in F as [Hin Hok].
  apply andb_true_iff in Hok as [Hkind Hvalid]. by exists window.
Qed.

(** X6 -- the window found is a usable game window.  When
    [FindGameWindow] returns a window, it is one of the top-level
    windows enumerated, it is alive and visible, its title is not empty,
    and its bounding rectangle is at least 400 wide and 300 high. *)
Theorem FindGameWindow_sound (os : Desktop) (indeterminate : RECT) :
  let h := FindGameWindow rejects shell os indeterminate in
  h <> NULL ->
  h ∈ EnumWindows shell
  /\ IsWindowVisible shell h = true
  /\ substr (GetWindowText shell h) 0 255 <> ""
  /\ exists w, windows os !! h = Some w
       /\ 400 <= to_LONG (rc_right (w_rect w) - rc_left (w_rect w))
       /\ 300 <= to_LONG (rc_bottom (w_rect w) - rc_top (w_rect w)).
Proof.
  intros h Hh. subst h.
  destruct (FindGameWindow_found os indeterminate Hh) as [window [<- [Hin [_ Hvalid]]]].
  apply EnumerateWindows_listed in Hin as [Henum [Hv [Ht [_ Hne]]]].
  split; [done |]. split; [done |]. split; [by rewrite <- Ht |].
  unfold IsValidGameWindow, IsWindow, GetWindowRect in Hvalid.
  destruct (windows os !! hwnd window) as [w |] eqn:E; [| done].
  rewrite Hv in Hvalid. cbn [negb orb fmap option_fmap option_map] in Hvalid.
  exists w. split; [done |].
  destruct (to_LONG (rc_right (w_rect w) - rc_left (w_rect w)) <? 400) eqn:Hw; [done |].
  destruct (to_LONG (rc_bottom (w_rect w) - rc_top (w_rect w)) <? 300) eqn:Hht; [done |].
  lia.
Qed.


End Platform.

Example FindGameWindow_sample :
  FindGameWindow accept_all sample_shell desk RECT_zero = 7.
Proof. vm_compute. reflexivity. Qed.

Lemma FindGameWindow_sound_witness :
  7 ∈ EnumWindows sample_shell
  /\ IsWindowVisible sample_shell 7 = true
  /\ substr (GetWindowText sample_shell 7) 0 255 <> ""
  /\ exists w, windows desk !! 7 = Some w
       /\ 400 <= to_LONG (rc_right (w_rect w) - rc_left (w_rect w))
       /\ 300 <= to_LONG (rc_bottom (w_rect w) - rc_top (w_rect w)).
Proof.
  apply (FindGameWindow_sound accept_all sample_shell desk RECT_zero).
  vm_compute. discriminate.
Defined.


End FinderFacts.

(* ===================================================================== *)
(** * Injection records and kernel resources *)
(* ===================================================================== *)

Module InjectionRecordFacts.
Import GameDataInterface Notions Samples.
Import WindowFacts.

Local Open Scope string_scope.
Local Open Scope list_scope.
Local Open Scope Z_scope.

Lemma with_injectedProcesses_same st :
  with_injectedProcesses (m_injectedProcesses st) st = st.
Proof. by destruct st. Qed.

Lemma with_injectedProcesses_twice ps ps' st :
  with_injectedProcesses ps (with_injectedProcesses ps' st) = with_injectedProcesses ps st.
Proof. done. Qed.

Lemma not_injected_iff st pid :
  IsDLLInjected st pid = false <-> pid ∉ processId <$> m_injectedProcesses st.
Proof.
  unfold IsDLLInjected. rewrite list_elem_of_fmap. split.
  - intros Hex [p [-> Hin]].
    assert (existsb (fun q => processId q =? processId p) (m_injectedProcesses st) = true);
      [| congruence].
    apply existsb_exists. exists p. split; [by apply list_elem_of_In | apply Z.eqb_refl].
  - intros Hno. destruct (existsb _ _) eqn:Ex; [| done].
    apply existsb_exists in Ex as [p [Hin Heq]]. destruct Hno. exists p.
    split; [symmetry; by apply Z.eqb_eq | by apply list_elem_of_In].
Qed.

Section Kernel.
Variable K : Oracle.

(** The object after the loader: unchanged, or with one record more,
    for this process, holding the handle opened and the module
    loaded. *)
Lemma InjectDLLIntoProcess_records st pid dllPath :
  let r := InjectDLLIntoProcess K st pid dllPath in
  (fst (fst r) = false /\ snd (fst r) = st)
  \/ (fst (fst r) = true
      /\ exists dllModule_,
           snd (fst r)
           = with_injectedProcesses
               (m_injectedProcesses st
                ++ [mkInjected pid (OpenProcess K PROCESS_ALL_ACCESS pid) dllModule_]) st).
Proof.
  cbn zeta. unfold InjectDLLIntoProcess.
  destruct (OpenProcess K PROCESS_ALL_ACCESS pid =? 0); [by left |].
  destruct (VirtualAllocEx K _ _ _ =? 0); [by left |].
  destruct (WriteProcessMemory K _ _ _ _); cbn [negb]; [| by left].
  destruct (GetProcAddress K _ _ =? 0); [by left |].
  destruct (CreateRemoteThread K _ _ _ =? 0); [by left |].
  destruct (snd (GetExitCodeThread K _) =? 0); [by left |].
  right. split; [done |]. eauto.
Qed.

Lemma InjectDLL_records st pid :
  let r := InjectDLL K st pid in
  snd (fst r) = st
  \/ (IsDLLInjected st pid = false /\ fst (fst r) = true
      /\ exists dllModule_,
           snd (fst r)
           = with_injectedProcesses
               (m_injectedProcesses st
                ++ [mkInjected pid (OpenProcess K PROCESS_ALL_ACCESS pid) dllModule_]) st).
Proof.
  cbn zeta. unfold InjectDLL.
  destruct (IsDLLInjected st pid) eqn:Hinj; [by left |].
  destruct (String.eqb (GetDLLPath K) ""); [by left |].
  destruct (InjectDLLIntoProcess_records st pid (GetDLLPath K)) as [[_ H] | [H1 H2]];
    [by left | by right].
Qed.

(** X8 -- one record per process.  If no two injection records are for
    the same process id, this is still so after [InjectDLL] and after
    [EjectDLL], whatever the process id and whatever the kernel
    answers. *)
Theorem injection_records_stay_unique (st : State) (pid : Z) :
  NoDup (processId <$> m_injectedProcesses st) ->
  NoDup (processId <$> m_injectedProcesses (snd (fst (InjectDLL K st pid))))
  /\ NoDup (processId <$> m_injectedProcesses (snd (fst (EjectDLL K st pid)))).
Proof.
  intros Hst. split.
  - destruct (InjectDLL_records st pid) as [-> | [Hno [_ [dm ->]]]]; [done |].
    cbn [with_injectedProcesses m_injectedProcesses].
    rewrite fmap_app. apply NoDup_app. split; [done |]. split.
    + intros p Hin Hp. apply list_elem_of_singleton in Hp. cbn in Hp. subst p.
      by apply not_injected_iff in Hno.
    + apply NoDup_singleton.
  - unfold EjectDLL, EjectDLLFromProcess.
    destruct (list_find _ _) as [[it p] |]; [| done].
    cbn [fst snd with_injectedProcesses m_injectedProcesses].
    rewrite list_fmap_delete. apply (sublist_NoDup _ _ Hst), sublist_delete.
Qed.

(** For a process without a record, an [InjectDLL] that returns [true]
    followed by [EjectDLL] leaves the object exactly as it was before
    the injection; [EjectDLL] returns [true], and its last kernel call
    closes the process handle that the injection had opened and kept. *)
Lemma InjectDLL_then_EjectDLL (st st1 : State) (pid : Z) (t : list KCall) :
  IsDLLInjected st pid = false ->
  InjectDLL K st pid = (true, st1, t) ->
  IsDLLInjected st1 pid = true
  /\ exists t',
       EjectDLL K st1 pid = (true, st, t')
       /\ last t' = Some (KCloseHandle (OpenProcess K PROCESS_ALL_ACCESS pid)).
Proof.
  intros Hno Hinj.
  destruct (InjectDLL_records st pid) as [Hsame | [_ [_ [dm Hst1]]]];
    rewrite Hinj in *; cbn [fst snd] in *.
  { (* the same object with a [true] result means a record was there *)
    subst st1. unfold InjectDLL in Hinj. rewrite Hno in Hinj.
    destruct (String.eqb (GetDLLPath K) ""); [done |].
    destruct (InjectDLLIntoProcess_records st pid (GetDLLPath K)) as [[H _] | [_ [dm H]]];
      rewrite Hinj in *; cbn [fst snd] in *; [done |].
    apply (f_equal (fun s => length (m_injectedProcesses s))) in H.
    cbn [with_injectedProcesses m_injectedProcesses] in H.
    rewrite length_app in H. cbn in H. lia. }
  subst st1.
  set (p := mkInjected pid (OpenProcess K PROCESS_ALL_ACCESS pid) dm).
  assert (Hfind : list_find (fun q => processId q = pid) (m_injectedProcesses st ++ [p])
                  = Some (length (m_injectedProcesses st), p)).
  { rewrite list_find_app_r.
    - cbn. by rewrite decide_True.
    - apply list_find_None, Forall_forall. intros q Hq Heq.
      apply not_injected_iff in Hno. apply Hno. apply list_elem_of_fmap. by exists q. }
  split.
  - unfold IsDLLInjected. cbn [with_injectedProcesses m_injectedProcesses].
    rewrite existsb_app. cbn. by rewrite Z.eqb_refl, orb_true_r.
  - unfold EjectDLL, EjectDLLFromProcess.
    cbn [with_injectedProcesses m_injectedProcesses]. rewrite Hfind. cbv beta iota.
    rewrite delete_appended, with_injectedProcesses_twice, with_injectedProcesses_same.
    eexists. split; [reflexivity |]. by rewrite last_snoc.
Qed.

(** X9 -- an eject always reports success.  For a process that has a
    record, [EjectDLL] returns [true], removes the first record for it
    and closes the stored process handle as its last kernel call --
    also when nothing was unloaded: when [FreeLibrary] is not found it
    issues no other call, and when the remote thread cannot be created
    the failed creation is its only other call. *)
Theorem EjectDLL_always_reports_success (st : State) (pid : Z) :
  IsDLLInjected st pid = true ->
  let freeLibraryAddr := GetProcAddress K (GetModuleHandle K "kernel32.dll") "FreeLibrary" in
  exists it process t,
    list_find (fun q => processId q = pid) (m_injectedProcesses st) = Some (it, process)
    /\ EjectDLL K st pid
       = (true, with_injectedProcesses (delete it (m_injectedProcesses st)) st,
          t ++ [KCloseHandle (processHandle process)])
    /\ (freeLibraryAddr = 0 -> t = [])
    /\ (freeLibraryAddr <> 0 ->
        CreateRemoteThread K (processHandle process) freeLibraryAddr (dllModule process) = 0 ->
        t = [KCreateRemoteThread (processHandle process) freeLibraryAddr (dllModule process)]).
Proof.
  intros Hinj addr.
  unfold EjectDLL, EjectDLLFromProcess.
  destruct (list_find _ _) as [[it p] |] eqn:F.
  - exists it, p. eexists. split; [done |]. split; [reflexivity |]. fold addr. split.
    + intros ->. done.
    + intros Hne Hth. apply Z.eqb_neq in Hne. by rewrite Hne, Hth.
  - exfalso. apply list_find_None in F. rewrite Forall_forall in F.
    unfold IsDLLInjected in Hinj. apply existsb_exists in Hinj as [q [Hq Heq]].
    apply (F q); [by apply list_elem_of_In | by apply Z.eqb_eq].
Qed.

(** X10 -- the library file comes first.  [GetDLLPath] returns the
    empty string or the path of a file that exists; and when it returns
    the empty string [InjectDLL] issues no kernel call at all: it
    reports whether a record was already there and leaves the object
    as it is. *)
Theorem InjectDLL_needs_library_file (st : State) (pid : Z) :
  (GetDLLPath K = "" \/ GetFileAttributes K (GetDLLPath K) = true)
  /\ (GetDLLPath K = "" -> InjectDLL K st pid = (IsDLLInjected st pid, st, [])).
Proof.
  split.
  - unfold GetDLLPath.
    destruct (GetFileAttributes K (_ ++ "overlay.dll")%string) eqn:E1; [by right |].
    destruct (GetFileAttributes K ("build" ++ _)%string) eqn:E2; [by right | by left].
  - intros Hnone. unfold InjectDLL. rewrite Hnone.
    by destruct (IsDLLInjected st pid).
Qed.


End Kernel.

Lemma injection_records_stay_unique_witness :
  NoDup (processId <$> m_injectedProcesses
           (snd (fst (InjectDLL Scenarios.cooperative injected_4242 4242))))
  /\ NoDup (processId <$> m_injectedProcesses
              (snd (fst (EjectDLL Scenarios.cooperative injected_4242 4242)))).
Proof.
  apply (injection_records_stay_unique Scenarios.cooperative injected_4242 4242).
  apply NoDup_singleton.
Defined.

(** On a kernel that can open no process and start no thread, the
    eject of a recorded process still reports success. *)
Lemma EjectDLL_always_reports_success_witness :
  let freeLibraryAddr :=
    GetProcAddress process_gone (GetModuleHandle process_gone "kernel32.dll") "FreeLibrary" in
  exists it process t,
    list_find (fun q => processId q = 4242) (m_injectedProcesses injected_4242)
    = Some (it, process)
    /\ EjectDLL process_gone injected_4242 4242
       = (true,
          with_injectedProcesses (delete it (m_injectedProcesses injected_4242)) injected_4242,
          t ++ [KCloseHandle (processHandle process)])
    /\ (freeLibraryAddr = 0 -> t = [])
    /\ (freeLibraryAddr <> 0 ->
        CreateRemoteThread process_gone (processHandle process) freeLibraryAddr
          (dllModule process) = 0 ->
        t = [KCreateRemoteThread (processHandle process) freeLibraryAddr (dllModule process)]).
Proof.
  apply (EjectDLL_always_reports_success process_gone injected_4242 4242). reflexivity.
Defined.

End InjectionRecordFacts.

(* ===================================================================== *)
(** * The pipe reader and the event history *)
(* ===================================================================== *)

Module ReaderFacts.
Import CRuntime GameDataInterface GameDataReader Notions Vocabulary Samples.

Local Open Scope list_scope.
Local Open Scope string_scope.

(* --------------------------------------------------------------------- *)
(** ** Strings *)

Lemma append_cons c (a b : string) : String c a ++ b = String c (a ++ b).
Proof. reflexivity. Qed.

Lemma length_append (a b : string) :
  String.length (a ++ b) = (String.length a + String.length b)%nat.
Proof.
  induction a as [| c a IH]; [done |]. rewrite append_cons. cbn. by rewrite IH.
Qed.

Lemma append_nil_r (a : string) : a ++ "" = a.
Proof. induction a as [| c a IH]; [done |]. by rewrite append_cons, IH. Qed.

Lemma append_assoc (a b c : string) : (a ++ b) ++ c = a ++ (b ++ c).
Proof. induction a as [| x a IH]; [done |]. by rewrite !append_cons, IH. Qed.

Lemma length_erase_front n : forall s,
  String.length (erase_front n s) = (String.length s - n)%nat.
Proof. induction n as [| n IH]; intros [| c s]; cbn; done. Qed.

Lemma c_str_append a b : c_str a = a -> c_str (a ++ b) = a ++ c_str b.
Proof.
  induction a as [| c a IH]; [done |]. rewrite !append_cons. cbn.
  destruct (Ascii.eqb c NUL); [done |]. intros [= H]. by rewrite IH.
Qed.

Lemma c_str_stops_at_NUL a b : c_str (a ++ String NUL b) = c_str a.
Proof.
  induction a as [| c a IH]; [done |]. rewrite append_cons. cbn.
  destruct (Ascii.eqb c NUL); [done |]. by rewrite IH.
Qed.

Lemma find_newline_cons c s :
  find newline (String c s)
  = if Ascii.eqb c LF then Some 0%nat else S <$> find newline s.
Proof.
  unfold newline. cbn [find String.prefix].
  destruct (Ascii.ascii_dec LF c) as [<- | Hne].
  - rewrite Ascii.eqb_refl. by destruct s.
  - destruct (Ascii.eqb_spec c LF); [by subst |]. done.
Qed.

(** The first line of a buffer is not affected by what follows it. *)
Lemma first_line_append x : forall pos y,
  find newline x = Some pos ->
  find newline (x ++ y) = Some pos
  /\ substr (x ++ y) 0 pos = substr x 0 pos
  /\ erase_front (pos + 1) (x ++ y) = erase_front (pos + 1) x ++ y
  /\ (pos < String.length x)%nat.
Proof.
  induction x as [| c x IH]; intros pos y H; [done |].
  rewrite find_newline_cons in H.
  change (String c x ++ y) with (String c (x ++ y)). rewrite find_newline_cons.
  destruct (Ascii.eqb c LF).
  - injection H as <-. cbn. repeat split; lia.
  - destruct (find newline x) as [p |] eqn:Fx; [| done]. injection H as <-.
    destruct (IH p y eq_refl) as [-> [H2 [H3 H4]]]. unfold substr in *.
    cbn. rewrite H2, H3. repeat split; lia.
Qed.

(** A buffer that is one whole line. *)
Lemma whole_line m : forall s,
  find newline m = None ->
  find newline (m ++ String LF s) = Some (String.length m)
  /\ substr (m ++ String LF s) 0 (String.length m) = m
  /\ erase_front (String.length m + 1) (m ++ String LF s) = s.
Proof.
  induction m as [| c m IH]; intros s H.
  - change ("" ++ String LF s) with (String LF s).
    rewrite find_newline_cons, Ascii.eqb_refl. done.
  - rewrite find_newline_cons in H.
    change (String c m ++ String LF s) with (String c (m ++ String LF s)).
    rewrite find_newline_cons.
    destruct (Ascii.eqb c LF); [done |].
    destruct (find newline m) eqn:Fm; [done |].
    destruct (IH s eq_refl) as [-> [H2 H3]]. unfold substr in *.
    cbn. by rewrite H2, H3.
Qed.

Section Clock.
Variable GetTickCount : nat -> Z.

(* --------------------------------------------------------------------- *)
(** ** The loop *)

Lemma process_messages_S fuel r :
  process_messages GetTickCount (S fuel) r
  = match find newline (messageBuffer r) with
    | None => Returns r
    | Some pos =>
        let message := substr (messageBuffer r) 0 pos in
        let rest := erase_front (pos + 1) (messageBuffer r) in
        if negb (String.eqb message "") then
          match ProcessIncomingData (interface r) message (GetTickCount (delivered r)) with
          | Returns st =>
              process_messages GetTickCount fuel (mkReader st rest (S (delivered r)))
          | Throws e => Throws e
          end
        else process_messages GetTickCount fuel (mkReader (interface r) rest (delivered r))
    end.
Proof. done. Qed.

(** Fuel above the buffer's length is never used up: the result does
    not depend on it. *)
Lemma process_messages_fuel fuel1 : forall fuel2 r,
  (String.length (messageBuffer r) < fuel1)%nat ->
  (String.length (messageBuffer r) < fuel2)%nat ->
  process_messages GetTickCount fuel1 r = process_messages GetTickCount fuel2 r.
Proof.
  induction fuel1 as [| fuel1 IH]; intros [| fuel2] r H1 H2; try lia.
  rewrite !process_messages_S.
  destruct (find newline (messageBuffer r)) as [pos |] eqn:F; [| done].
  destruct (first_line_append _ pos "" F) as [_ [_ [_ Hlt]]].
  cbv zeta. destruct (negb _).
  - destruct (ProcessIncomingData _ _ _) as [st | e]; [| done].
    apply IH; cbn [messageBuffer]; rewrite length_erase_front; lia.
  - apply IH; cbn [messageBuffer]; rewrite length_erase_front; lia.
Qed.

(** With such fuel the loop ends by its own test: the buffer it leaves
    holds no newline. *)
Lemma process_messages_remainder fuel : forall r r',
  (String.length (messageBuffer r) < fuel)%nat ->
  process_messages GetTickCount fuel r = Returns r' ->
  find newline (messageBuffer r') = None.
Proof.
  induction fuel as [| fuel IH]; intros r r' Hf; [lia |].
  rewrite process_messages_S.
  destruct (find newline (messageBuffer r)) as [pos |] eqn:F; [| by intros [= <-]].
  destruct (first_line_append _ pos "" F) as [_ [_ [_ Hlt]]].
  cbv zeta. destruct (negb _).
  - destruct (ProcessIncomingData _ _ _) as [st | e]; [| done].
    apply IH. cbn [messageBuffer]. rewrite length_erase_front. lia.
  - apply IH. cbn [messageBuffer]. rewrite length_erase_front. lia.
Qed.

(** Running the loop on [x ++ y] is running it on [x] and then again
    once [y] has been appended to what it left. *)
Lemma process_messages_append fuel1 : forall st x n y fuel (fuel2 : Reader -> nat),
  (String.length x < fuel1)%nat ->
  (String.length (x ++ y) < fuel)%nat ->
  (forall r', String.length (messageBuffer r' ++ y) < fuel2 r')%nat ->
  process_messages GetTickCount fuel (mkReader st (x ++ y) n)
  = and_then (process_messages GetTickCount fuel1 (mkReader st x n))
             (fun r' => process_messages GetTickCount (fuel2 r')
                          (mkReader (interface r') (messageBuffer r' ++ y) (delivered r'))).
Proof.
  induction fuel1 as [| fuel1 IH]; intros st x n y [| fuel] fuel2 H1 H H2; try lia.
  rewrite (process_messages_S fuel1). cbn [messageBuffer interface delivered].
  destruct (find newline x) as [pos |] eqn:F.
  - rewrite process_messages_S. cbn [messageBuffer interface delivered].
    destruct (first_line_append x pos y F) as [-> [-> [-> Hlt]]].
    rewrite length_append in H.
    cbv zeta. destruct (negb _).
    + destruct (ProcessIncomingData _ _ _) as [st' | e]; [| done].
      apply IH; [| | done];
        rewrite ?length_append, length_erase_front; lia.
    + apply IH; [| | done];
        rewrite ?length_append, length_erase_front; lia.
  - cbn [and_then interface messageBuffer delivered].
    apply process_messages_fuel; cbn [messageBuffer]; [done |].
    apply (H2 (mkReader st x n)).
Qed.

Lemma on_read_nonempty r bytes :
  bytes <> "" ->
  on_read GetTickCount r bytes
  = process_messages GetTickCount (S (String.length (messageBuffer r ++ c_str bytes)))
      (mkReader (interface r) (messageBuffer r ++ c_str bytes) (delivered r)).
Proof. by destruct bytes. Qed.

(** X12 -- the reader leaves no complete line behind.  If the local
    buffer holds no newline before a read (it is empty at first), it
    holds none after the read has been handled: every complete line has
    been taken out.  The loop is modelled with fuel; the fuel given is
    enough, for with any fuel above the buffer's length the loop gives
    the same result. *)
Theorem reader_leaves_no_complete_line (r : Reader) (bytes : string) :
  find newline (messageBuffer r) = None ->
  (forall r', on_read GetTickCount r bytes = Returns r' ->
              find newline (messageBuffer r') = None)
  /\ (forall fuel,
        bytes <> "" ->
        (String.length (messageBuffer r ++ c_str bytes) < fuel)%nat ->
        process_messages GetTickCount fuel
          (mkReader (interface r) (messageBuffer r ++ c_str bytes) (delivered r))
        = on_read GetTickCount r bytes).
Proof.
  intros Hclean. split.
  - intros r' H. destruct bytes as [| c bytes]; [by injection H as <- |].
    rewrite on_read_nonempty in H by done.
    eapply process_messages_remainder; [| exact H]. cbn [messageBuffer]. lia.
  - intros fuel Hb Hf. rewrite on_read_nonempty by done.
    apply process_messages_fuel; cbn [messageBuffer]; lia.
Qed.

(** X13 -- messages are reassembled across reads.  Handling a chunk
    [a] (that holds no NUL) and then a chunk [b] has the same outcome as
    handling [a ++ b] in one read: the same messages reach
    [ProcessIncomingData] in the same order with the same clock
    readings, the same exception ends the reader if one is thrown, and
    the same partial line is left in the buffer.  How the pipe cuts the
    byte stream does not matter.  A NUL does: the bytes read are
    appended to the buffer as a C string, so whatever follows the first
    NUL of a chunk never reaches the buffer or the parser. *)
Theorem reader_rechunking (r : Reader) (a b : string) :
  c_str a = a ->
  and_then (on_read GetTickCount r a) (fun r' => on_read GetTickCount r' b)
  = on_read GetTickCount r (a ++ b)
  /\ on_read GetTickCount r (a ++ String NUL b)
     = on_read GetTickCount r (a ++ String NUL "").
Proof.
  intros Ha. split.
  - destruct a as [| ca a]; [done |].
    destruct b as [| cb b].
    { rewrite append_nil_r.
      change (fun r' => on_read GetTickCount r' "") with (@Returns Reader).
      by destruct (on_read _ _ _). }
    set (A := String ca a) in *. set (B := String cb b).
    change (and_then (on_read GetTickCount r A)
              (fun r' => process_messages GetTickCount
                           (S (String.length (messageBuffer r' ++ c_str B)))
                           (mkReader (interface r') (messageBuffer r' ++ c_str B)
                                     (delivered r')))
            = on_read GetTickCount r (A ++ B)).
    rewrite !on_read_nonempty by done.
    rewrite (c_str_append A B Ha), Ha, <- append_assoc. symmetry.
    apply (process_messages_append (S (String.length (messageBuffer r ++ A)))
             (interface r) (messageBuffer r ++ A) (delivered r) (c_str B) _
             (fun r' => S (String.length (messageBuffer r' ++ c_str B)))); lia.
  - rewrite !on_read_nonempty by (by destruct a).
    by rewrite !c_str_stops_at_NUL.
Qed.

(** X14 -- one line, one message.  A read of one non-empty line (with
    no NUL in it) and its newline into an empty buffer hands exactly
    that line, without the newline, to [ProcessIncomingData], once; when
    that returns, the buffer is empty again and one more message is
    counted; when it throws, the exception leaves the reader loop. *)
Theorem reader_delivers_line (r : Reader) (m : string) :
  messageBuffer r = "" -> m <> "" -> find newline m = None -> c_str m = m ->
  on_read GetTickCount r (m ++ newline)
  = match ProcessIncomingData (interface r) m (GetTickCount (delivered r)) with
    | Returns st => Returns (mkReader st "" (S (delivered r)))
    | Throws e => Throws e
    end.
Proof.
  intros Hbuf Hm Hline Hnul.
  rewrite on_read_nonempty by (by destruct m).
  rewrite Hbuf, (c_str_append m newline Hnul).
  change (c_str newline) with newline. change ("" ++ (m ++ newline)) with (m ++ newline).
  rewrite process_messages_S. cbn [messageBuffer interface delivered].
  destruct (whole_line m "" Hline) as [H1 [H2 H3]].
  fold newline in H1, H2, H3. rewrite H1, H2, H3.
  apply String.eqb_neq in Hm. rewrite Hm. cbn [negb].
  destruct (ProcessIncomingData _ _ _) as [st | e]; [| done].
  rewrite length_append, Nat.add_1_r. by rewrite process_messages_S.
Qed.

End Clock.

(* --------------------------------------------------------------------- *)
(** ** The event history *)

(** X15 -- the most recent events.  With the history within its
    capacity of 100 and [size_t] at least 32 bits wide,
    [GetRecentEvents] with a non-negative count returns the last that
    many events, oldest first (all of them when there are fewer); with
    a negative count, which the comparison turns into a huge unsigned
    one, it returns the whole history. *)
Theorem GetRecentEvents_suffix (size_t_bits : Z) (st : State) (maxEvents : Z) :
  (32 <= size_t_bits)%Z ->
  (length (m_recentEvents st) <= 100)%nat ->
  LONG_range maxEvents ->
  ((maxEvents < 0)%Z -> GetRecentEvents size_t_bits st maxEvents = m_recentEvents st)
  /\ ((0 <= maxEvents)%Z ->
      GetRecentEvents size_t_bits st maxEvents
      = last_n (Z.to_nat maxEvents) (m_recentEvents st)).
Proof.
  intros Hbits Hcap Hrange. unfold LONG_range in Hrange.
  assert (Hpow : (2 ^ 32 <= 2 ^ size_t_bits)%Z) by (apply Z.pow_le_mono_r; lia).
  unfold GetRecentEvents, to_size_t. split; intros Hsign.
  - replace (maxEvents mod 2 ^ size_t_bits)%Z with (maxEvents + 2 ^ size_t_bits)%Z.
    + destruct (Z.leb_spec (Z.of_nat (length (m_recentEvents st)))
                  (maxEvents + 2 ^ size_t_bits)); [done | lia].
    + apply Z.mod_unique with (q := (-1)%Z); lia.
  - rewrite Z.mod_small by lia.
    destruct (Z.leb_spec (Z.of_nat (length (m_recentEvents st))) maxEvents).
    + symmetry. apply TelemetryFacts.last_n_short. lia.
    + unfold last_n. f_equal. lia.
Qed.

Lemma GetRecentEvents_suffix_witness :
  let st := deliver constructor sample_frames in
  ((-1 < 0)%Z -> GetRecentEvents 64 st (-1) = m_recentEvents st)
  /\ ((0 <= -1)%Z -> GetRecentEvents 64 st (-1) = last_n (Z.to_nat (-1)) (m_recentEvents st)).
Proof.
  apply (GetRecentEvents_suffix 64 (deliver constructor sample_frames) (-1)).
  - lia.
  - vm_compute. lia.
  - unfold LONG_range. lia.
Defined.

Example GetRecentEvents_sample :
  timestamp_tick <$> GetRecentEvents 64 (deliver constructor sample_frames) 3
  = [100; 101; 102]%Z.
Proof. vm_compute. reflexivity. Qed.

Lemma reader_leaves_no_complete_line_witness :
  let ticks := fun n : nat => Z.of_nat n in
  let r := mkReader listening "" 0 in
  (forall r', on_read ticks r (tech_frame ++ newline ++ "{") = Returns r' ->
              find newline (messageBuffer r') = None)
  /\ (forall fuel,
        tech_frame ++ newline ++ "{" <> "" ->
        (String.length (messageBuffer r ++ c_str (tech_frame ++ newline ++ "{")) < fuel)%nat ->
        process_messages ticks fuel
          (mkReader (interface r) (messageBuffer r ++ c_str (tech_frame ++ newline ++ "{"))
                    (delivered r))
        = on_read ticks r (tech_frame ++ newline ++ "{")).
Proof.
  apply (reader_leaves_no_complete_line (fun n : nat => Z.of_nat n)
           (mkReader listening "" 0) (tech_frame ++ newline ++ "{")).
  reflexivity.
Defined.

Lemma reader_rechunking_witness :
  let ticks := fun n : nat => Z.of_nat n in
  let r := mkReader listening "" 0 in
  let b := (erase_front 1 tech_frame ++ newline)%string in
  and_then (on_read ticks r "{") (fun r' => on_read ticks r' b)
  = on_read ticks r ("{" ++ b)
  /\ on_read ticks r ("{" ++ String NUL b) = on_read ticks r ("{" ++ String NUL "").
Proof.
  apply (reader_rechunking (fun n : nat => Z.of_nat n) (mkReader listening "" 0)
           "{" (erase_front 1 tech_frame ++ newline)).
  reflexivity.
Defined.

Lemma reader_delivers_line_witness :
  let ticks := fun n : nat => Z.of_nat n in
  let r := mkReader listening "" 0 in
  on_read ticks r (tech_frame ++ newline)
  = match ProcessIncomingData listening tech_frame 0 with
    | Returns st => Returns (mkReader st "" 1)
    | Throws e => Throws e
    end.
Proof.
  apply (reader_delivers_line (fun n : nat => Z.of_nat n) (mkReader listening "" 0)
           tech_frame); [reflexivity | discriminate | reflexivity | reflexivity].
Defined.

(** A frame whose number cannot be read ends the reader thread with
    the parser's exception. *)
Example reader_ended_by_frame_null :
  on_read (fun n : nat => Z.of_nat n) (mkReader listening "" 0) (frame_null ++ newline)
  = Throws invalid_argument.
Proof. vm_compute. reflexivity. Qed.

End ReaderFacts.

(* ===================================================================== *)
(** * Process search and unloading *)
(* ===================================================================== *)

Module ProcessFacts.
Import CRuntime Notions Samples Scenarios.

Local Open Scope string_scope.
Local Open Scope list_scope.
Local Open Scope Z_scope.

Lemma tolower_idempotent c : tolower (tolower c) = tolower c.
Proof. destruct c as [[] [] [] [] [] [] [] []]; reflexivity. Qed.

Lemma lowercase_idempotent s : lowercase (lowercase s) = lowercase s.
Proof.
  induction s as [| c s IH]; [done |]. cbn. by rewrite tolower_idempotent, IH.
Qed.

Lemma GetAllProcessIds_walk_elem entries processName pid :
  pid ∈ process_manager.GetAllProcessIds_walk entries processName
  <-> exists e, e ∈ entries /\ th32ProcessID e = pid
                /\ lowercase (szExeFile e) = lowercase processName.
Proof.
  induction entries as [| e entries IH]; cbn [process_manager.GetAllProcessIds_walk].
  - split; [by intros ?%elem_of_nil | by intros [? [?%elem_of_nil _]]].
  - destruct (String.eqb_spec (lowercase (szExeFile e)) (lowercase processName)) as [Heq | Hne].
    + rewrite elem_of_cons, IH. split.
      * intros [-> | [e' [? ?]]].
        -- exists e. split; [apply list_elem_of_here | done].
        -- exists e'. split; [by apply list_elem_of_further | done].
      * intros [e' [Hin [Hp Hn]]]. apply elem_of_cons in Hin as [-> | Hin]; [by left |].
        right. by exists e'.
    + rewrite IH. split.
      * intros [e' [? ?]]. exists e'. split; [by apply list_elem_of_further | done].
      * intros [e' [Hin [Hp Hn]]]. apply elem_of_cons in Hin as [-> | Hin]; [done |].
        by exists e'.
Qed.

(** X16 -- the process lookup of [process_manager.cpp].
    [FindProcessByName] returns the first process id that
    [GetAllProcessIds] lists, and [0] when it lists none; the ids listed
    are exactly those of the snapshot's entries whose name equals the
    given one up to the case of letters, so the case of the given name
    does not matter to either function. *)
Theorem FindProcessByName_first_of_all (snapshot : ProcessSnapshot) (processName : string) :
  process_manager.FindProcessByName snapshot processName
  = hd 0 (process_manager.GetAllProcessIds snapshot processName)
  /\ (forall pid,
        pid ∈ process_manager.GetAllProcessIds snapshot processName
        <-> exists entries e,
              snapshot = Some entries /\ e ∈ entries /\ th32ProcessID e = pid
              /\ lowercase (szExeFile e) = lowercase processName)
  /\ process_manager.FindProcessByName snapshot (lowercase processName)
     = process_manager.FindProcessByName snapshot processName
  /\ process_manager.GetAllProcessIds snapshot (lowercase processName)
     = process_manager.GetAllProcessIds snapshot processName.
Proof.
  destruct snapshot as [entries |]; cbn [process_manager.FindProcessByName
                                         process_manager.GetAllProcessIds].
  2:{ repeat split; try done.
      - by intros ?%elem_of_nil.
      - by intros [? [? [? _]]]. }
  split; [| split; [| split]].
  - induction entries as [| e entries IH]; [done |].
    cbn [process_manager.FindProcessByName_walk process_manager.GetAllProcessIds_walk].
    by destruct (String.eqb _ _).
  - intros pid. rewrite GetAllProcessIds_walk_elem. split.
    + intros [e [? ?]]. by exists entries, e.
    + intros [entries' [e [[= <-] ?]]]. by exists e.
  - induction entries as [| e entries IH]; [done |].
    cbn [process_manager.FindProcessByName_walk].
    by rewrite lowercase_idempotent, IH.
  - induction entries as [| e entries IH]; [done |].
    cbn [process_manager.GetAllProcessIds_walk].
    by rewrite lowercase_idempotent, IH.
Qed.

(** X17 -- the first matching process is the game process.
    [FindGameProcessId] returns the id of the first entry of the
    snapshot whose name, in lower case, contains [dolphin] or [slippi],
    whatever entries follow it; the Slippi launcher is such an entry. *)
Theorem FindGameProcessId_first_match (before after : list PROCESSENTRY32)
    (e : PROCESSENTRY32) :
  Forall (fun p => contains (lowercase (szExeFile p)) "dolphin" = false
                   /\ contains (lowercase (szExeFile p)) "slippi" = false) before ->
  contains (lowercase (szExeFile e)) "dolphin" = true
  \/ contains (lowercase (szExeFile e)) "slippi" = true ->
  GameDataReader.FindGameProcessId (Some (before ++ e :: after)) = th32ProcessID e.
Proof.
  intros Hbefore He.
  unfold GameDataReader.FindGameProcessId, GameDataReader.FindGameProcesses.
  induction Hbefore as [| p before [Hd Hs] _ IH].
  - cbn. destruct He as [-> | ->]; [done | by rewrite orb_true_r].
  - cbn. rewrite Hd, Hs. cbn. exact IH.
Qed.

Lemma FindGameProcessId_first_match_witness :
  GameDataReader.FindGameProcessId launcher_first = 3000.
Proof.
  apply (FindGameProcessId_first_match
           [mkProcessEntry 4 "System"; mkProcessEntry 812 "explorer.exe"]
           [mkProcessEntry 4242 "Slippi Dolphin.exe"]
           (mkProcessEntry 3000 "Slippi Launcher.exe")).
  - repeat constructor.
  - right. reflexivity.
Defined.

Section Kernel.
Variable K : Oracle.
Variable Module32 : Z -> ModuleSnapshot.


End Kernel.

End ProcessFacts.

(* ===================================================================== *)
(** * The overlay's threads and its paint loop *)
(* ===================================================================== *)

Module OverlayThreadFacts.
Import CRuntime overlay_simple overlay_threads Samples.
Import Vocabulary WindowFacts EmbeddingFacts.

Local Open Scope Z_scope.

(** Draining a queue with one more message at its end activates that
    message last, with the clock reading of its turn. *)
Lemma drain_snoc queue : forall om ticks active,
  drain (queue ++ [om]) ticks active
  = drain queue ticks active ++ [activate om (ticks (length queue))].
Proof.
  induction queue as [| m queue IH]; intros om ticks active; [done |].
  cbn [app drain length]. by rewrite IH.
Qed.

(** X19 -- a received message reaches the screen list intact.  The
    bytes of one read (with no NUL among them), queued by
    [CommunicationThread] and activated by the drain of
    [RenderThread], become the last active message: behind the messages
    already active and those queued before, with the text received, a
    duration of 5000 ms, the top-right position, full alpha, and the
    clock reading of its activation as start time. *)
Theorem received_message_activated (bytes : string) (queue : list OverlayMessage)
    (ticks : nat -> Z) (active : list ActiveMessage) :
  c_str bytes = bytes ->
  let active' := drain (on_message bytes queue) ticks active in
  a_text <$> active' = (a_text <$> active) ++ (text <$> queue) ++ [bytes]
  /\ last active'
     = Some (mkActiveMessage bytes (to_DWORD (ticks (length queue))) 5000
                             TOP_RIGHT GENERAL NORMAL Binary32.one).
Proof.
  intros Hnul active'. subst active'. unfold on_message. rewrite Hnul. split.
  - rewrite OverlayFacts.drain_fifo, fmap_app. done.
  - rewrite drain_snoc, last_snoc. done.
Qed.

Lemma received_message_activated_witness :
  let active' := drain (on_message "Nice tech!" []) (fun _ => 1000) [] in
  a_text <$> active' = (a_text <$> []) ++ (text <$> []) ++ ["Nice tech!"%string]
  /\ last active'
     = Some (mkActiveMessage "Nice tech!" (to_DWORD 1000) 5000
                             TOP_RIGHT GENERAL NORMAL Binary32.one).
Proof.
  apply (received_message_activated "Nice tech!" [] (fun _ => 1000) []). reflexivity.
Defined.

(** X20 -- the paint loop is stable.  A second [WM_PAINT] at the same
    clock reading erases nothing more and draws the same bubbles; the
    messages kept are in their former order; one bubble is drawn per
    message kept, in order; and every bubble's alpha is a finite
    [float] between 0 and 1. *)
Theorem paint_is_stable (currentTime : Z) (g_activeMessages : list ActiveMessage) :
  let '(kept, drawn) := paint currentTime g_activeMessages in
  paint currentTime kept = (kept, drawn)
  /\ kept `sublist_of` g_activeMessages
  /\ b_message <$> drawn = kept
  /\ Forall (fun b => exists x, b_alpha b = Binary32.Fin x
                                 /\ 0 <= x <= Binary32.one_units) drawn.
Proof.
  induction g_activeMessages as [| it l IH]; cbn [paint].
  - repeat split; [apply sublist_nil | constructor].
  - destruct (paint currentTime l) as [kept drawn].
    destruct IH as [H1 [H2 [H3 H4]]].
    destruct (expired currentTime it) eqn:E.
    + repeat split; try done. by apply sublist_cons.
    + cbn [paint]. rewrite E, H1. repeat split.
      * by apply sublist_skip.
      * cbn. by rewrite H3.
      * constructor; [apply OverlayFacts.fade_in_unit | done].
Qed.

Section Platform.
Variable rejects : Call -> bool.
Variable FindWindowA : option string -> option string -> HWND.

(** X21 -- the overlay follows its target.  In a pass of
    [WindowTrackingThread] with both windows alive, when the platform
    carries out the positioning call (the target's rectangle holding
    [LONG] coordinates), the overlay window's rectangle becomes the
    target's rectangle, the overlay is visible and topmost, and its
    client rectangle is the one its procedure answers for the new
    rectangle when the extent has changed; its parent, its other style
    bits and its show state are as before.  No other window changes,
    and the globals are as before. *)
Theorem overlay_follows_target (g : Globals) (os : Desktop) (overlay target : Window) :
  g_overlayWindow g <> NULL -> g_targetWindow g <> NULL ->
  windows os !! g_overlayWindow g = Some overlay ->
  windows os !! g_targetWindow g = Some target ->
  LONG_range (rc_right (w_rect target)) -> LONG_range (rc_bottom (w_rect target)) ->
  (forall X Y cx cy,
     rejects (CSetWindowPos (g_overlayWindow g) HWND_TOPMOST X Y cx cy
                (Z.lor SWP_NOACTIVATE SWP_SHOWWINDOW)) = false) ->
  let '(g', os') := WindowTrackingThread_pass rejects FindWindowA g os in
  g' = g
  /\ windows os'
     = <[g_overlayWindow g
         := mkWindow (w_parent overlay)
                     (Z.lor (w_style overlay) WS_VISIBLE)
                     (Z.lor (w_exStyle overlay) WS_EX_TOPMOST)
                     (w_rect target)
                     (if resized (w_rect overlay) (w_rect target)
                      then w_ncCalcSize overlay (Z.lor (w_style overlay) WS_VISIBLE)
                             (Z.lor (w_exStyle overlay) WS_EX_TOPMOST) (w_rect target)
                      else w_client overlay)
                     (w_showCmd overlay) (w_ncCalcSize overlay)]> (windows os).
Proof.
  intros Ho Ht Eo Et Hr Hb Hacc. unfold WindowTrackingThread_pass.
  apply Z.eqb_neq in Ho, Ht. rewrite Ho, Ht. cbn [negb andb].
  unfold IsWindow, GetWindowRect. rewrite Et. cbn [fmap option_fmap option_map].
  erewrite SetWindowPos_accepted by (try exact Eo; apply Hacc).
  rewrite positioned_on_top by (reflexivity || done). unfold shown_on_top.
  destruct (g_showBorder g).
  - split; [done |]. by rewrite InvalidateRect_windows.
  - done.
Qed.

End Platform.

Lemma overlay_follows_target_witness :
  let g := mkGlobals 1 7 true in
  let '(g', os') := WindowTrackingThread_pass accept_all (fun _ _ => NULL) g desk in
  g' = g
  /\ windows os'
     = <[1 := mkWindow 5 0x50000000 WS_EX_TOPMOST (mkRECT 100 100 740 580)
                       (mkRECT 0 0 640 480) 1 framed]> (windows desk).
Proof.
  apply (overlay_follows_target accept_all (fun _ _ => NULL) (mkGlobals 1 7 true) desk
           container game); try done; unfold LONG_range; cbn; lia.
Defined.

End OverlayThreadFacts.

(* ===================================================================== *)
(** * The coaching panels: bounded lists and the layout *)
(* ===================================================================== *)

Module InterfaceFacts.
Import CRuntime Notions Vocabulary Samples.
Import WindowFacts EmbeddingFacts.

Local Open Scope list_scope.
Local Open Scope Z_scope.

(** Appending to a list within capacity and dropping the oldest item
    when over capacity keeps the most recent items. *)
Lemma push_bounded {A} (cap : nat) (l : list A) (x : A) :
  (length l <= cap)%nat ->
  (if Z.of_nat cap <? Z.of_nat (length (l ++ [x])) then drop 1 (l ++ [x]) else l ++ [x])
  = last_n cap (l ++ [x]).
Proof.
  intros Hcap. assert (Hlen : length (l ++ [x]) = S (length l)).
  { rewrite length_app. cbn. lia. }
  destruct (Z.ltb_spec (Z.of_nat cap) (Z.of_nat (length (l ++ [x])))).
  - unfold last_n. f_equal. lia.
  - symmetry. apply TelemetryFacts.last_n_short. lia.
Qed.

Lemma add_commentary_last_n m c :
  (length m <= 20)%nat ->
  add_commentary m c = last_n 20 (m ++ [commentary_item c]).
Proof.
  intros Hcap. destruct c; cbn [add_commentary commentary_item];
    unfold CoachingInterface.AddCommentary, CoachingInterface.AddCommentaryWithType;
    change CoachingInterface.MAX_COMMENTARY_ITEMS with (Z.of_nat 20);
    by apply push_bounded.
Qed.

(** X22 -- the commentary list is bounded.  Starting within the
    capacity of 20 (the constructor leaves five items), after any
    sequence of
    [AddCommentary] and [AddCommentaryWithType] calls the list holds at
    most 20 items, and they are the 20 most recent ones in the order
    they were added. *)
Theorem commentary_bounded (m_commentary : list CoachingInterface.CommentaryItem)
    (calls : list CommentaryCall) :
  (length m_commentary <= 20)%nat ->
  let m' := fold_left add_commentary calls m_commentary in
  (length m' <= 20)%nat
  /\ m' = last_n 20 (m_commentary ++ map commentary_item calls).
Proof.
  revert m_commentary. induction calls as [| c calls IH]; intros m Hcap; cbn zeta.
  - cbn. rewrite app_nil_r, TelemetryFacts.last_n_short by done. done.
  - cbn [fold_left map].
    destruct (IH (add_commentary m c)) as [H1 H2].
    { rewrite add_commentary_last_n by done. apply TelemetryFacts.length_last_n. }
    split; [exact H1 |]. rewrite H2, add_commentary_last_n by done.
    rewrite TelemetryFacts.last_n_absorb. by rewrite <- app_assoc.
Qed.

Lemma commentary_bounded_witness :
  let calls := map (fun n => Typed "Nice combo!" "combo" false (Z.of_nat n)) (seq 0 25) in
  let m' := fold_left add_commentary calls [] in
  (length m' <= 20)%nat
  /\ m' = last_n 20 ([] ++ map commentary_item calls).
Proof.
  apply (commentary_bounded []
           (map (fun n => Typed "Nice combo!" "combo" false (Z.of_nat n)) (seq 0 25))).
  cbn. lia.
Defined.

Lemma CleanupOldItems_snoc currentTime m_tips tip :
  CoachingInterface.CleanupOldItems currentTime (m_tips ++ [tip])
  = CoachingInterface.CleanupOldItems currentTime m_tips
    ++ (if CoachingInterface.too_old currentTime tip then [] else [tip]).
Proof.
  induction m_tips as [| x m_tips IH]; cbn [app CoachingInterface.CleanupOldItems].
  - by destruct (CoachingInterface.too_old currentTime tip).
  - rewrite IH. by destruct (CoachingInterface.too_old currentTime x).
Qed.

Lemma CleanupOldItems_kept currentTime m_tips :
  let kept := CoachingInterface.CleanupOldItems currentTime m_tips in
  kept `sublist_of` m_tips
  /\ (forall tip, tip ∈ kept
        <-> tip ∈ m_tips
            /\ to_DWORD (currentTime - CoachingInterface.showTime tip) <= 30000)
  /\ CoachingInterface.CleanupOldItems currentTime kept = kept.
Proof.
  cbn zeta. induction m_tips as [| x m_tips [IH1 [IH2 IH3]]];
    cbn [CoachingInterface.CleanupOldItems].
  - split; [apply sublist_nil |]. split; [| done].
    intros tip. split; [by intros ?%elem_of_nil | by intros [?%elem_of_nil _]].
  - destruct (CoachingInterface.too_old currentTime x) eqn:E.
    + split; [by apply sublist_cons |]. split; [| done].
      intros tip. rewrite IH2, elem_of_cons. split; [tauto |].
      intros [[-> | Hin] Hage]; [| done].
      unfold CoachingInterface.too_old in E. apply Z.ltb_lt in E. lia.
    + split; [by apply sublist_skip |]. split.
      * intros tip. rewrite !elem_of_cons, IH2. split; [| tauto].
        intros [-> | [Hin Hage]]; [| tauto]. split; [by left |].
        unfold CoachingInterface.too_old in E. by apply Z.ltb_ge in E.
      * cbn [CoachingInterface.CleanupOldItems]. by rewrite E, IH3.
Qed.

(** X23 -- the tips list: bounded, and cleaned by age.  Starting within
    the capacity of 5 (the constructor leaves one tip), after [AddTip]
    the list holds at most 5 tips, the 5 most recent ones with the new
    tip last.  A [CleanupOldItems] at any later clock reading keeps
    exactly the tips whose age, computed modulo 2^32, is at most
    30000 ms, in their former order, and a second cleanup at that
    reading removes nothing more; at the clock reading of the [AddTip],
    whatever that reading is, it keeps the new tip as the last one. *)
Theorem tips_bounded_and_cleaned (m_tips : list CoachingInterface.TipItem)
    (title_ description_ : string) (tick currentTime : Z) :
  (length m_tips <= 5)%nat ->
  let tip := CoachingInterface.mkTipItem title_ description_ "" true tick 1 false in
  let m' := CoachingInterface.AddTip m_tips title_ description_ tick in
  let kept := CoachingInterface.CleanupOldItems currentTime m' in
  (length m' <= 5)%nat
  /\ m' = last_n 5 (m_tips ++ [tip])
  /\ kept `sublist_of` m'
  /\ (forall x, x ∈ kept
        <-> x ∈ m' /\ to_DWORD (currentTime - CoachingInterface.showTime x) <= 30000)
  /\ CoachingInterface.CleanupOldItems currentTime kept = kept
  /\ last (CoachingInterface.CleanupOldItems tick m') = Some tip.
Proof.
  intros Hcap tip m' kept.
  assert (Hm : m' = last_n 5 (m_tips ++ [tip])).
  { subst m'. unfold CoachingInterface.AddTip.
    change CoachingInterface.MAX_TIP_ITEMS with (Z.of_nat 5). by apply push_bounded. }
  split; [rewrite Hm; apply TelemetryFacts.length_last_n |]. split; [exact Hm |].
  destruct (CleanupOldItems_kept currentTime m') as [K1 [K2 K3]].
  split; [exact K1 |]. split; [exact K2 |]. split; [exact K3 |].
  assert (Hsnoc : exists front, m' = front ++ [tip]).
  { rewrite Hm. unfold last_n. rewrite length_app. cbn [length].
    exists (drop (length m_tips + 1 - 5) m_tips). rewrite drop_app_le by lia. done. }
  destruct Hsnoc as [front ->].
  rewrite CleanupOldItems_snoc.
  unfold CoachingInterface.too_old. subst tip. cbn [CoachingInterface.showTime].
  rewrite Z.sub_diag. change (30000 <? to_DWORD 0) with false. cbv iota.
  by rewrite last_snoc.
Qed.

Lemma tips_bounded_and_cleaned_witness :
  let tip := CoachingInterface.mkTipItem "Tech" "Tech in place" "" true 4294967000 1 false in
  let m' := CoachingInterface.AddTip [] "Tech" "Tech in place" 4294967000 in
  let kept := CoachingInterface.CleanupOldItems 200 m' in
  (length m' <= 5)%nat
  /\ m' = last_n 5 ([] ++ [tip])
  /\ kept `sublist_of` m'
  /\ (forall x, x ∈ kept
        <-> x ∈ m' /\ to_DWORD (200 - CoachingInterface.showTime x) <= 30000)
  /\ CoachingInterface.CleanupOldItems 200 kept = kept
  /\ last (CoachingInterface.CleanupOldItems 4294967000 m') = Some tip.
Proof.
  apply (tips_bounded_and_cleaned [] "Tech" "Tech in place" 4294967000 200). cbn. lia.
Defined.

(** A tip shown just before the clock wraps is still kept just after. *)
Example tip_survives_clock_wrap :
  length (CoachingInterface.CleanupOldItems 200
            (CoachingInterface.AddTip [] "Tech" "Tech in place" 4294967000)) = 1%nat.
Proof. reflexivity. Qed.

(* --------------------------------------------------------------------- *)
(** ** The layout of [main.cpp] *)

(** Case analysis on every [<?] of the goal. *)
Ltac split_ltb :=
  repeat match goal with |- context [Z.ltb ?a ?b] => destruct (Z.ltb_spec a b) end.

(** An [int] operation whose result is in range is the operation on
    the integers. *)
Ltac nowrap :=
  repeat match goal with
  | |- context [to_LONG ?x] =>
      rewrite (to_LONG_small x) by (unfold LONG_range; lia)
  end.

(** The same, for a goal with truncating divisions. *)
Ltac nowrap_quot :=
  repeat match goal with
  | |- context [to_LONG ?x] =>
      rewrite (to_LONG_small x)
        by (unfold LONG_range; Z.to_euclidean_division_equations; lia)
  end.

Lemma to_LONG_idempotent z : to_LONG (to_LONG z) = to_LONG z.
Proof. apply to_LONG_small, to_LONG_range. Qed.

(** X24 -- the game area of the layout.  For a client area at least
    1370 wide and 510 high, and less than 2^29 wide and high so that no
    [int] operation of the computation overflows, [UpdateLayout] gives
    the left panel a width between 220 and 320 and the right panel one
    between 280 and 350, and places the game area inside the space
    those panels and the margins leave free; the area is at least 640
    by 480 and has the ratio 4:3 up to the rounding of the integer
    division. *)
Theorem UpdateLayout_gameArea_fits (clientRect : RECT) :
  let clientWidth := rc_right clientRect - rc_left clientRect in
  let clientHeight := rc_bottom clientRect - rc_top clientRect in
  1370 <= clientWidth < 2 ^ 29 -> 510 <= clientHeight < 2 ^ 29 ->
  let leftPanelWidth := std_min (std_max 220 (Z.quot clientWidth 6)) 320 in
  let rightPanelWidth := std_min (std_max 280 (Z.quot clientWidth 5)) 350 in
  let gameArea := main_cpp.UpdateLayout_gameArea clientRect in
  let width := rc_right gameArea - rc_left gameArea in
  let height := rc_bottom gameArea - rc_top gameArea in
  220 <= leftPanelWidth <= 320 /\ 280 <= rightPanelWidth <= 350
  /\ leftPanelWidth + 30 <= rc_left gameArea
  /\ rc_right gameArea <= clientWidth - rightPanelWidth - 30
  /\ 15 <= rc_top gameArea
  /\ rc_bottom gameArea <= clientHeight - 15
  /\ 640 <= width /\ 480 <= height
  /\ -2 <= 3 * width - 4 * height <= 3.
Proof.
  intros cw ch Hw Hh. cbn zeta.
  unfold main_cpp.UpdateLayout_gameArea, int_add, int_sub, int_mul, int_div.
  fold cw. fold ch. nowrap.
  rewrite (to_LONG_small (Z.quot cw 6)), (to_LONG_small (Z.quot cw 5))
    by (unfold LONG_range; Z.to_euclidean_division_equations; lia).
  set (L := std_min (std_max 220 (Z.quot cw 6)) 320).
  set (R := std_min (std_max 280 (Z.quot cw 5)) 350).
  assert (HL : 220 <= L <= 320) by (subst L; unfold std_min, std_max; split_ltb; lia).
  assert (HR : 280 <= R <= 350) by (subst R; unfold std_min, std_max; split_ltb; lia).
  clearbody L R. nowrap.
  set (W := cw - L - R - 15 * 4). set (H := ch - 15 * 2).
  assert (HW : W = cw - L - R - 60) by (subst W; lia).
  assert (HH : H = ch - 30) by (subst H; lia).
  clearbody W H. nowrap.
  set (h := Z.quot (W * 3) 4).
  assert (Hh4 : 4 * h <= 3 * W < 4 * h + 4)
    by (subst h; Z.to_euclidean_division_equations; lia).
  set (w := Z.quot (H * 4) 3).
  assert (Hw3 : 3 * w <= 4 * H < 3 * w + 3)
    by (subst w; Z.to_euclidean_division_equations; lia).
  clearbody h w. nowrap.
  split; [done |]. split; [done |].
  destruct (Z.ltb_spec H h) as [Hbig | Hfit]; cbv beta iota;
    unfold std_max; split_ltb; nowrap_quot;
    cbn [rc_left rc_top rc_right rc_bottom];
    repeat split; Z.to_euclidean_division_equations; lia.
Qed.

Lemma UpdateLayout_gameArea_fits_witness :
  let clientRect := mkRECT 0 0 1400 900 in
  let clientWidth := 1400 in
  let clientHeight := 900 in
  let leftPanelWidth := std_min (std_max 220 (Z.quot clientWidth 6)) 320 in
  let rightPanelWidth := std_min (std_max 280 (Z.quot clientWidth 5)) 350 in
  let gameArea := main_cpp.UpdateLayout_gameArea clientRect in
  let width := rc_right gameArea - rc_left gameArea in
  let height := rc_bottom gameArea - rc_top gameArea in
  220 <= leftPanelWidth <= 320 /\ 280 <= rightPanelWidth <= 350
  /\ leftPanelWidth + 30 <= rc_left gameArea
  /\ rc_right gameArea <= clientWidth - rightPanelWidth - 30
  /\ 15 <= rc_top gameArea
  /\ rc_bottom gameArea <= clientHeight - 15
  /\ 640 <= width /\ 480 <= height
  /\ -2 <= 3 * width - 4 * height <= 3.
Proof.
  apply (UpdateLayout_gameArea_fits (mkRECT 0 0 1400 900)); cbn; lia.
Defined.

(** The layout of the default window: the game area is 827 by 620. *)
Example UpdateLayout_gameArea_default :
  main_cpp.UpdateLayout_gameArea (mkRECT 0 0 1400 900) = mkRECT 263 140 1090 760.
Proof. reflexivity. Qed.

(** Beyond the range of X24 the products overflow: for a client area
    of 2000000000 by 900000000 the game area is not 4:3 and starts
    before the left panel ends its margin. *)
Example UpdateLayout_gameArea_overflow :
  main_cpp.UpdateLayout_gameArea (mkRECT 0 0 2000000000 900000000)
  = mkRECT 350 236871186 1999999620 663128814.
Proof. reflexivity. Qed.

Section Platform.
Variable rejects : Call -> bool.

(** X25 -- the embedded game fills its container.  With a game window
    embedded and alive and the container alive with a client area of
    positive width and height, when the platform answers the
    container's [GetClientRect] and carries out the [SetWindowPos],
    [UpdateLayout] leaves the game window at the origin with the
    container's client width and height, and not topmost; its client
    rectangle is the one its procedure answers for the new rectangle
    when the extent has changed; its parent, style, other extended
    style bits and show state are as before, and no other window
    changes. *)
Theorem UpdateLayout_fills_container (g_appState : main_cpp.AppState)
    (containerWindow : HWND) (indeterminate : RECT) (os : Desktop)
    (game_ container_ : Window) :
  main_cpp.isGameEmbedded g_appState = true ->
  main_cpp.gameWindow g_appState <> NULL -> containerWindow <> NULL ->
  windows os !! main_cpp.gameWindow g_appState = Some game_ ->
  windows os !! containerWindow = Some container_ ->
  let containerWidth :=
    to_LONG (rc_right (w_client container_) - rc_left (w_client container_)) in
  let containerHeight :=
    to_LONG (rc_bottom (w_client container_) - rc_top (w_client container_)) in
  0 < containerWidth -> 0 < containerHeight ->
  rejects (CGetClientRect containerWindow) = false ->
  rejects (CSetWindowPos (main_cpp.gameWindow g_appState) HWND_BOTTOM 0 0
             containerWidth containerHeight SWP_NOACTIVATE) = false ->
  let os' :=
    snd (main_cpp.UpdateLayout rejects g_appState containerWindow indeterminate os) in
  let area := mkRECT 0 0 containerWidth containerHeight in
  windows os'
  = <[main_cpp.gameWindow g_appState
      := mkWindow (w_parent game_) (w_style game_)
                  (Z.land (w_exStyle game_) (Z.lnot WS_EX_TOPMOST))
                  area
                  (if resized (w_rect game_) area
                   then w_ncCalcSize game_ (w_style game_)
                          (Z.land (w_exStyle game_) (Z.lnot WS_EX_TOPMOST)) area
                   else w_client game_)
                  (w_showCmd game_) (w_ncCalcSize game_)]> (windows os).
Proof.
  intros Hemb Hgw Hcw Eg Ec cwid chei Hw Hh Hget Hset. cbn zeta.
  unfold main_cpp.UpdateLayout. rewrite Hemb.
  apply Z.eqb_neq in Hgw, Hcw. rewrite Hgw, Hcw. cbn [negb andb].
  assert (HG : GetClientRect rejects containerWindow os = Some (w_client container_))
    by (unfold GetClientRect, served; by rewrite Ec, Hget).
  rewrite HG.
  fold cwid. fold chei.
  apply Z.ltb_lt in Hw, Hh. rewrite Hw, Hh. cbn [andb].
  erewrite SetWindowPos_accepted by eassumption.
  cbn [snd windows].
  pose proof (positioned_places (mkRECT 0 0 cwid chei) SWP_NOACTIVATE game_
                eq_refl eq_refl eq_refl eq_refl eq_refl eq_refl
                (to_LONG_range _) (to_LONG_range _)) as P.
  cbn [rc_left rc_top rc_right rc_bottom] in P. rewrite !Z.sub_0_r in P.
  subst cwid chei. rewrite !to_LONG_idempotent in P. by rewrite P.
Qed.

End Platform.

Lemma UpdateLayout_fills_container_witness :
  windows (snd (main_cpp.UpdateLayout accept_all (main_cpp.mkAppState 1 7 true) 1
                  RECT_zero desk))
  = <[7 := mkWindow NULL 0x14CF0000 0x00000100 (mkRECT 0 0 800 600)
                    (mkRECT 0 0 784 561) 1 framed]> (windows desk).
Proof.
  apply (UpdateLayout_fills_container accept_all (main_cpp.mkAppState 1 7 true) 1
           RECT_zero desk game container); try done.
Defined.

End InterfaceFacts.

(* ===================================================================== *)
(** * Starting and stopping the monitoring *)
(* ===================================================================== *)

Module MonitoringFacts.
Import GameDataInterface GameDataReader Monitoring Notions Samples Scenarios.
Import InjectionRecordFacts.

Local Open Scope string_scope.
Local Open Scope list_scope.
Local Open Scope Z_scope.

Lemma with_object_same mon : with_object (object mon) mon = mon.
Proof. by destruct mon. Qed.

Section Kernel.
Variable K : Oracle.
Variable P : PipeOracle.

Lemma InjectDLL_injected st pid :
  IsDLLInjected st pid = true -> InjectDLL K st pid = (true, st, []).
Proof. intros H. unfold InjectDLL. by rewrite H. Qed.


Lemma InjectDLL_false st st1 pid t :
  InjectDLL K st pid = (false, st1, t) -> st1 = st /\ IsDLLInjected st pid = false.
Proof.
  intros H. split.
  - destruct (InjectDLL_records K st pid) as [Hs | [_ [Ht _]]];
      rewrite H in *; cbn [fst snd] in *; done.
  - destruct (IsDLLInjected st pid) eqn:E; [| done].
    rewrite InjectDLL_injected in H by done. done.
Qed.

(** [EjectDLL] for a process that has a record: the first record for it
    goes, and the last kernel call closes the handle stored in it. *)
Lemma EjectDLL_of_record st pid :
  IsDLLInjected st pid = true ->
  exists it process t,
    list_find (fun q => processId q = pid) (m_injectedProcesses st) = Some (it, process)
    /\ EjectDLL K st pid
       = (true, with_injectedProcesses (delete it (m_injectedProcesses st)) st,
          t ++ [KCloseHandle (processHandle process)]).
Proof.
  intros Hinj. unfold EjectDLL, EjectDLLFromProcess.
  destruct (list_find _ _) as [[it p] |] eqn:F.
  - exists it, p. eexists. split; [done | reflexivity].
  - exfalso. apply list_find_None in F. rewrite Forall_forall in F.
    unfold IsDLLInjected in Hinj. apply existsb_exists in Hinj as [q [Hq Heq]].
    apply (F q); [by apply list_elem_of_In | by apply Z.eqb_eq].
Qed.

(** The pipe connection is made exactly when the pipe shows up and can
    be opened. *)
Lemma CreateNamedPipeConnection_result mon :
  CreateNamedPipeConnection P mon
  = if WaitNamedPipe P && negb (CreateFile P =? INVALID_HANDLE_VALUE)
    then (true,
          mkMonitor (object mon) (m_isMonitoring mon) (m_shouldStopMonitoring mon)
                    (Some (mkPipeConnection (CreateFile P) true false))
                    (m_monitoringThread mon))
    else (false, mon).
Proof.
  unfold CreateNamedPipeConnection.
  destruct (WaitNamedPipe P); [| done]. by destruct (CreateFile P =? _).
Qed.

(** X26 -- a failed start rolls the injection back.  When
    [StartMonitoring], called while not monitoring, returns [false],
    the object is neither monitoring nor connected afterwards.  If the
    game process had no injection record before the call, the object
    is exactly as before: an injection made by this call is ejected
    again when the pipe cannot be opened.  If the process already had a
    record, the failure is that of the pipe, and it costs the record:
    the first record for the process is removed and the last kernel
    call closes the process handle stored in it. *)
Theorem StartMonitoring_failure_rolls_back (snapshot : ProcessSnapshot)
    (mon mon' : Monitor) (t : list KCall) :
  m_isMonitoring mon = false ->
  StartMonitoring K P snapshot mon = (false, mon', t) ->
  let pid := FindGameProcessId snapshot in
  m_isMonitoring mon' = false
  /\ m_pipeConnection mon' = m_pipeConnection mon
  /\ (IsDLLInjected (object mon) pid = false -> mon' = mon)
  /\ (IsDLLInjected (object mon) pid = true -> pid <> 0 ->
      exists it process,
        list_find (fun q => processId q = pid) (m_injectedProcesses (object mon))
        = Some (it, process)
        /\ mon' = with_object
                    (with_injectedProcesses (delete it (m_injectedProcesses (object mon)))
                                            (object mon)) mon
        /\ last t = Some (KCloseHandle (processHandle process))).
Proof.
  intros Hoff Hstart pid. unfold StartMonitoring in Hstart. rewrite Hoff in Hstart.
  fold pid in Hstart.
  destruct (pid =? 0) eqn:Hpid.
  { injection Hstart as <- <-. apply Z.eqb_eq in Hpid.
    split; [done |]. split; [done |]. split; [done |]. intros _ Hne. by destruct Hne. }
  destruct (InjectDLL K (object mon) pid) as [[injected st] ti] eqn:Hinj.
  destruct injected; cbn [negb] in Hstart.
  - (* injected: the pipe is what failed *)
    rewrite CreateNamedPipeConnection_result in Hstart.
    destruct (WaitNamedPipe P && negb (CreateFile P =? INVALID_HANDLE_VALUE));
      cbn [negb] in Hstart; [done |].
    change (object (with_object st mon)) with st in Hstart.
    destruct (EjectDLL K st pid) as [[ejected st'] te] eqn:Hej.
    injection Hstart as <- <-.
    split; [done |]. split; [done |]. split.
    + intros Hno.
      destruct (InjectDLL_then_EjectDLL K (object mon) st pid ti Hno Hinj)
        as [_ [t' [Hej' _]]].
      rewrite Hej in Hej'. injection Hej' as _ -> _.
      unfold with_object. by destruct mon.
    + intros Hyes _.
      rewrite InjectDLL_injected in Hinj by done. injection Hinj as <- <-.
      destruct (EjectDLL_of_record (object mon) pid Hyes) as [it [p [t0 [F E]]]].
      rewrite Hej in E. injection E as _ -> ->.
      exists it, p. split; [done |]. split; [done |].
      cbn [app]. by rewrite last_snoc.
  - (* the injection failed *)
    injection Hstart as <- <-.
    destruct (InjectDLL_false _ _ _ _ Hinj) as [-> Hno].
    rewrite with_object_same.
    split; [done |]. split; [done |]. split; [done |].
    intros Hyes. congruence.
Qed.


End Kernel.

Lemma StartMonitoring_failure_rolls_back_witness :
  let started := StartMonitoring cooperative pipe_missing launcher_first constructor in
  let mon' := snd (fst started) in
  let pid := FindGameProcessId launcher_first in
  m_isMonitoring mon' = false
  /\ m_pipeConnection mon' = m_pipeConnection constructor
  /\ (IsDLLInjected (object constructor) pid = false -> mon' = constructor)
  /\ (IsDLLInjected (object constructor) pid = true -> pid <> 0 ->
      exists it process,
        list_find (fun q => processId q = pid) (m_injectedProcesses (object constructor))
        = Some (it, process)
        /\ mon' = with_object
                    (with_injectedProcesses
                       (delete it (m_injectedProcesses (object constructor)))
                       (object constructor)) constructor
        /\ last (snd started) = Some (KCloseHandle (processHandle process))).
Proof.
  apply (StartMonitoring_failure_rolls_back cooperative pipe_missing launcher_first
           constructor); reflexivity.
Defined.


End MonitoringFacts.

(* ===================================================================== *)
(** * The panels around the game area *)
(* ===================================================================== *)

Module LayoutFacts.
Import CRuntime CoachingLayout.
Import WindowFacts InterfaceFacts.

Local Open Scope Z_scope.

(** Where [UpdateLayout] of [main.cpp] puts the game area between the
    widths it reserves for the panels. *)
Lemma gameArea_between_panels (cw ch : Z) :
  1370 <= cw < 2 ^ 29 -> 510 <= ch < 2 ^ 29 ->
  let gameArea := main_cpp.UpdateLayout_gameArea (mkRECT 0 0 cw ch) in
  250 <= rc_left gameArea
  /\ (1920 <= cw -> 350 <= rc_left gameArea)
  /\ rc_right gameArea <= cw - 310
  /\ (1750 <= cw -> rc_right gameArea <= cw - 380)
  /\ 640 <= rc_right gameArea - rc_left gameArea
  /\ 480 <= rc_bottom gameArea - rc_top gameArea
  /\ 15 <= rc_top gameArea /\ rc_bottom gameArea <= ch - 15.
Proof.
  intros Hw Hh. cbn zeta.
  unfold main_cpp.UpdateLayout_gameArea, int_add, int_sub, int_mul, int_div.
  cbn [rc_left rc_top rc_right rc_bottom]. rewrite !Z.sub_0_r. nowrap.
  rewrite (to_LONG_small (Z.quot cw 6)), (to_LONG_small (Z.quot cw 5))
    by (unfold LONG_range; Z.to_euclidean_division_equations; lia).
  set (L := std_min (std_max 220 (Z.quot cw 6)) 320).
  set (R := std_min (std_max 280 (Z.quot cw 5)) 350).
  assert (HL : 220 <= L <= 320 /\ (1920 <= cw -> L = 320)).
  { subst L; unfold std_min, std_max; split_ltb;
      split; try lia; intros; Z.to_euclidean_division_equations; lia. }
  assert (HR : 280 <= R <= 350 /\ (1750 <= cw -> R = 350)).
  { subst R; unfold std_min, std_max; split_ltb;
      split; try lia; intros; Z.to_euclidean_division_equations; lia. }
  clearbody L R. nowrap.
  set (W := cw - L - R - 15 * 4). set (H := ch - 15 * 2).
  assert (HW : W = cw - L - R - 60) by (subst W; lia).
  assert (HH : H = ch - 30) by (subst H; lia).
  clearbody W H. nowrap.
  set (h := Z.quot (W * 3) 4).
  assert (Hh4 : 4 * h <= 3 * W < 4 * h + 4)
    by (subst h; Z.to_euclidean_division_equations; lia).
  set (w := Z.quot (H * 4) 3).
  assert (Hw3 : 3 * w <= 4 * H < 3 * w + 3)
    by (subst w; Z.to_euclidean_division_equations; lia).
  clearbody h w. nowrap.
  destruct (Z.ltb_spec H h) as [Hbig | Hfit]; cbv beta iota;
    unfold std_max; split_ltb; nowrap_quot;
    cbn [rc_left rc_top rc_right rc_bottom];
    repeat split; intros; Z.to_euclidean_division_equations; lia.
Qed.

(** X28 -- the panels flank the game area.  For a client area at least
    1370 and less than 7600 wide and at least 510 and less than 2^29
    high (so that no [int] operation overflows), when [UpdateLayout] of
    [main.cpp] hands its game area to
    [CoachingInterface::UpdateLayout], [CalculateLayout] puts the left
    panel between the margin and the game area and the right panel
    between the game area and the margin, both from margin to margin
    vertically, where the margin is the larger of 12 and a hundredth of
    the width; each is at least 200 wide, so the correction for narrow
    panels leaves them alone and neither panel overlaps the game area,
    whether it is shown or not.  The rectangle of a bottom or top panel
    that is not shown is left as it was. *)
Theorem panels_flank_the_game_area (ui : Layout) (cw ch : Z) :
  1370 <= cw < 7600 -> 510 <= ch < 2 ^ 29 ->
  let clientRect := mkRECT 0 0 cw ch in
  let gameArea := main_cpp.UpdateLayout_gameArea clientRect in
  let ui' := CoachingLayout.UpdateLayout ui clientRect gameArea in
  let margin := std_max 12 (Z.quot cw 100) in
  m_leftPanel ui' = mkRECT margin margin (rc_left gameArea - margin) (ch - margin)
  /\ m_rightPanel ui' = mkRECT (rc_right gameArea + margin) margin (cw - margin) (ch - margin)
  /\ 200 <= rc_right (m_leftPanel ui') - rc_left (m_leftPanel ui')
  /\ 200 <= rc_right (m_rightPanel ui') - rc_left (m_rightPanel ui')
  /\ 0 < rc_left (m_leftPanel ui') /\ rc_right (m_leftPanel ui') < rc_left gameArea
  /\ rc_right gameArea < rc_left (m_rightPanel ui') /\ rc_right (m_rightPanel ui') < cw
  /\ (m_showBottomPanel ui = false -> m_bottomPanel ui' = m_bottomPanel ui)
  /\ (m_showTopPanel ui = false -> m_topPanel ui' = m_topPanel ui).
Proof.
  intros Hw Hh. cbn zeta.
  destruct (gameArea_between_panels cw ch) as [G1 [G2 [G3 [G4 [G5 [G6 [G7 G8]]]]]]];
    [lia | lia |].
  destruct (main_cpp.UpdateLayout_gameArea (mkRECT 0 0 cw ch)) as [gl gt gr gb].
  cbn [rc_left rc_top rc_right rc_bottom] in *.
  set (m := std_max 12 (Z.quot cw 100)).
  assert (Hm : 12 <= m /\ (cw < 1920 -> m <= 19) /\ m <= 75).
  { subst m. unfold std_max. split_ltb; repeat split; intros;
      Z.to_euclidean_division_equations; lia. }
  unfold CoachingLayout.UpdateLayout, CalculateLayout, int_add, int_sub, int_mul, int_div.
  cbn [m_clientRect m_gameArea m_leftPanel m_rightPanel m_bottomPanel m_topPanel
       m_showLeftPanel m_showRightPanel m_showBottomPanel m_showTopPanel
       rc_left rc_top rc_right rc_bottom].
  rewrite !Z.sub_0_r, !Z.add_0_l. nowrap.
  rewrite (to_LONG_small (Z.quot cw 100))
    by (unfold LONG_range; Z.to_euclidean_division_equations; lia).
  fold m. clearbody m. nowrap.
  replace (0 <? gr - gl) with true by (symmetry; apply Z.ltb_lt; lia).
  replace (0 <? gb - gt) with true by (symmetry; apply Z.ltb_lt; lia).
  cbn [andb]. cbv iota beta.
  cbn [rc_left rc_top rc_right rc_bottom]. nowrap.
  replace (gl - m - m <? 200) with false by (symmetry; apply Z.ltb_ge; lia).
  replace (cw - m - (gr + m) <? 200) with false by (symmetry; apply Z.ltb_ge; lia).
  cbn [andb m_leftPanel m_rightPanel m_bottomPanel m_topPanel
       rc_left rc_top rc_right rc_bottom].
  split; [done |]. split; [done |].
  split; [lia |]. split; [lia |]. split; [lia |]. split; [lia |].
  split; [lia |]. split; [lia |].
  split; intros ->; done.
Qed.

Lemma panels_flank_the_game_area_witness :
  let clientRect := mkRECT 0 0 1400 900 in
  let gameArea := main_cpp.UpdateLayout_gameArea clientRect in
  let ui' := CoachingLayout.UpdateLayout initial clientRect gameArea in
  let margin := std_max 12 (Z.quot 1400 100) in
  m_leftPanel ui' = mkRECT margin margin (rc_left gameArea - margin) (900 - margin)
  /\ m_rightPanel ui'
     = mkRECT (rc_right gameArea + margin) margin (1400 - margin) (900 - margin)
  /\ 200 <= rc_right (m_leftPanel ui') - rc_left (m_leftPanel ui')
  /\ 200 <= rc_right (m_rightPanel ui') - rc_left (m_rightPanel ui')
  /\ 0 < rc_left (m_leftPanel ui') /\ rc_right (m_leftPanel ui') < rc_left gameArea
  /\ rc_right gameArea < rc_left (m_rightPanel ui') /\ rc_right (m_rightPanel ui') < 1400
  /\ (m_showBottomPanel initial = false -> m_bottomPanel ui' = m_bottomPanel initial)
  /\ (m_showTopPanel initial = false -> m_topPanel ui' = m_topPanel initial).
Proof.
  apply (panels_flank_the_game_area initial 1400 900); lia.
Defined.

(** The panels of the default window. *)
Example panels_default :
  let ui' := CoachingLayout.UpdateLayout initial (mkRECT 0 0 1400 900)
               (main_cpp.UpdateLayout_gameArea (mkRECT 0 0 1400 900)) in
  m_leftPanel ui' = mkRECT 14 14 249 886 /\ m_rightPanel ui' = mkRECT 1104 14 1386 886.
Proof. split; reflexivity. Qed.

End LayoutFacts.

(* ===================================================================== *)
(** * The detection thread while a game is embedded *)
(* ===================================================================== *)

Module DetectionFacts.
Import WindowManager Vocabulary Samples Scenarios GameDetection.
Import WindowFacts EmbeddingFacts.

Local Open Scope string_scope.
Local Open Scope list_scope.
Local Open Scope Z_scope.


Section Platform.
Variable rejects : Call -> bool.



(** X30 -- the steady pass.  With the game window and the container
    alive and a content area more than 100 wide and high, when the
    platform carries out the positioning call, a pass of the detection
    thread puts the game window at the content area on every pass (its
    rectangle is the content area, it is not topmost, and its client
    rectangle is asked for anew when its extent has changed), and
    requests the repaint only when more than 2000 ms, computed modulo
    2^32, have passed since the last request, which is the only time
    it moves [lastRefresh]; the repaint changes no window attribute.
    The pass issues no kernel call, touches no record and leaves the
    application state as it is. *)
Theorem steady_pass_places_game (containerWindow : HWND) (contentArea : RECT)
    (tick : Z) (app : App) (os : Desktop) (w : Window) :
  main_cpp.isGameEmbedded (g_appState app) = true ->
  windows os !! main_cpp.gameWindow (g_appState app) = Some w ->
  containerWindow <> NULL -> IsWindow containerWindow os = true ->
  100 < rc_right contentArea - rc_left contentArea < 2 ^ 31 ->
  100 < rc_bottom contentArea - rc_top contentArea < 2 ^ 31 ->
  LONG_range (rc_right contentArea) -> LONG_range (rc_bottom contentArea) ->
  rejects (CSetWindowPos (main_cpp.gameWindow (g_appState app)) HWND_BOTTOM
             (rc_left contentArea) (rc_top contentArea)
             (rc_right contentArea - rc_left contentArea)
             (rc_bottom contentArea - rc_top contentArea)
             (Z.lor SWP_NOACTIVATE SWP_NOOWNERZORDER)) = false ->
  let gw := main_cpp.gameWindow (g_appState app) in
  let due := 2000 <? to_DWORD (tick - lastRefresh app) in
  let moved :=
    mkDesktop (<[gw := placed contentArea w]> (windows os)) (last_error os)
              (os_log os
               ++ [CSetWindowPos gw HWND_BOTTOM (rc_left contentArea) (rc_top contentArea)
                     (rc_right contentArea - rc_left contentArea)
                     (rc_bottom contentArea - rc_top contentArea)
                     (Z.lor SWP_NOACTIVATE SWP_NOOWNERZORDER)]) in
  let result := embedded_pass rejects containerWindow contentArea tick app os in
  result
  = (mkApp (g_appState app) (windowManager app) (gameInterface app) (m_commentary app)
           (if due then tick else lastRefresh app),
     if due then SynchronizeWindowRefresh rejects containerWindow gw moved else moved,
     [])
  /\ windows (snd (fst result)) = <[gw := placed contentArea w]> (windows os).
Proof.
  intros Hemb Hw Hnn Hc Hwd Hht Hr Hb Hacc. cbn zeta.
  assert (Halive : IsWindow (main_cpp.gameWindow (g_appState app)) os = true)
    by (unfold IsWindow; by rewrite Hw).
  assert (Hn : (containerWindow =? NULL) = false) by by apply Z.eqb_neq.
  assert (E : embedded_pass rejects containerWindow contentArea tick app os
              = (mkApp (g_appState app) (windowManager app) (gameInterface app)
                       (m_commentary app)
                       (if 2000 <? to_DWORD (tick - lastRefresh app)
                        then tick else lastRefresh app),
                 if 2000 <? to_DWORD (tick - lastRefresh app)
                 then SynchronizeWindowRefresh rejects containerWindow
                        (main_cpp.gameWindow (g_appState app))
                        (mkDesktop (<[main_cpp.gameWindow (g_appState app)
                                      := placed contentArea w]> (windows os))
                           (last_error os)
                           (os_log os
                            ++ [CSetWindowPos (main_cpp.gameWindow (g_appState app))
                                  HWND_BOTTOM (rc_left contentArea) (rc_top contentArea)
                                  (rc_right contentArea - rc_left contentArea)
                                  (rc_bottom contentArea - rc_top contentArea)
                                  (Z.lor SWP_NOACTIVATE SWP_NOOWNERZORDER)]))
                 else mkDesktop (<[main_cpp.gameWindow (g_appState app)
                                   := placed contentArea w]> (windows os))
                        (last_error os)
                        (os_log os
                         ++ [CSetWindowPos (main_cpp.gameWindow (g_appState app))
                               HWND_BOTTOM (rc_left contentArea) (rc_top contentArea)
                               (rc_right contentArea - rc_left contentArea)
                               (rc_bottom contentArea - rc_top contentArea)
                               (Z.lor SWP_NOACTIVATE SWP_NOOWNERZORDER)]),
                 [])).
  { unfold embedded_pass.
    rewrite Halive. cbn [negb]. rewrite Hemb, Hn, Hc. cbn [negb andb orb].
    replace (rc_left contentArea <? rc_right contentArea) with true
      by (symmetry; apply Z.ltb_lt; lia).
    replace (rc_top contentArea <? rc_bottom contentArea) with true
      by (symmetry; apply Z.ltb_lt; lia).
    cbn [andb].
    assert (Hmv : positioned HWND_BOTTOM (rc_left contentArea) (rc_top contentArea)
                    (to_LONG (rc_right contentArea - rc_left contentArea))
                    (to_LONG (rc_bottom contentArea - rc_top contentArea))
                    (Z.lor SWP_NOACTIVATE SWP_NOOWNERZORDER) w = placed contentArea w)
      by (apply positioned_places; reflexivity || done).
    rewrite !to_LONG_small in * by (unfold LONG_range; lia).
    replace (100 <? rc_right contentArea - rc_left contentArea) with true
      by (symmetry; apply Z.ltb_lt; lia).
    replace (100 <? rc_bottom contentArea - rc_top contentArea) with true
      by (symmetry; apply Z.ltb_lt; lia).
    cbn [andb].
    rewrite (SetWindowPos_accepted rejects _ _ _ _ _ _ _ os w Hw Hacc), Hmv.
    rewrite ?Hemb, ?Hc. cbn [andb].
    destruct (2000 <? to_DWORD (tick - lastRefresh app)); [done |]. by destruct app. }
  rewrite E. split; [done |]. cbn [fst snd].
  destruct (2000 <? to_DWORD (tick - lastRefresh app)); [| done].
  erewrite SynchronizeWindowRefresh_keeps;
    [done | cbn [windows]; apply lookup_insert_eq | apply lowered_placed].
Qed.

End Platform.


(** After the sample game has exited its record is still there, and
    the desktop is untouched. *)
Example lost_game_window_sample :
  let '(app', os', t) :=
    embedded_pass accept_all 1 (mkRECT 0 0 800 600) 5000 embedded_app desk_after_exit in
  windowManager app' = [game_record] /\ os' = desk_after_exit
  /\ main_cpp.isGameEmbedded (g_appState app') = false /\ t = [].
Proof. vm_compute. done. Qed.

(** The sample game window gets its own place back when the container
    is lost, and its record goes. *)
Example lost_container_sample :
  let '(app', os', t) :=
    embedded_pass accept_all NULL (mkRECT 0 0 800 600) 5000 embedded_app desk in
  windowManager app' = [] /\ windows os' !! 7 = Some game
  /\ main_cpp.isGameEmbedded (g_appState app') = false /\ t = [].
Proof. vm_compute. done. Qed.

Lemma steady_pass_places_game_witness :
  let gw := 7 in
  let contentArea := mkRECT 263 140 1090 760 in
  let due := 2000 <? to_DWORD (5000 - lastRefresh embedded_app) in
  let moved :=
    mkDesktop (<[gw := placed contentArea game]> (windows desk)) (last_error desk)
              (os_log desk
               ++ [CSetWindowPos gw HWND_BOTTOM (rc_left contentArea) (rc_top contentArea)
                     (rc_right contentArea - rc_left contentArea)
                     (rc_bottom contentArea - rc_top contentArea)
                     (Z.lor SWP_NOACTIVATE SWP_NOOWNERZORDER)]) in
  let result := embedded_pass accept_all 1 contentArea 5000 embedded_app desk in
  result
  = (mkApp (g_appState embedded_app) (windowManager embedded_app)
           (gameInterface embedded_app) (m_commentary embedded_app)
           (if due then 5000 else lastRefresh embedded_app),
     if due then SynchronizeWindowRefresh accept_all 1 gw moved else moved,
     [])
  /\ windows (snd (fst result)) = <[gw := placed contentArea game]> (windows desk).
Proof.
  refine (steady_pass_places_game accept_all 1 (mkRECT 263 140 1090 760) 5000
            embedded_app desk game _ _ _ _ _ _ _ _ _).
  - reflexivity.
  - reflexivity.
  - unfold NULL. lia.
  - reflexivity.
  - cbn. lia.
  - cbn. lia.
  - cbn. unfold LONG_range. lia.
  - cbn. unfold LONG_range. lia.
  - reflexivity.
Defined.

(** The steady pass on the sample desktop: the game window, 640 by 480
    with its caption, is put at the content area of 827 by 620, and its
    client rectangle follows. *)
Example steady_pass_sample :
  let '(_, os', _) :=
    embedded_pass accept_all 1 (mkRECT 263 140 1090 760) 5000 embedded_app desk in
  windows os' !! 7
  = Some (mkWindow NULL 0x14CF0000 0x00000100 (mkRECT 263 140 1090 760)
                   (mkRECT 0 0 811 581) 1 framed).
Proof. vm_compute. done. Qed.

End DetectionFacts.
